(** * BanSync: a shallow embedding of [src/index.ts]

    The bot replicates a ban from one Discord guild to every other
    configured guild.  This development embeds the lock table
    ([processingBans] and its helpers), the per-guild propagation loops
    ([syncBanToAllServers], the [guildBanAdd] handler), the bulk
    reconciliation ([handleSyncCommand]) and the retraction command
    ([handleUnbanCommand]), and states the properties of the specification
    over them.

    Conventions of the embedding:
    - JavaScript numbers holding [Date.now()] milliseconds are [Z];
    - [string | null | undefined] is [option string], and JavaScript
      truthiness of a string ([s || d], [!s]) is written out;
    - a [Map] whose iteration order matters is an association list;
      the lock table, which is only looked up by key, is a [gmap];
    - asynchronous functions are computations in a state-and-exception
      monad [Async]; one handler runs to completion before the next one
      starts (no interleaving at [await]);
    - the state holds the clock read by [Date.now()], the lock table,
      the ban list of every guild and the trace of the calls made; time
      passes in the explicit [setTimeout] delays only;
    - the remote side is an environment [Env] of answers: which guilds
      are in the client cache, what the bot may do there, which calls
      reject, with what value, and which embeds [EmbedBuilder] refuses;
    - [console.log] is not an effect of interest and is left out. *)

From Stdlib Require Import ZArith String Ascii.
From stdpp Require Import base option list strings gmap.

Local Open Scope string_scope.
Local Open Scope list_scope.
Local Open Scope Z_scope.

(** ** The lock table: [processingBans] *)

Definition BAN_PROCESSING_TIMEOUT : Z := 30000.
Definition BAN_DELAY_MS : Z := 1000.

(** [`${userId}-${guildId}`] *)
Definition getBanKey (userId guildId : string) : string :=
  userId +:+ "-" +:+ guildId.

(** [isBanProcessing], with [Date.now()] and the table passed explicitly.
    [!timestamp] holds for [undefined] and for the number [0]. *)
Definition isBanProcessing (now : Z) (userId guildId : string)
    (m : gmap string Z) : bool * gmap string Z :=
  let key := getBanKey userId guildId in
  match m !! key with
  | None => (false, m)
  | Some timestamp =>
      if timestamp =? 0 then (false, m)
      else if now - timestamp >? BAN_PROCESSING_TIMEOUT
           then (false, delete key m)
           else (true, m)
  end.

Definition markBanProcessing (now : Z) (userId guildId : string)
    (m : gmap string Z) : gmap string Z :=
  <[getBanKey userId guildId := now]> m.

Definition unmarkBanProcessing (userId guildId : string)
    (m : gmap string Z) : gmap string Z :=
  delete (getBanKey userId guildId) m.

(** The body of the [setInterval] callback. *)
Definition sweepProcessing (now : Z) (m : gmap string Z) : gmap string Z :=
  filter (λ kv, ¬ (now - kv.2 > BAN_PROCESSING_TIMEOUT)) m.

(** The acquire sequence of the two propagation loops:
    [if (isBanProcessing(u, g)) { ...; continue; } markBanProcessing(u, g);] *)
Definition tryAcquire (now : Z) (userId guildId : string)
    (m : gmap string Z) : bool * gmap string Z :=
  let '(busy, m') := isBanProcessing now userId guildId m in
  if busy then (false, m') else (true, markBanProcessing now userId guildId m').

(** Every stored timestamp was read from a clock after the epoch. *)
Definition locks_wf (m : gmap string Z) : Prop :=
  ∀ k ts, m !! k = Some ts → 0 < ts.

(** Operations on the table, to speak about what happens between two
    acquisitions. *)
Inductive LockOp :=
  | OpIsProcessing (t : Z) (userId guildId : string)
  | OpMark (t : Z) (userId guildId : string)
  | OpUnmark (userId guildId : string)
  | OpSweep (t : Z).

Definition runLockOp (op : LockOp) (m : gmap string Z) : gmap string Z :=
  match op with
  | OpIsProcessing t u g => (isBanProcessing t u g m).2
  | OpMark t u g => markBanProcessing t u g m
  | OpUnmark u g => unmarkBanProcessing u g m
  | OpSweep t => sweepProcessing t m
  end.

Definition runLockOps (ops : list LockOp) (m : gmap string Z) : gmap string Z :=
  foldl (λ m op, runLockOp op m) m ops.

(** [op] neither releases nor re-acquires the token stored under [key]. *)
Definition keepsToken (key : string) (op : LockOp) : Prop :=
  match op with
  | OpMark _ u g | OpUnmark u g => getBanKey u g ≠ key
  | _ => True
  end.


(** ** Data *)

(** [interface ServerConfig] *)
Record ServerConfig := mkServerConfig {
  server_id : string;
  server_name : string;
  logChannelId : option string
}.

(** [interface BanResult] *)
Module BanResult.
Record t := mk {
  serverId : string;
  serverName : string;
  success : bool;
  alreadyBanned : bool;
  error : option string
}.
End BanResult.

(** [interface UnbanResult] *)
Module UnbanResult.
Record t := mk {
  serverId : string;
  serverName : string;
  success : bool;
  wasNotBanned : bool;
  error : option string
}.
End UnbanResult.

(** One entry of a guild's ban list ([GuildBan]): the banned user and the
    recorded reason. *)
Record Ban := mkBan {
  ban_userId : string;
  ban_userTag : string;
  ban_reason : option string
}.

(** The value type of [allBans], which is also the argument of
    [syncBanToAllServers]. *)
Record BanInfo := mkBanInfo {
  userId : string;
  userTag : string;
  sourceServerId : string;
  sourceServerName : string;
  reason : string
}.

(** [interface SyncStats] *)
Module SyncStats.
Record t := mk {
  totalBans : nat;
  newBans : nat;
  alreadyBanned : nat;
  errors : nat;
  details : list (string * (string * list BanResult.t))
}.
End SyncStats.

(** The argument of the [guildBanAdd] listener: [ban.user], [ban.guild]. *)
Record BanEvent := mkBanEvent {
  ev_userId : string;
  ev_userTag : string;
  ev_guildId : string;
  ev_guildName : string
}.

(** What the command handlers read from a [ChatInputCommandInteraction]. *)
Record Interaction := mkInteraction {
  memberCanBan : bool;          (* memberPermissions?.has(BanMembers) *)
  requesterTag : string;        (* interaction.user.tag *)
  requesterId : string;         (* interaction.user.id *)
  opt_user_id : string;         (* options.getString('user_id', true) *)
  opt_reason : option string    (* options.getString('reason') *)
}.

(** A value caught by [catch (error)]. *)
Inductive Thrown :=
  | ThrownError (message : string)
  | ThrownOther.

(** [error instanceof Error ? error.message : 'Unknown error'] *)
Definition errorMessage (e : Thrown) : string :=
  match e with
  | ThrownError message => message
  | ThrownOther => "Unknown error"
  end.

(** JavaScript truthiness of a possibly missing string. *)
Definition truthy (o : option string) : bool :=
  match o with
  | Some (String _ _) => true
  | _ => false
  end.

(** [o || d] *)
Definition orElse (o : option string) (d : string) : string :=
  match o with
  | Some (String c s) => String c s
  | _ => d
  end.

Definition SYNC_TAG : string := "[BanSync]".

(** [reason?.startsWith('[BanSync]')] *)
Definition isSyncTagged (o : option string) : bool :=
  match o with
  | Some r => String.prefix SYNC_TAG r
  | None => false
  end.

(** [/^\d{17,19}$/.test(userId)]: without the [u] and [m] flags, [\d] is
    an ASCII digit and [$] is the end of the input. *)
Definition isDigit (c : ascii) : bool :=
  ((48 <=? nat_of_ascii c) && (nat_of_ascii c <=? 57))%nat.

Definition userIdFormat (s : string) : bool :=
  forallb isDigit (list_ascii_of_string s)
  && ((17 <=? String.length s) && (String.length s <=? 19))%nat.

(** The embeds the bot builds, by their fields. *)
Inductive Embed :=
  | BanSyncReport (sourceServerName : string) (userId : string)
      (banReason : string) (results : list BanResult.t)
      (successCount failureCount alreadyBannedCount : nat)
  | SyncComplete (stats : SyncStats.t) (serverCount : nat)
  | UnbanComplete (userId reason : string) (results : list UnbanResult.t)
      (unbannedCount notBannedCount errorCount : nat).

(** The bodies of [interaction.reply] and [interaction.editReply]. *)
Inductive Reply :=
  | NeedBanPermission       (* 'You need Ban Members permission ...' *)
  | InvalidUserId           (* 'Invalid user ID format. ...' *)
  | Deferred                (* deferReply() *)
  | NoBansToSync            (* 'No bans found to sync across servers.' *)
  | UnbanFailed             (* 'An error occurred during the unban process. ...' *)
  | SyncStarting (bans serverCount : nat)
  | SyncProgress (processed total : nat)
  | ReplyEmbed (e : Embed).

(** Calls that leave the process, newest first in [trace]. *)
Inductive Effect :=
  | MembersFetchMe (guildId : string)            (* guild.members.fetch(client.user.id) *)
  | MembersFetch (guildId userId : string)       (* guild.members.fetch(userId) *)
  | BansFetch (guildId userId : string)          (* guild.bans.fetch(userId) *)
  | BansFetchAll (guildId : string)              (* guild.bans.fetch() *)
  | MembersBan (guildId userId reason : string)  (* guild.members.ban *)
  | MembersUnban (guildId userId reason : string)(* guild.members.unban *)
  | InteractionReply (r : Reply)
  | SendLogToAll (e : Embed)
  | SystemChannelSend (guildId : string) (e : Embed).

(** The mutable part of the world: the clock, the lock table, every
    guild's ban list, and the calls made so far. *)
Record State := mkState {
  clock : Z;
  processingBans : gmap string Z;
  guildBans : gmap string (list Ban);
  trace : list Effect
}.

(** The fixed part: [serversConfig.servers] and how the remote side
    answers.  A fault is the value a call rejects with.  [embedFault]
    says which embeds [EmbedBuilder] refuses (it validates the texts it
    is given, a field value of more than 1024 characters for one, and
    throws), and with what. *)
Record Env := mkEnv {
  servers : list ServerConfig;
  guildCached : string → bool;                   (* client.guilds.cache.get(id) *)
  botMember : string → Thrown + bool;            (* own member: permissions.has(BanMembers) *)
  isMember : string → string → bool;
  bansFetchFault : string → string → option Thrown;
  bansListFault : string → option Thrown;
  banFault : string → string → option Thrown;
  unbanFault : string → string → option Thrown;
  systemChannelWritable : string → bool;
  tagOf : string → string;
  embedFault : Embed → option Thrown
}.

(** [new Map(serversConfig.servers.map(s => [s.id, s]))]: a later entry
    with the same id replaces an earlier one. *)
Definition serverMap (env : Env) : gmap string ServerConfig :=
  foldl (λ m s, <[server_id s := s]> m) ∅ (servers env).

(** ** The [Async] monad *)

Inductive Res (A : Type) :=
  | Ok (a : A)
  | Throw (e : Thrown).
Arguments Ok {A} a.
Arguments Throw {A} e.

Definition Async (A : Type) : Type := State → Res A * State.

#[global] Instance Async_ret : MRet Async := λ A a st, (Ok a, st).

#[global] Instance Async_bind : MBind Async := λ A B f c st,
  match c st with
  | (Ok a, st') => f a st'
  | (Throw e, st') => (Throw e, st')
  end.

(** [try { body } catch (error) { handler }] *)
Definition tryCatch {A} (body : Async A) (handler : Thrown → Async A) : Async A :=
  λ st,
    match body st with
    | (Ok a, st') => (Ok a, st')
    | (Throw e, st') => handler e st'
    end.

(** [promise.catch(() => null)] *)
Definition catchNull {A} (c : Async A) : Async (option A) :=
  tryCatch (a ← c; mret (Some a)) (λ _, mret None).

(** [for (const x of l) { results.push(await f(x)) }] *)
Fixpoint forEach {A B} (f : A → Async B) (l : list A) : Async (list B) :=
  match l with
  | [] => mret []
  | x :: l' => r ← f x; rs ← forEach f l'; mret (r :: rs)
  end.

(** A loop that threads an accumulator. *)
Fixpoint foldEach {A B} (f : B → A → Async B) (acc : B) (l : list A) : Async B :=
  match l with
  | [] => mret acc
  | x :: l' => acc' ← f acc x; foldEach f acc' l'
  end.

Definition emit (e : Effect) : Async unit :=
  λ st, (Ok tt, mkState (clock st) (processingBans st) (guildBans st) (e :: trace st)).

(** [await new Promise(resolve => setTimeout(resolve, ms))] *)
Definition delay (ms : Z) : Async unit :=
  λ st, (Ok tt, mkState (clock st + ms) (processingBans st) (guildBans st) (trace st)).

Definition throw {A} (e : Thrown) : Async A := λ st, (Throw e, st).

(** [new EmbedBuilder().setTitle(...).addFields(...)], for an embed that
    holds a text of any length: the reason typed by a requester, the
    lines made of the results and their error messages. *)
Definition buildEmbed (env : Env) (e : Embed) : Async Embed :=
  match embedFault env e with
  | Some err => throw err
  | None => mret e
  end.

Definition setProcessingBans (m : gmap string Z) (st : State) : State :=
  mkState (clock st) m (guildBans st) (trace st).

Definition setGuildBans (b : gmap string (list Ban)) (st : State) : State :=
  mkState (clock st) (processingBans st) b (trace st).

(** The lock helpers, reading [Date.now()] and the global table. *)
Definition isBanProcessingNow (userId guildId : string) : Async bool :=
  λ st,
    let r := isBanProcessing (clock st) userId guildId (processingBans st) in
    (Ok r.1, setProcessingBans r.2 st).

Definition markBanProcessingNow (userId guildId : string) : Async unit :=
  λ st, (Ok tt, setProcessingBans
                  (markBanProcessing (clock st) userId guildId (processingBans st)) st).

Definition unmarkBanProcessingNow (userId guildId : string) : Async unit :=
  λ st, (Ok tt, setProcessingBans
                  (unmarkBanProcessing userId guildId (processingBans st)) st).

(** ** The remote side *)

Definition findBan (userId : string) (l : list Ban) : option Ban :=
  List.find (λ b, String.eqb (ban_userId b) userId) l.

Definition bansOf (st : State) (guildId : string) : list Ban :=
  guildBans st !!! guildId.

(** [guild.members.fetch(client.user.id)] followed by
    [.permissions.has(PermissionFlagsBits.BanMembers)] *)
Definition membersFetchMe (env : Env) (guildId : string) : Async bool :=
  emit (MembersFetchMe guildId);;
  match botMember env guildId with
  | inl e => throw e
  | inr canBan => mret canBan
  end.

(** [guild.bans.fetch(userId)]: rejects when the user is not banned. *)
Definition bansFetch (env : Env) (guildId userId : string) : Async Ban :=
  emit (BansFetch guildId userId);;
  match bansFetchFault env guildId userId with
  | Some e => throw e
  | None =>
      λ st, match findBan userId (bansOf st guildId) with
            | Some b => (Ok b, st)
            | None => (Throw (ThrownError "Unknown Ban"), st)
            end
  end.

(** [guild.bans.fetch()] *)
Definition bansFetchAll (env : Env) (guildId : string) : Async (list Ban) :=
  emit (BansFetchAll guildId);;
  match bansListFault env guildId with
  | Some e => throw e
  | None => λ st, (Ok (bansOf st guildId), st)
  end.

(** A ban that goes through records the user with the given reason; a
    user who is already on the list keeps the recorded entry. *)
Definition recordBan (guildId userId reason : string) (tag : string)
    (st : State) : State :=
  match findBan userId (bansOf st guildId) with
  | Some _ => st
  | None =>
      setGuildBans
        (<[guildId := bansOf st guildId ++ [mkBan userId tag (Some reason)]]>
           (guildBans st)) st
  end.

(** [guild.members.ban(userId, { reason })] *)
Definition membersBan (env : Env) (guildId userId reason : string) : Async unit :=
  emit (MembersBan guildId userId reason);;
  match banFault env guildId userId with
  | Some e => throw e
  | None => λ st, (Ok tt, recordBan guildId userId reason (tagOf env userId) st)
  end.

Definition removeBan (guildId userId : string) (st : State) : State :=
  setGuildBans
    (<[guildId := List.filter (λ b, negb (String.eqb (ban_userId b) userId))
                    (bansOf st guildId)]> (guildBans st)) st.

(** [guild.members.unban(userId, reason)]: rejects when there is no ban. *)
Definition membersUnban (env : Env) (guildId userId reason : string) : Async unit :=
  emit (MembersUnban guildId userId reason);;
  match unbanFault env guildId userId with
  | Some e => throw e
  | None =>
      λ st, match findBan userId (bansOf st guildId) with
            | Some _ => (Ok tt, removeBan guildId userId st)
            | None => (Throw (ThrownError "Unknown Ban"), st)
            end
  end.

(** ** Propagation: [syncBanToAllServers] and the [guildBanAdd] listener *)

Definition banFailure (cfg : ServerConfig) (msg : string) : BanResult.t :=
  BanResult.mk (server_id cfg) (server_name cfg) false false (Some msg).

Definition banAlready (cfg : ServerConfig) : BanResult.t :=
  BanResult.mk (server_id cfg) (server_name cfg) true true None.

Definition banApplied (cfg : ServerConfig) : BanResult.t :=
  BanResult.mk (server_id cfg) (server_name cfg) true false None.

(** [`[BanSync] Originally banned in ${sourceServerName} | Reason: ${reason}`] *)
Definition syncReasonOf (banInfo : BanInfo) : string :=
  "[BanSync] Originally banned in " +:+ sourceServerName banInfo
    +:+ " | Reason: " +:+ reason banInfo.

(** The [try { ... } catch (error) { ... }] block of one iteration.  The
    loop of [syncBanToAllServers] (lines 576-650) and the loop of the
    [guildBanAdd] listener (lines 721-795) have the same block, up to the
    names of the user id and of the reason text; the result is the record
    pushed to [results]. *)
Definition banInGuild (env : Env) (userId syncReason : string)
    (cfg : ServerConfig) : Async BanResult.t :=
  let guildId := server_id cfg in
  tryCatch
    (canBan ← membersFetchMe env guildId;
     if negb canBan then mret (banFailure cfg "Missing Permissions")
     else
       existingBan ← catchNull (bansFetch env guildId userId);
       match existingBan with
       | Some _ => mret (banAlready cfg)
       | None =>
           processing ← isBanProcessingNow userId guildId;
           if (processing : bool) then mret (banAlready cfg)
           else
             markBanProcessingNow userId guildId;;
             membersBan env guildId userId syncReason;;
             delay BAN_DELAY_MS;;
             mret (banApplied cfg)
       end)
    (λ e,
       unmarkBanProcessingNow userId guildId;;
       mret (banFailure cfg (errorMessage e))).

(** One iteration of the loop of [syncBanToAllServers]. *)
Definition syncBanToServer (env : Env) (banInfo : BanInfo) (cfg : ServerConfig)
    : Async BanResult.t :=
  if negb (guildCached env (server_id cfg)) then
    mret (banFailure cfg "Bot not in server")
  else banInGuild env (userId banInfo) (syncReasonOf banInfo) cfg.

Definition syncBanToAllServers (env : Env) (banInfo : BanInfo)
    : Async (list BanResult.t) :=
  forEach (syncBanToServer env banInfo) (servers env).

(** [`[BanSync] Banned in ${sourceServer.name} | Reason: ${banReason}`] *)
Definition eventSyncReason (sourceServer : ServerConfig) (banReason : string)
    : string :=
  "[BanSync] Banned in " +:+ server_name sourceServer
    +:+ " | Reason: " +:+ banReason.

(** One iteration of the loop of the [guildBanAdd] listener. *)
Definition banAddToServer (env : Env) (ban : BanEvent)
    (sourceServer : ServerConfig) (banReason : string) (cfg : ServerConfig)
    : Async BanResult.t :=
  if negb (guildCached env (server_id cfg)) then
    mret (banFailure cfg "Bot not in server")
  else if String.eqb (server_id cfg) (ev_guildId ban) then
    mret (banApplied cfg)
  else
    banInGuild env (ev_userId ban) (eventSyncReason sourceServer banReason) cfg.

Definition countIf {A} (p : A → bool) (l : list A) : nat :=
  length (List.filter p l).

(** The three [results.filter(...).length] of the listener and of
    [sendBanReportToAll]. *)
Definition isSynced (r : BanResult.t) : bool :=
  BanResult.success r && negb (BanResult.alreadyBanned r).
Definition isFailure (r : BanResult.t) : bool :=
  negb (BanResult.success r).
Definition isAlreadyBanned (r : BanResult.t) : bool :=
  BanResult.alreadyBanned r.

(** [sendBanReportToAll].  With no failure the embed is the simplified
    one: the user's id, the origin's name, the reason and two counters.
    With a failure it also holds the 'Servers' text, one line per result
    with its error message, and the builder may refuse it; nothing
    catches that here nor in the listener. *)
Definition sendBanReportToAll (env : Env) (sourceServerName : string)
    (ban : BanEvent) (results : list BanResult.t) (banReason : string)
    : Async unit :=
  let report :=
    BanSyncReport sourceServerName (ev_userId ban) banReason results
      (countIf isSynced results) (countIf isFailure results)
      (countIf isAlreadyBanned results) in
  if (countIf isFailure results =? 0)%nat then emit (SendLogToAll report)
  else
    embed ← buildEmbed env report;
    emit (SendLogToAll embed).

(** The [for (const configServer of serversConfig.servers)] loop of the
    listener. *)
Definition banAddToAllServers (env : Env) (ban : BanEvent)
    (sourceServer : ServerConfig) (banReason : string)
    : Async (list BanResult.t) :=
  forEach (banAddToServer env ban sourceServer banReason) (servers env).

(** [client.on('guildBanAdd', async (ban) => ...)] *)
Definition guildBanAdd (env : Env) (ban : BanEvent) : Async unit :=
  match serverMap env !! ev_guildId ban with
  | None => mret tt
  | Some sourceServer =>
      processing ← isBanProcessingNow (ev_userId ban) (ev_guildId ban);
      if (processing : bool) then mret tt
      else
        banReason ←
          tryCatch
            (fetchedBan ← bansFetch env (ev_guildId ban) (ev_userId ban);
             mret (orElse (ban_reason fetchedBan) "No reason provided"))
            (λ _, mret "No reason provided");
        if String.prefix SYNC_TAG banReason then mret tt
        else
          results ← banAddToAllServers env ban sourceServer banReason;
          sendBanReportToAll env (server_name sourceServer) ban results
            banReason
  end.

(** ** Reconciliation: [handleSyncCommand] *)

(** [Map.prototype.set] on an insertion-ordered map: an existing key keeps
    its place, a new one goes last. *)
Fixpoint mapSet {V} (k : string) (v : V) (l : list (string * V))
    : list (string * V) :=
  match l with
  | [] => [(k, v)]
  | (k', v') :: l' =>
      if String.eqb k' k then (k, v) :: l' else (k', v') :: mapSet k v l'
  end.

Definition mapGet {V} (k : string) (l : list (string * V)) : option V :=
  snd <$> List.find (λ kv, String.eqb kv.1 k) l.

Definition mapHas {V} (k : string) (l : list (string * V)) : bool :=
  bool_decide (is_Some (mapGet k l)).

(** The object stored in [allBans] for a ban read from a server. *)
Definition banInfoOf (cfg : ServerConfig) (ban : Ban) : BanInfo :=
  mkBanInfo (ban_userId ban) (ban_userTag ban) (server_id cfg)
    (server_name cfg) (orElse (ban_reason ban) "No reason provided").

(** The body of [for (const [userId, ban] of bans)]. *)
Definition addToUnion (cfg : ServerConfig) (allBans : list (string * BanInfo))
    (ban : Ban) : list (string * BanInfo) :=
  if isSyncTagged (ban_reason ban) then allBans
  else if negb (mapHas (ban_userId ban) allBans)
          || negb (truthy (reason <$> mapGet (ban_userId ban) allBans))
  then
    mapSet (ban_userId ban) (banInfoOf cfg ban) allBans
  else allBans.

(** The body of the collecting [for (const configServer of ...)]. *)
Definition collectFromServer (env : Env) (allBans : list (string * BanInfo))
    (cfg : ServerConfig) : Async (list (string * BanInfo)) :=
  if negb (guildCached env (server_id cfg)) then mret allBans
  else
    tryCatch
      (bans ← bansFetchAll env (server_id cfg);
       mret (foldl (addToUnion cfg) allBans bans))
      (λ _, mret allBans).

Definition collectAllBans (env : Env) : Async (list (string * BanInfo)) :=
  foldEach (collectFromServer env) [] (servers env).

(** The [if / else if / else if] chain over one result. *)
Definition countResult (stats : SyncStats.t) (result : BanResult.t) : SyncStats.t :=
  let bump n a e :=
    SyncStats.mk (SyncStats.totalBans stats) (n + SyncStats.newBans stats)%nat
      (a + SyncStats.alreadyBanned stats)%nat (e + SyncStats.errors stats)%nat
      (SyncStats.details stats) in
  if BanResult.success result && negb (BanResult.alreadyBanned result) then
    bump 1%nat 0%nat 0%nat
  else if BanResult.alreadyBanned result then bump 0%nat 1%nat 0%nat
  else if negb (BanResult.success result) && truthy (BanResult.error result)
  then bump 0%nat 0%nat 1%nat
  else stats.

(** [stats.totalBans++; stats.details.set(userId, ...)] *)
Definition recordSynced (stats : SyncStats.t) (userId : string)
    (banInfo : BanInfo) (results : list BanResult.t) : SyncStats.t :=
  SyncStats.mk (S (SyncStats.totalBans stats)) (SyncStats.newBans stats)
    (SyncStats.alreadyBanned stats) (SyncStats.errors stats)
    (mapSet userId (userTag banInfo, results) (SyncStats.details stats)).

(** The body of [for (const [userId, banInfo] of allBans)]; the
    accumulator is [(stats, processedCount)]. *)
Definition syncOne (env : Env) (total : nat) (acc : SyncStats.t * nat)
    (entry : string * BanInfo) : Async (SyncStats.t * nat) :=
  let processedCount := S acc.2 in
  results ← syncBanToAllServers env entry.2;
  let stats := foldl countResult (recordSynced acc.1 entry.1 entry.2 results)
                 results in
  (if (processedCount mod 5 =? 0)%nat
   then emit (InteractionReply (SyncProgress processedCount total))
   else mret tt);;
  delay BAN_DELAY_MS;;
  mret (stats, processedCount).

Definition emptyStats : SyncStats.t := SyncStats.mk 0 0 0 0 [].

(** [handleSyncCommand].  Inside its outer [try] every call that may
    reject has a [catch] of its own, and the final embed holds counters
    and the requester's tag only, which the builder does not refuse: the
    outer [catch] is never entered and has no counterpart here. *)
Definition handleSyncCommand (env : Env) (interaction : Interaction) : Async unit :=
  if negb (memberCanBan interaction) then
    emit (InteractionReply NeedBanPermission)
  else
    emit (InteractionReply Deferred);;
    allBans ← collectAllBans env;
    if (length allBans =? 0)%nat then emit (InteractionReply NoBansToSync)
    else
      emit (InteractionReply
              (SyncStarting (length allBans) (length (servers env))));;
      acc ← foldEach (syncOne env (length allBans)) (emptyStats, 0%nat) allBans;
      let embed := SyncComplete acc.1 (length (servers env)) in
      emit (InteractionReply (ReplyEmbed embed));;
      emit (SendLogToAll embed).

(** ** Retraction: [handleUnbanCommand] *)

Definition unbanFailure (cfg : ServerConfig) (msg : string) : UnbanResult.t :=
  UnbanResult.mk (server_id cfg) (server_name cfg) false false (Some msg).

Definition unbanNotBanned (cfg : ServerConfig) : UnbanResult.t :=
  UnbanResult.mk (server_id cfg) (server_name cfg) true true None.

Definition unbanDone (cfg : ServerConfig) : UnbanResult.t :=
  UnbanResult.mk (server_id cfg) (server_name cfg) true false None.

(** [`[BanSync Unban] ${reason} | Requested by ${interaction.user.tag}`] *)
Definition unbanReason (reason requester : string) : string :=
  "[BanSync Unban] " +:+ reason +:+ " | Requested by " +:+ requester.

(** One iteration of the loop of [handleUnbanCommand]. *)
Definition unbanFromServer (env : Env) (userId reason requester : string)
    (cfg : ServerConfig) : Async UnbanResult.t :=
  if negb (guildCached env (server_id cfg)) then
    mret (unbanFailure cfg "Bot not in server")
  else
    let guildId := server_id cfg in
    tryCatch
      (canBan ← membersFetchMe env guildId;
       if negb canBan then mret (unbanFailure cfg "Missing Permissions")
       else
         existingBan ← catchNull (bansFetch env guildId userId);
         match existingBan with
         | None => mret (unbanNotBanned cfg)
         | Some _ =>
             membersUnban env guildId userId (unbanReason reason requester);;
             mret (unbanDone cfg)
         end)
      (λ e, mret (unbanFailure cfg (errorMessage e))).

(** The three [results.filter(...).length] of [handleUnbanCommand]. *)
Definition isUnbanned (r : UnbanResult.t) : bool :=
  UnbanResult.success r && negb (UnbanResult.wasNotBanned r).
Definition isNotBanned (r : UnbanResult.t) : bool :=
  UnbanResult.wasNotBanned r.
Definition isUnbanError (r : UnbanResult.t) : bool :=
  negb (UnbanResult.success r).

(** The [for (const configServer of serversConfig.servers)] loop of
    [handleUnbanCommand]. *)
Definition unbanFromAllServers (env : Env) (userId reason requester : string)
    : Async (list UnbanResult.t) :=
  forEach (unbanFromServer env userId reason requester) (servers env).

(** [handleUnbanCommand].  The permission test and the format test come
    before [deferReply]; the loop, the embed, the reply and the log are
    inside the [try], whose [catch] replies with the error message.  The
    embed holds the reason typed by the requester and the text made of
    the results, which the builder may refuse. *)
Definition handleUnbanCommand (env : Env) (interaction : Interaction) : Async unit :=
  if negb (memberCanBan interaction) then
    emit (InteractionReply NeedBanPermission)
  else
    let userId := opt_user_id interaction in
    let reason := orElse (opt_reason interaction) "No reason provided" in
    if negb (userIdFormat userId) then emit (InteractionReply InvalidUserId)
    else
      emit (InteractionReply Deferred);;
      tryCatch
        (results ← unbanFromAllServers env userId reason
                     (requesterTag interaction);
         embed ← buildEmbed env
                   (UnbanComplete userId reason results
                      (countIf isUnbanned results)
                      (countIf isNotBanned results)
                      (countIf isUnbanError results));
         emit (InteractionReply (ReplyEmbed embed));;
         emit (SendLogToAll embed))
        (λ _, emit (InteractionReply UnbanFailed)).

(** ** The first version of the listener (no lock, no sync tag) *)

Module Legacy.

(** [new Map(serversConfig.servers.map(s => [s.id, s.name]))] *)
Definition serverMap (env : Env) : gmap string string :=
  foldl (λ m s, <[server_id s := server_name s]> m) ∅ (servers env).

Definition notInGuild (cfg : ServerConfig) : BanResult.t :=
  BanResult.mk (server_id cfg) (server_name cfg) false false None.

(** [guild.members.fetch(bannedUser.id).catch(() => null)], as the test
    [!member] reads it. *)
Definition membersFetch (env : Env) (guildId userId : string) : Async bool :=
  emit (MembersFetch guildId userId);;
  mret (isMember env guildId userId).

Definition banAddToServer (env : Env) (ban : BanEvent)
    (sourceServerName : string) (cfg : ServerConfig) : Async BanResult.t :=
  if negb (guildCached env (server_id cfg)) then
    mret (banFailure cfg "Bot not in server")
  else if String.eqb (server_id cfg) (ev_guildId ban) then
    mret (banApplied cfg)
  else
    let guildId := server_id cfg in
    tryCatch
      (member ← membersFetch env guildId (ev_userId ban);
       if negb member then mret (notInGuild cfg)
       else
         existingBan ← catchNull (bansFetch env guildId (ev_userId ban));
         match existingBan with
         | Some _ => mret (banAlready cfg)
         | None =>
             membersBan env guildId (ev_userId ban)
               ("Ban sync from " +:+ sourceServerName);;
             mret (banApplied cfg)
         end)
      (λ e, mret (banFailure cfg (errorMessage e))).

(** [sendBanReport]: all of it is inside a [try] whose [catch] only logs
    to the console. *)
Definition sendBanReport (env : Env) (ban : BanEvent)
    (results : list BanResult.t) : Async unit :=
  tryCatch
    (if negb (systemChannelWritable env (ev_guildId ban)) then mret tt
     else
       embed ← buildEmbed env
                 (BanSyncReport (ev_guildName ban) (ev_userId ban) "" results
                    (countIf isSynced results) (countIf isFailure results)
                    (countIf isAlreadyBanned results));
       emit (SystemChannelSend (ev_guildId ban) embed))
    (λ _, mret tt).

Definition guildBanAdd (env : Env) (ban : BanEvent) : Async unit :=
  match serverMap env !! ev_guildId ban with
  | None => mret tt
  | Some sourceServerName =>
      results ← forEach (banAddToServer env ban sourceServerName) (servers env);
      sendBanReport env ban results
  end.

End Legacy.

(** ** Vocabulary of the properties *)

(** The guild an effect is addressed to. *)
Definition effectGuild (e : Effect) : option string :=
  match e with
  | MembersFetchMe g | MembersFetch g _ | BansFetch g _ | BansFetchAll g
  | MembersBan g _ _ | MembersUnban g _ _ | SystemChannelSend g _ => Some g
  | InteractionReply _ | SendLogToAll _ => None
  end.

Definition isBanWrite (e : Effect) : bool :=
  match e with MembersBan _ _ _ => true | _ => false end.

Definition isUnbanWrite (e : Effect) : bool :=
  match e with MembersUnban _ _ _ => true | _ => false end.

Definition isWrite (e : Effect) : bool := isBanWrite e || isUnbanWrite e.

Definition isPublish (e : Effect) : bool :=
  match e with
  | InteractionReply _ | SendLogToAll _ | SystemChannelSend _ _ => true
  | _ => false
  end.

(** [st'] extends the trace of [st] by [added] (newest first). *)
Definition emitted (st st' : State) (added : list Effect) : Prop :=
  trace st' = added ++ trace st.

(** A token for the pair is stored, stamped by a clock after the epoch,
    and its age is within the timeout. *)
Definition liveToken (st : State) (userId guildId : string) : Prop :=
  ∃ ts, processingBans st !! getBanKey userId guildId = Some ts
        ∧ 0 < ts ∧ clock st - ts ≤ BAN_PROCESSING_TIMEOUT.


(** The ban lookup of the block yields [null]: the call rejected, or the
    user is not on the list. *)
Definition lookupNull (env : Env) (st : State) (guildId userId : string) : Prop :=
  is_Some (bansFetchFault env guildId userId)
  ∨ findBan userId (bansOf st guildId) = None.

(** The paths through [banInGuild], with the result pushed and the state
    left behind. *)
Inductive banInGuildCase (env : Env) (u reason : string) (cfg : ServerConfig)
    (st : State) : BanResult.t → State → Prop :=
  | CaseMemberThrows e :
      botMember env (server_id cfg) = inl e →
      banInGuildCase env u reason cfg st
        (banFailure cfg (errorMessage e))
        (mkState (clock st)
           (unmarkBanProcessing u (server_id cfg) (processingBans st))
           (guildBans st) (MembersFetchMe (server_id cfg) :: trace st))
  | CaseNoPermission :
      botMember env (server_id cfg) = inr false →
      banInGuildCase env u reason cfg st
        (banFailure cfg "Missing Permissions")
        (mkState (clock st) (processingBans st) (guildBans st)
           (MembersFetchMe (server_id cfg) :: trace st))
  | CaseAlready b :
      botMember env (server_id cfg) = inr true →
      bansFetchFault env (server_id cfg) u = None →
      findBan u (bansOf st (server_id cfg)) = Some b →
      banInGuildCase env u reason cfg st
        (banAlready cfg)
        (mkState (clock st) (processingBans st) (guildBans st)
           (BansFetch (server_id cfg) u
              :: MembersFetchMe (server_id cfg) :: trace st))
  | CaseProcessing :
      botMember env (server_id cfg) = inr true →
      lookupNull env st (server_id cfg) u →
      (isBanProcessing (clock st) u (server_id cfg) (processingBans st)).1 = true →
      banInGuildCase env u reason cfg st
        (banAlready cfg)
        (mkState (clock st) (processingBans st) (guildBans st)
           (BansFetch (server_id cfg) u
              :: MembersFetchMe (server_id cfg) :: trace st))
  | CaseBanThrows e :
      botMember env (server_id cfg) = inr true →
      lookupNull env st (server_id cfg) u →
      (isBanProcessing (clock st) u (server_id cfg) (processingBans st)).1 = false →
      banFault env (server_id cfg) u = Some e →
      banInGuildCase env u reason cfg st
        (banFailure cfg (errorMessage e))
        (mkState (clock st)
           (unmarkBanProcessing u (server_id cfg)
              (markBanProcessing (clock st) u (server_id cfg)
                 (isBanProcessing (clock st) u (server_id cfg)
                    (processingBans st)).2))
           (guildBans st)
           (MembersBan (server_id cfg) u reason
              :: BansFetch (server_id cfg) u
              :: MembersFetchMe (server_id cfg) :: trace st))
  | CaseBanned :
      botMember env (server_id cfg) = inr true →
      lookupNull env st (server_id cfg) u →
      (isBanProcessing (clock st) u (server_id cfg) (processingBans st)).1 = false →
      banFault env (server_id cfg) u = None →
      banInGuildCase env u reason cfg st
        (banApplied cfg)
        (mkState (clock st + BAN_DELAY_MS)
           (markBanProcessing (clock st) u (server_id cfg)
              (isBanProcessing (clock st) u (server_id cfg)
                 (processingBans st)).2)
           (guildBans (recordBan (server_id cfg) u reason (tagOf env u) st))
           (MembersBan (server_id cfg) u reason
              :: BansFetch (server_id cfg) u
              :: MembersFetchMe (server_id cfg) :: trace st)).

(** What the block may emit: calls to its own guild and nothing
    published; a write is a ban of the given user with the given reason,
    and a ban that went through, on a guild whose lookups are answered,
    is then on the guild's list with that reason. *)
Definition blockEffect (env : Env) (u reason : string) (g : string)
    (st' : State) (e : Effect) : Prop :=
  effectGuild e = Some g ∧ isPublish e = false
  ∧ (isWrite e = true →
     e = MembersBan g u reason
     ∧ (banFault env g u = None → bansFetchFault env g u = None →
        findBan u (bansOf st' g) = Some (mkBan u (tagOf env u) (Some reason)))).

(** The iterations of a loop, chained through the states: [P x st r st']
    describes one iteration on [x]. *)
Inductive runs {A B : Type} (P : A → State → B → State → Prop)
    : list A → State → list B → State → Prop :=
  | runs_nil st : runs P [] st [] st
  | runs_cons x l st r st1 rs st2 :
      P x st r st1 → runs P l st1 rs st2 → runs P (x :: l) st (r :: rs) st2.

(** One iteration of the loop of [syncBanToAllServers]. *)
Definition syncStep (env : Env) (banInfo : BanInfo) (cfg : ServerConfig)
    (st : State) (r : BanResult.t) (st' : State) : Prop :=
  if guildCached env (server_id cfg)
  then banInGuildCase env (userId banInfo) (syncReasonOf banInfo) cfg st r st'
  else r = banFailure cfg "Bot not in server" ∧ st' = st.

(** One iteration of the loop of the listener. *)
Definition eventStep (env : Env) (ban : BanEvent) (sourceServer : ServerConfig)
    (banReason : string) (cfg : ServerConfig)
    (st : State) (r : BanResult.t) (st' : State) : Prop :=
  if guildCached env (server_id cfg)
  then
    if String.eqb (server_id cfg) (ev_guildId ban)
    then r = banApplied cfg ∧ st' = st
    else banInGuildCase env (ev_userId ban)
           (eventSyncReason sourceServer banReason) cfg st r st'
  else r = banFailure cfg "Bot not in server" ∧ st' = st.

(** The block gets as far as the write: the guild is in the cache, the
    bot may ban there, the lookup finds no ban, and no token is held, so
    that the token is taken. *)
Definition attemptReached (env : Env) (st : State) (u : string)
    (cfg : ServerConfig) : Prop :=
  guildCached env (server_id cfg) = true
  ∧ botMember env (server_id cfg) = inr true
  ∧ lookupNull env st (server_id cfg) u
  ∧ (isBanProcessing (clock st) u (server_id cfg) (processingBans st)).1 = false.




(** Neither a write nor anything published. *)
Definition silent (e : Effect) : Prop :=
  isWrite e = false ∧ isPublish e = false.





(** Seventeen to nineteen ASCII digits. *)
Definition snowflake (s : string) : Prop :=
  (17 ≤ String.length s ≤ 19)%nat
  ∧ Forall (λ c, (48 ≤ nat_of_ascii c ≤ 57)%nat) (list_ascii_of_string s).

(** C10 as the specification words it: a malformed id is answered with
    the invalid-format message. *)
Definition malformedGetsFormatError (env : Env) (interaction : Interaction)
    (st : State) : Prop :=
  ¬ snowflake (opt_user_id interaction) →
  trace (handleUnbanCommand env interaction st).2
  = InteractionReply InvalidUserId :: trace st.



(** The paths through one iteration of the loop of [handleUnbanCommand]. *)
Inductive unbanStep (env : Env) (u reason requester : string)
    (cfg : ServerConfig) (st : State) : UnbanResult.t → State → Prop :=
  | UnbanNotCached :
      guildCached env (server_id cfg) = false →
      unbanStep env u reason requester cfg st
        (unbanFailure cfg "Bot not in server") st
  | UnbanMemberThrows e :
      guildCached env (server_id cfg) = true →
      botMember env (server_id cfg) = inl e →
      unbanStep env u reason requester cfg st
        (unbanFailure cfg (errorMessage e))
        (mkState (clock st) (processingBans st) (guildBans st)
           (MembersFetchMe (server_id cfg) :: trace st))
  | UnbanNoPermission :
      guildCached env (server_id cfg) = true →
      botMember env (server_id cfg) = inr false →
      unbanStep env u reason requester cfg st
        (unbanFailure cfg "Missing Permissions")
        (mkState (clock st) (processingBans st) (guildBans st)
           (MembersFetchMe (server_id cfg) :: trace st))
  | UnbanNotBanned :
      guildCached env (server_id cfg) = true →
      botMember env (server_id cfg) = inr true →
      lookupNull env st (server_id cfg) u →
      unbanStep env u reason requester cfg st
        (unbanNotBanned cfg)
        (mkState (clock st) (processingBans st) (guildBans st)
           (BansFetch (server_id cfg) u
              :: MembersFetchMe (server_id cfg) :: trace st))
  | UnbanThrows b e :
      guildCached env (server_id cfg) = true →
      botMember env (server_id cfg) = inr true →
      bansFetchFault env (server_id cfg) u = None →
      findBan u (bansOf st (server_id cfg)) = Some b →
      unbanFault env (server_id cfg) u = Some e →
      unbanStep env u reason requester cfg st
        (unbanFailure cfg (errorMessage e))
        (mkState (clock st) (processingBans st) (guildBans st)
           (MembersUnban (server_id cfg) u (unbanReason reason requester)
              :: BansFetch (server_id cfg) u
              :: MembersFetchMe (server_id cfg) :: trace st))
  | UnbanDone b :
      guildCached env (server_id cfg) = true →
      botMember env (server_id cfg) = inr true →
      bansFetchFault env (server_id cfg) u = None →
      findBan u (bansOf st (server_id cfg)) = Some b →
      unbanFault env (server_id cfg) u = None →
      unbanStep env u reason requester cfg st
        (unbanDone cfg)
        (mkState (clock st) (processingBans st)
           (guildBans (removeBan (server_id cfg) u st))
           (MembersUnban (server_id cfg) u (unbanReason reason requester)
              :: BansFetch (server_id cfg) u
              :: MembersFetchMe (server_id cfg) :: trace st)).

(** The ban list the collecting loop gets from a configured server:
    nothing when the guild is not in the cache or the call fails. *)
Definition listedBy (env : Env) (st : State) (cfg : ServerConfig) : list Ban :=
  if guildCached env (server_id cfg) then
    match bansListFault env (server_id cfg) with
    | Some _ => []
    | None => bansOf st (server_id cfg)
    end
  else [].

(** Every record the collecting loops visit, in the order of the visit,
    with the server it was read from. *)
Definition observed (env : Env) (st : State) : list (ServerConfig * Ban) :=
  flat_map (λ cfg, pair cfg <$> listedBy env st cfg) (servers env).

(** The first record visited for a subject that does not carry the sync
    tag. *)
Definition firstUntagged (u : string) (obs : list (ServerConfig * Ban))
    : option (ServerConfig * Ban) :=
  List.find (λ p, negb (isSyncTagged (ban_reason p.2))
                  && String.eqb (ban_userId p.2) u) obs.

(** The union has one entry per key and no empty reason. *)
Definition unionWf (allBans : list (string * BanInfo)) : Prop :=
  NoDup allBans.*1 ∧ Forall (λ kv, truthy (Some (reason kv.2)) = true) allBans.

(** The sum of the three counters of [SyncStats]. *)
Definition counted (stats : SyncStats.t) : nat :=
  (SyncStats.newBans stats + SyncStats.alreadyBanned stats
   + SyncStats.errors stats)%nat.

(** No call of the remote side rejects with an empty message. *)
Definition messagesNonEmpty (env : Env) : Prop :=
  (∀ g e, botMember env g = inl e → errorMessage e ≠ "")
  ∧ (∀ g u e, banFault env g u = Some e → errorMessage e ≠ "").

(** The records the propagation loops push. *)
Inductive pushed (cfg : ServerConfig) : BanResult.t → Prop :=
  | pushed_failure msg : pushed cfg (banFailure cfg msg)
  | pushed_already : pushed cfg (banAlready cfg)
  | pushed_applied : pushed cfg (banApplied cfg).

(** A write of a reconciliation pass propagates an entry of the union:
    it bans the entry's user with the reason built from the entry. *)
Definition propagates (allBans : list (string * BanInfo)) (e : Effect) : Prop :=
  isWrite e = true →
  ∃ entry g, entry ∈ allBans
             ∧ e = MembersBan g (userId entry.2) (syncReasonOf entry.2).

(** ** Concrete worlds for the examples *)

Definition guildA : ServerConfig := mkServerConfig "100000000000000001" "Alpha" None.
Definition guildB : ServerConfig := mkServerConfig "100000000000000002" "Beta" None.

Definition subjectU : string := "200000000000000001".

(** Both guilds are joined, the bot may ban everywhere, and no call
    fails. *)
Definition quietEnv : Env :=
  mkEnv [guildA; guildB] (λ _, true) (λ _, inr true) (λ _ _, true)
    (λ _ _, None) (λ _, None) (λ _ _, None) (λ _ _, None) (λ _, true) (λ u, u)
    (λ _, None).

(** No ban anywhere, no token held. *)
Definition freshState : State := mkState 1700000000000 ∅ ∅ [].

(** [subjectU] was banned by hand in [guildA]. *)
Definition bannedInA (r : option string) : State :=
  mkState 1700000000000 ∅
    {[ server_id guildA := [mkBan subjectU "user#0001" r] ]} [].

Definition banOfU : BanInfo :=
  mkBanInfo subjectU "user#0001" (server_id guildA) (server_name guildA) "spam".

Definition eventInA : BanEvent :=
  mkBanEvent subjectU "user#0001" (server_id guildA) (server_name guildA).

(** As [quietEnv], but the ban of [subjectU] in [guildB] rejects with an
    [Error] whose message is empty. *)
Definition emptyMessageEnv : Env :=
  mkEnv [guildA; guildB] (λ _, true) (λ _, inr true) (λ _ _, true)
    (λ _ _, None) (λ _, None)
    (λ g _, if String.eqb g (server_id guildB) then Some (ThrownError "")
            else None)
    (λ _ _, None) (λ _, true) (λ u, u) (λ _, None).

Definition moderator : Interaction :=
  mkInteraction true "mod#0001" "300000000000000001" subjectU None.


(** A requester without the BanMembers permission who names a malformed
    id. *)
Definition guest : Interaction :=
  mkInteraction false "guest#0001" "300000000000000002" "12345" None.

(** ** The command dispatcher: [client.on('interactionCreate', ...)] *)

(** What the listener reads from the incoming interaction. *)
Record Incoming := mkIncoming {
  isChatInputCommand : bool;
  commandName : string;
  incoming : Interaction
}.

Definition interactionCreate (env : Env) (i : Incoming) : Async unit :=
  if negb (isChatInputCommand i) then mret tt
  else if String.eqb (commandName i) "sync" then
    handleSyncCommand env (incoming i)
  else if String.eqb (commandName i) "unban" then
    handleUnbanCommand env (incoming i)
  else mret tt.

(** ** The timer and the event loop *)

(** The callback of [setInterval(..., 60000)]. *)
Definition sweepNow : Async unit :=
  λ st, (Ok tt, setProcessingBans
                  (sweepProcessing (clock st) (processingBans st)) st).

(** What the process reacts to: the two gateway events it listens to, the
    cleanup timer, and time going by between them. *)
Inductive Event :=
  | GuildBanAdd (ban : BanEvent)
  | InteractionCreate (i : Incoming)
  | SweepTimer
  | Elapse (ms : N).

(** One turn of the event loop.  A rejection that escapes a listener is
    logged by the [unhandledRejection] handler and the process goes on. *)
Definition handle (env : Env) (ev : Event) : Async unit :=
  match ev with
  | GuildBanAdd ban => tryCatch (guildBanAdd env ban) (λ _, mret tt)
  | InteractionCreate i => tryCatch (interactionCreate env i) (λ _, mret tt)
  | SweepTimer => sweepNow
  | Elapse ms => delay (Z.of_N ms)
  end.

Definition handleAll (env : Env) (events : list Event) : Async unit :=
  foldEach (λ _ ev, handle env ev) tt events.

(** The event is not a firing of the cleanup timer. *)
Definition notSweep (ev : Event) : bool :=
  match ev with
  | SweepTimer => false
  | _ => true
  end.

(** ** The log channels: [sendLog] and [sendLogToAll] *)

(** What [guild.channels.fetch] resolves to, as [sendLog] reads it:
    [isTextBased()] and [permissionsFor(client.user)?.has('SendMessages')]. *)
Record Channel := mkChannel {
  isTextBased : bool;
  canSendMessages : bool
}.

(** How the channels answer: [guild.channels.fetch(id)] rejects, resolves
    to [null] or to a channel; [textChannel.send] may reject. *)
Record LogEnv := mkLogEnv {
  channelsFetch : string → string → Thrown + option Channel;
  sendFault : string → string → option Thrown
}.

(** A message that reached a channel. *)
Record Delivery := mkDelivery {
  to_guild : string;
  to_channel : string;
  delivered : Embed
}.

(** [sendLog(serverId, embed)], the messages delivered so far being
    passed along, newest first.  Both awaits are inside the [try], whose
    [catch] only logs to the console. *)
Definition sendLog (env : Env) (lenv : LogEnv) (serverId : string)
    (embed : Embed) (outbox : list Delivery) : list Delivery :=
  match serverMap env !! serverId with
  | None => outbox
  | Some serverConfig =>
      if negb (truthy (logChannelId serverConfig)) then outbox
      else
        let channelId := orElse (logChannelId serverConfig) "" in
        if negb (guildCached env serverId) then outbox
        else
          match channelsFetch lenv serverId channelId with
          | inl _ => outbox
          | inr None => outbox
          | inr (Some logChannel) =>
              if negb (isTextBased logChannel) then outbox
              else if negb (canSendMessages logChannel) then outbox
              else
                match sendFault lenv serverId channelId with
                | Some _ => outbox
                | None => mkDelivery serverId channelId embed :: outbox
                end
          end
  end.

(** [for (const server of serversConfig.servers) await sendLog(server.id, embed)] *)
Definition sendLogToAll (env : Env) (lenv : LogEnv) (embed : Embed)
    (outbox : list Delivery) : list Delivery :=
  foldl (λ out server, sendLog env lenv (server_id server) embed out)
    outbox (servers env).

(** ** Vocabulary of the further properties *)

(** The state a computation leaves is related to the one it started
    from, whether it returns or throws. *)
Definition preserves {A} (R : State → State → Prop) (c : Async A) : Prop :=
  ∀ st, R st (c st).2.

(** The clock is after the epoch and so is every stored stamp. *)
Definition stateWf (st : State) : Prop :=
  0 < clock st ∧ locks_wf (processingBans st).

(** Time does not go back and a well-formed state stays so. *)
Definition advances (st st' : State) : Prop :=
  clock st ≤ clock st' ∧ (stateWf st → stateWf st').

(** No ['-'] in the string. *)
Definition dashFree (s : string) : Prop :=
  Forall (λ c, c ≠ "-"%char) (list_ascii_of_string s).

(** The calls made from [st] to [st'] all satisfy [φ]. *)
Definition emits (φ : Effect → Prop) (st st' : State) : Prop :=
  ∃ added, emitted st st' added ∧ Forall φ added.

(** No recorded ban is removed or rewritten. *)
Definition keepsBans (st st' : State) : Prop :=
  ∀ g u b, findBan u (bansOf st g) = Some b → findBan u (bansOf st' g) = Some b.

(** The ban lists only got sync-tagged records appended. *)
Definition appendsTagged (st st' : State) : Prop :=
  ∀ g, ∃ extra, bansOf st' g = bansOf st g ++ extra
                ∧ Forall (λ b, isSyncTagged (ban_reason b) = true) extra.

(** The records of the users outside [P] are what they were. *)
Definition framesBans (P : string → Prop) (st st' : State) : Prop :=
  ∀ g u, ¬ P u → findBan u (bansOf st' g) = findBan u (bansOf st g).

(** Clock and lock table are what they were. *)
Definition sameTime (st st' : State) : Prop :=
  clock st' = clock st ∧ processingBans st' = processingBans st.

(** A write as the present code makes it: a ban with a sync-tagged
    reason, or an unban whose reason starts with the unban marker. *)
Definition markedWrite (e : Effect) : Prop :=
  match e with
  | MembersBan _ _ r => String.prefix "[BanSync]" r = true
  | MembersUnban _ _ r => String.prefix "[BanSync Unban]" r = true
  | _ => True
  end.

(** The event is not an unban command. *)
Definition notUnban (ev : Event) : Prop :=
  match ev with
  | InteractionCreate i => commandName i ≠ "unban"
  | _ => True
  end.


(** A relation between states that only looks at the ban lists. *)
Definition bansOnly (R : State → State → Prop) : Prop :=
  ∀ st st', guildBans st' = guildBans st → R st st'.

(** The only writes are unbans of [u]. *)
Definition unbanOf (u : string) (e : Effect) : Prop :=
  match e with
  | MembersBan _ _ _ => False
  | MembersUnban _ u' _ => u' = u
  | _ => True
  end.

(** The only writes are bans of [u]. *)
Definition banOf (u : string) (e : Effect) : Prop :=
  match e with
  | MembersBan _ u' _ => u' = u
  | MembersUnban _ _ _ => False
  | _ => True
  end.

(** A live token for the user implies that the guild lists the user. *)
Definition tokensOfBanned (u : string) (st : State) : Prop :=
  ∀ g, (isBanProcessing (clock st) u g (processingBans st)).1 = true →
       is_Some (findBan u (bansOf st g)).

(** For the user, the guild answers every call of the bot: it is in the
    cache, the bot may ban there, and neither the ban lookup nor the ban
    itself fails. *)
Definition cooperative (env : Env) (u : string) (cfg : ServerConfig) : Prop :=
  guildCached env (server_id cfg) = true
  ∧ botMember env (server_id cfg) = inr true
  ∧ bansFetchFault env (server_id cfg) u = None
  ∧ banFault env (server_id cfg) u = None.

(** The same for the unban. *)
Definition cooperativeUnban (env : Env) (u : string) (cfg : ServerConfig) : Prop :=
  guildCached env (server_id cfg) = true
  ∧ botMember env (server_id cfg) = inr true
  ∧ bansFetchFault env (server_id cfg) u = None
  ∧ unbanFault env (server_id cfg) u = None.

(** A call the first version of the listener may make for [ban], the
    origin being registered under [name]: lookups and bans of the banned
    user in other guilds, a ban only where the user is a member, and the
    report to the origin's system channel. *)
Definition legacyCall (env : Env) (ban : BanEvent) (name : string)
    (e : Effect) : Prop :=
  match e with
  | MembersFetch g u | BansFetch g u =>
      g ≠ ev_guildId ban ∧ u = ev_userId ban
  | MembersBan g u r =>
      g ≠ ev_guildId ban ∧ u = ev_userId ban
      ∧ guildCached env g = true ∧ isMember env g u = true
      ∧ r = "Ban sync from " +:+ name
  | SystemChannelSend g _ =>
      g = ev_guildId ban ∧ systemChannelWritable env g = true
  | _ => False
  end.

(** The progress replies a pass over [total] entries sends after the
    entries [first + 1 .. last]: one at every fifth entry. *)
Definition progressOf (total first last : nat) (e : Effect) : Prop :=
  ∃ k, e = InteractionReply (SyncProgress k total)
       ∧ (first < k ≤ last)%nat ∧ (k mod 5 = 0)%nat.

(** [st] is [st'] with some tokens removed that are past the timeout:
    clock, ban lists and calls made are the same. *)
Definition swept (st st' : State) : Prop :=
  clock st = clock st' ∧ guildBans st = guildBans st' ∧ trace st = trace st'
  ∧ ∀ k, processingBans st !! k = processingBans st' !! k
         ∨ (processingBans st !! k = None
            ∧ ∃ ts, processingBans st' !! k = Some ts
                    ∧ clock st' - ts > BAN_PROCESSING_TIMEOUT).

(** From related states, the computation gives the same result and
    related states. *)
Definition respects {A} (R : State → State → Prop) (c : Async A) : Prop :=
  ∀ st st', R st st' → (c st).1 = (c st').1 ∧ R (c st).2 (c st').2.

(** The computation returns, from every state. *)
Definition returns {A} (c : Async A) : Prop :=
  ∀ st, ∃ a st', c st = (Ok a, st').

(** The last registry entry with the id. *)
Definition lastEntry (env : Env) (g : string) : option ServerConfig :=
  last (List.filter (λ s, String.eqb (server_id s) g) (servers env)).

(** The log channel of the guild takes messages: the last registry entry
    with the id names a channel, the guild is in the cache, the channel
    is found, is text-based, and the bot may send there. *)
Definition logChannelOf (env : Env) (lenv : LogEnv) (g ch : string) : Prop :=
  ∃ cfg c, lastEntry env g = Some cfg
           ∧ logChannelId cfg = Some ch ∧ ch ≠ ""
           ∧ guildCached env g = true
           ∧ channelsFetch lenv g ch = inr (Some c)
           ∧ isTextBased c = true ∧ canSendMessages c = true.

(** From [st] to [st'] time did not go back, no ban was lost and no
    token of [u] was stored. *)
Definition tokensFrom (u : string) (st st' : State) : Prop :=
  clock st ≤ clock st' ∧ keepsBans st st'
  ∧ ∀ g ts, processingBans st' !! getBanKey u g = Some ts →
            processingBans st !! getBanKey u g = Some ts.

(** Every live token of a dash-free user is on a guild that lists the
    user. *)
Definition tokensSound (st : State) : Prop :=
  ∀ u, dashFree u → tokensOfBanned u st.

(** Every configured guild lists the user. *)
Definition bannedEverywhere (env : Env) (st : State) (u : string) : Prop :=
  Forall (λ cfg, is_Some (findBan u (bansOf st (server_id cfg)))) (servers env).

(** ** Concrete inputs for the further properties *)

(** A ban arrives from [guildA], the timer fires five seconds later. *)
Definition banThenSweep : list Event :=
  [GuildBanAdd eventInA; Elapse 5000; SweepTimer].



(** The subject is on the first guild's list, put there by the bot. *)
Definition syncedInA : State :=
  bannedInA (Some "[BanSync] Banned in B | Reason: spam").

(** * Proofs *)

(** ** Running [Async] computations *)

Ltac unfold_async :=
  unfold membersFetchMe, bansFetch, bansFetchAll, membersBan, membersUnban,
    Legacy.membersFetch, isBanProcessingNow, markBanProcessingNow,
    unmarkBanProcessingNow, catchNull, tryCatch, emit, delay, throw,
    mbind, mret, Async_bind, Async_ret in *.

Ltac run_async := unfold_async; simpl in *.

Section AsyncFacts.
Context {A B : Type}.

(** A loop whose body always returns runs every iteration. *)
Lemma forEach_runs (f : A → Async B) (P : A → State → B → State → Prop) :
  (∀ x st, ∃ r st', f x st = (Ok r, st') ∧ P x st r st') →
  ∀ l st, ∃ rs st', forEach f l st = (Ok rs, st') ∧ runs P l st rs st'.
Proof.
  intros Hstep l.
  induction l as [|x l IH]; intros st; simpl.
  - exists [], st. split; [done | constructor].
  - destruct (Hstep x st) as (r & st1 & Hf & HP).
    destruct (IH st1) as (rs & st2 & Hl & HQ).
    exists (r :: rs), st2. split; [|by econstructor].
    unfold mbind, Async_bind. rewrite Hf, Hl. done.
Qed.

Lemma runs_length (P : A → State → B → State → Prop) l st rs st' :
  runs P l st rs st' → length rs = length l.
Proof. induction 1; simpl; congruence. Qed.

(** An invariant of the iterations holds at the end and before each
    iteration. *)
Lemma runs_invariant (P : A → State → B → State → Prop) (I : State → Prop)
    l st rs st' :
  (∀ x s r s', P x s r s' → I s → I s') →
  runs P l st rs st' → I st →
  I st' ∧ ∀ i x, l !! i = Some x →
            ∃ s r s', I s ∧ P x s r s' ∧ rs !! i = Some r.
Proof.
  intros Hpres. induction 1 as [st|x l st r st1 rs st2 HP Hrun IH]; intros HI.
  - split; [done|]. intros i x Hi. by rewrite lookup_nil in Hi.
  - destruct (IH (Hpres _ _ _ _ HP HI)) as [Hend Hall].
    split; [done|]. intros [|i] y Hi; simpl in *.
    + injection Hi as <-. eauto 6.
    + eauto.
Qed.

(** What every iteration emits while an invariant holds, the loop emits. *)
Lemma runs_emitted (P : A → State → B → State → Prop) (I : State → Prop)
    (φ : Effect → Prop) l st rs st' :
  (∀ x s r s', P x s r s' → I s →
     I s' ∧ ∃ added, emitted s s' added ∧ Forall φ added) →
  runs P l st rs st' → I st →
  ∃ added, emitted st st' added ∧ Forall φ added.
Proof.
  intros Hstep. induction 1 as [st|x l st r st1 rs st2 HP Hrun IH]; intros HI.
  - exists []. by split.
  - destruct (Hstep _ _ _ _ HP HI) as (HI1 & a1 & He1 & Hf1).
    destruct (IH HI1) as (a2 & He2 & Hf2).
    exists (a2 ++ a1). split; [|by apply Forall_app].
    unfold emitted in *. by rewrite He2, He1, app_assoc.
Qed.

(** A loop with an accumulator whose body always returns runs every
    iteration, and emits what its iterations emit. *)
Lemma foldEach_emitted (f : B → A → Async B) (φ : A → Effect → Prop) :
  (∀ acc x st, ∃ acc' st' added,
     f acc x st = (Ok acc', st') ∧ emitted st st' added ∧ Forall (φ x) added) →
  ∀ l acc st, ∃ acc' st' added,
    foldEach f acc l st = (Ok acc', st')
    ∧ emitted st st' added
    ∧ Forall (λ e, ∃ x, x ∈ l ∧ φ x e) added.
Proof.
  intros Hstep l.
  induction l as [|x l IH]; intros acc st; simpl.
  - by exists acc, st, [].
  - destruct (Hstep acc x st) as (acc1 & st1 & a1 & Hf & He1 & Hf1).
    destruct (IH acc1 st1) as (acc2 & st2 & a2 & Hl & He2 & Hf2).
    exists acc2, st2, (a2 ++ a1). unfold mbind, Async_bind. rewrite Hf.
    split; [done|]. split.
    { unfold emitted in *. by rewrite He2, He1, app_assoc. }
    apply Forall_app. split.
    + eapply Forall_impl; [exact Hf2|]. intros e (y & Hy & He).
      exists y. split; [by apply list_elem_of_further | done].
    + eapply Forall_impl; [exact Hf1|]. intros e He.
      exists x. split; [apply list_elem_of_here | done].
Qed.
End AsyncFacts.


Lemma emitted_trans st1 st2 st3 a b :
  emitted st1 st2 a → emitted st2 st3 b → emitted st1 st3 (b ++ a).
Proof. unfold emitted. intros H1 H2. by rewrite H2, H1, app_assoc. Qed.
Section LockFacts.
Implicit Types (m : gmap string Z) (now t : Z) (u g key : string).

Lemma isBanProcessing_true now u g m :
  (isBanProcessing now u g m).1 = true ↔
  ∃ ts, m !! getBanKey u g = Some ts ∧ ts ≠ 0
        ∧ now - ts ≤ BAN_PROCESSING_TIMEOUT.
Proof.
  unfold isBanProcessing.
  destruct (m !! getBanKey u g) as [ts|] eqn:E; simpl.
  - destruct (Z.eqb_spec ts 0) as [->|Hz]; simpl.
    + split; [done | intros (? & [= <-] & ? & _); done].
    + destruct (Z.gtb_spec (now - ts) BAN_PROCESSING_TIMEOUT); simpl.
      * split; [done | intros (? & [= <-] & _ & ?); lia].
      * split; [intros _; exists ts; repeat split; [done | lia] | done].
  - split; [done | intros (? & ? & _); done].
Qed.

Lemma isBanProcessing_true_table now u g m :
  (isBanProcessing now u g m).1 = true → (isBanProcessing now u g m).2 = m.
Proof.
  unfold isBanProcessing.
  destruct (m !! getBanKey u g) as [ts|]; simpl; [|done].
  destruct (ts =? 0); simpl; [done|].
  by destruct (now - ts >? BAN_PROCESSING_TIMEOUT).
Qed.

(** After the check, the entry under the key is the old one or gone;
    other keys are untouched. *)
Lemma isBanProcessing_lookup now u g m k :
  (isBanProcessing now u g m).2 !! k = m !! k
  ∨ (k = getBanKey u g ∧ (isBanProcessing now u g m).2 !! k = None
     ∧ (isBanProcessing now u g m).1 = false).
Proof.
  unfold isBanProcessing.
  destruct (m !! getBanKey u g) as [ts|] eqn:E; simpl; [|by left].
  destruct (ts =? 0); simpl; [by left|].
  destruct (now - ts >? BAN_PROCESSING_TIMEOUT); simpl; [|by left].
  destruct (decide (k = getBanKey u g)) as [->|Hne].
  - right. by rewrite lookup_delete_eq.
  - left. by rewrite lookup_delete_ne.
Qed.

Lemma isBanProcessing_false_lookup now u g m :
  (isBanProcessing now u g m).1 = false →
  (isBanProcessing now u g m).2 !! getBanKey u g = None
  ∨ (isBanProcessing now u g m).2 !! getBanKey u g = Some 0.
Proof.
  unfold isBanProcessing.
  destruct (m !! getBanKey u g) as [ts|] eqn:E; simpl; [|by left].
  destruct (Z.eqb_spec ts 0) as [->|Hz]; simpl; [by right|].
  destruct (now - ts >? BAN_PROCESSING_TIMEOUT); simpl; [|done].
  intros _. left. by rewrite lookup_delete_eq.
Qed.

Lemma sweepProcessing_lookup t m k :
  sweepProcessing t m !! k = m !! k ∨ sweepProcessing t m !! k = None.
Proof.
  unfold sweepProcessing.
  destruct (filter _ m !! k) as [ts|] eqn:E; [|by right].
  apply map_lookup_filter_Some in E as [E _]. by left.
Qed.

Lemma runLockOp_keeps key op m :
  keepsToken key op →
  runLockOp op m !! key = m !! key ∨ runLockOp op m !! key = None.
Proof.
  destruct op as [t u g|t u g|u g|t]; simpl; intros Hk.
  - destruct (isBanProcessing_lookup t u g m key) as [?|(_ & ? & _)]; auto.
  - left. unfold markBanProcessing. by rewrite lookup_insert_ne.
  - left. unfold unmarkBanProcessing. by rewrite lookup_delete_ne.
  - destruct (sweepProcessing_lookup t m key); auto.
Qed.

Lemma runLockOps_keeps key ops : ∀ m,
  Forall (keepsToken key) ops →
  runLockOps ops m !! key = m !! key ∨ runLockOps ops m !! key = None.
Proof.
  unfold runLockOps.
  induction ops as [|op ops IH]; intros m Hall; simpl; [by left|].
  inversion_clear Hall as [|?? Hop Hops].
  destruct (IH (runLockOp op m) Hops) as [->| ->]; [|by right].
  by apply runLockOp_keeps.
Qed.

Lemma markBanProcessing_wf now u g m :
  0 < now → locks_wf m → locks_wf (markBanProcessing now u g m).
Proof.
  intros Hnow Hwf k ts. unfold markBanProcessing.
  rewrite lookup_insert. case_decide; [intros [= <-]; done | apply Hwf].
Qed.

Lemma unmarkBanProcessing_wf u g m :
  locks_wf m → locks_wf (unmarkBanProcessing u g m).
Proof.
  intros Hwf k ts. unfold unmarkBanProcessing.
  rewrite lookup_delete. case_decide; [done | apply Hwf].
Qed.

Lemma isBanProcessing_wf now u g m :
  locks_wf m → locks_wf (isBanProcessing now u g m).2.
Proof.
  intros Hwf k ts.
  destruct (isBanProcessing_lookup now u g m k) as [->|(_ & -> & _)];
    [apply Hwf | done].
Qed.

Lemma sweepProcessing_wf t m : locks_wf m → locks_wf (sweepProcessing t m).
Proof.
  intros Hwf k ts.
  destruct (sweepProcessing_lookup t m k) as [->| ->]; [apply Hwf | done].
Qed.

Lemma tryAcquire_wf now u g m :
  0 < now → locks_wf m → locks_wf (tryAcquire now u g m).2.
Proof.
  intros Hnow Hwf. unfold tryAcquire.
  pose proof (isBanProcessing_wf now u g m Hwf) as Hwf'.
  destruct (isBanProcessing now u g m) as [[] m']; simpl in *; [done|].
  by apply markBanProcessing_wf.
Qed.

Lemma tryAcquire_success now u g m :
  (tryAcquire now u g m).1 = negb (isBanProcessing now u g m).1.
Proof.
  unfold tryAcquire. by destruct (isBanProcessing now u g m) as [[] m'].
Qed.
End LockFacts.


(** ** The remote ban lists *)

Lemma state_eta st :
  st = mkState (clock st) (processingBans st) (guildBans st) (trace st).
Proof. by destruct st. Qed.

Lemma findBan_app u l l' :
  findBan u (l ++ l') =
  match findBan u l with Some b => Some b | None => findBan u l' end.
Proof.
  unfold findBan. induction l as [|b l IH]; simpl; [done|].
  by destruct (String.eqb (ban_userId b) u).
Qed.

Lemma findBan_Some u l b :
  findBan u l = Some b → b ∈ l ∧ ban_userId b = u.
Proof.
  unfold findBan. intros H. apply find_some in H as [Hin Heq].
  split; [by apply list_elem_of_In | by apply String.eqb_eq].
Qed.

Lemma recordBan_fields g u r tag st :
  clock (recordBan g u r tag st) = clock st
  ∧ processingBans (recordBan g u r tag st) = processingBans st
  ∧ trace (recordBan g u r tag st) = trace st.
Proof. unfold recordBan. by case_match. Qed.

Lemma recordBan_guildBans g u r tag st st0 :
  guildBans st0 = guildBans st →
  guildBans (recordBan g u r tag st0) = guildBans (recordBan g u r tag st).
Proof.
  intros H. unfold recordBan, bansOf. rewrite H. by case_match.
Qed.

(** Recording a ban never changes what a lookup already finds. *)
Lemma recordBan_findBan_stable g u r tag st g' u' b :
  findBan u' (bansOf st g') = Some b →
  findBan u' (bansOf (recordBan g u r tag st) g') = Some b.
Proof.
  intros Hb. unfold recordBan.
  destruct (findBan u (bansOf st g)) eqn:E; [done|].
  unfold bansOf in *. simpl.
  destruct (decide (g = g')) as [->|Hne].
  - rewrite lookup_total_insert_eq, findBan_app, Hb. done.
  - by rewrite lookup_total_insert_ne.
Qed.

Lemma recordBan_findBan_new g u r tag st :
  findBan u (bansOf st g) = None →
  findBan u (bansOf (recordBan g u r tag st) g) = Some (mkBan u tag (Some r)).
Proof.
  intros Hb. unfold recordBan. rewrite Hb.
  unfold bansOf in *. simpl.
  rewrite lookup_total_insert_eq, findBan_app, Hb.
  unfold findBan. simpl. by rewrite String.eqb_refl.
Qed.

Lemma bansOf_guildBans st st' g :
  guildBans st' = guildBans st → bansOf st' g = bansOf st g.
Proof. unfold bansOf. by intros ->. Qed.

(** ** One iteration of the propagation loops *)

Lemma banInGuild_cases env u reason cfg st :
  ∃ r st', banInGuild env u reason cfg st = (Ok r, st')
           ∧ banInGuildCase env u reason cfg st r st'.
Proof.
  unfold banInGuild. run_async. unfold setProcessingBans.
  destruct (botMember env (server_id cfg)) as [e|[]] eqn:Hm; simpl;
    [by eexists _, _; split; [|constructor]| |
     by eexists _, _; split; [|constructor]].
  assert (Hnull :
    (∃ b, bansFetchFault env (server_id cfg) u = None
          ∧ findBan u (bansOf st (server_id cfg)) = Some b)
    ∨ lookupNull env st (server_id cfg) u).
  { unfold lookupNull.
    destruct (bansFetchFault env (server_id cfg) u); [right; left; eauto|].
    destruct (findBan u (bansOf st (server_id cfg))); eauto. }
  destruct Hnull as [(b & Hf & Hb)|Hnull].
  { rewrite Hf. unfold bansOf in *. simpl. rewrite Hb. simpl.
    eexists _, _. split; [done|]. by econstructor. }
  assert (Hcatch : ∀ st0, guildBans st0 = guildBans st →
    (let (r0, st'0) :=
       match bansFetchFault env (server_id cfg) u with
       | Some e => λ st1 : State, (Throw e, st1)
       | None =>
           λ st1 : State,
             match findBan u (bansOf st1 (server_id cfg)) with
             | Some b => (Ok b, st1)
             | None => (Throw (ThrownError "Unknown Ban"), st1)
             end
       end st0 in
     match r0 with
     | Ok a => (Ok (Some a), st'0)
     | Throw e => (Throw e, st'0)
     end) = (Throw (match bansFetchFault env (server_id cfg) u with
                    | Some e => e
                    | None => ThrownError "Unknown Ban"
                    end), st0)).
  { intros st0 Hst0. destruct Hnull as [[e He]|Hn].
    - by rewrite He.
    - destruct (bansFetchFault env (server_id cfg) u); [done|].
      unfold bansOf in *. by rewrite Hst0, Hn. }
  rewrite Hcatch by done. simpl. clear Hcatch.
  destruct (isBanProcessing (clock st) u (server_id cfg) (processingBans st)).1
    eqn:Hp; simpl.
  { eexists _, _. split; [done|].
    rewrite (isBanProcessing_true_table _ _ _ _ Hp). by constructor. }
  destruct (banFault env (server_id cfg) u) as [e|] eqn:Hb; simpl.
  { eexists _, _. split; [done|]. by constructor. }
  eexists _, _. split; [done|].
  match goal with
  | |- context [recordBan ?g ?u' ?r ?t ?s0] =>
      destruct (recordBan_fields g u' r t s0) as (-> & -> & ->);
      rewrite (recordBan_guildBans g u' r t st s0) by done
  end.
  simpl. by constructor.
Qed.

Lemma banInGuildCase_emitted env u reason cfg st r st' :
  banInGuildCase env u reason cfg st r st' →
  ∃ added, emitted st st' added
    ∧ Forall (blockEffect env u reason (server_id cfg) st') added.
Proof.
  destruct 1 as [e Hm|Hm|b Hm Hf Hb|Hm Hn Hp|e Hm Hn Hp Hb|Hm Hn Hp Hb].
  - exists [MembersFetchMe (server_id cfg)]. split; [done|].
    repeat constructor; done.
  - exists [MembersFetchMe (server_id cfg)]. split; [done|].
    repeat constructor; done.
  - exists [BansFetch (server_id cfg) u; MembersFetchMe (server_id cfg)].
    split; [done|]. repeat constructor; done.
  - exists [BansFetch (server_id cfg) u; MembersFetchMe (server_id cfg)].
    split; [done|]. repeat constructor; done.
  - exists [MembersBan (server_id cfg) u reason;
            BansFetch (server_id cfg) u; MembersFetchMe (server_id cfg)].
    split; [done|]. repeat constructor; try done.
    intros Hnone. by rewrite Hb in Hnone.
  - exists [MembersBan (server_id cfg) u reason;
            BansFetch (server_id cfg) u; MembersFetchMe (server_id cfg)].
    split; [done|]. repeat constructor; try done.
    intros _ Hff. destruct Hn as [[e He]|Hn]; [by rewrite Hff in He|].
    pose proof (recordBan_findBan_new (server_id cfg) u reason
                  (tagOf env u) st Hn) as Hnew.
    unfold bansOf in *. done.
Qed.

Lemma banInGuildCase_findBan_stable env u reason cfg st r st' g' u' b :
  banInGuildCase env u reason cfg st r st' →
  findBan u' (bansOf st g') = Some b →
  findBan u' (bansOf st' g') = Some b.
Proof.
  destruct 1; try done. intros Hb.
  eapply (recordBan_findBan_stable (server_id cfg) u reason (tagOf env u)) in Hb.
  unfold bansOf in *. done.
Qed.

(** What the block leaves unchanged unless it bans. *)
Lemma banInGuildCase_guildBans env u reason cfg st r st' :
  banInGuildCase env u reason cfg st r st' →
  r ≠ banApplied cfg ∨ banFault env (server_id cfg) u ≠ None →
  guildBans st' = guildBans st.
Proof.
  destruct 1; try done. intros [Hr|Hf]; [by destruct Hr | by destruct Hf].
Qed.


Lemma syncBanToServer_step env banInfo cfg st :
  ∃ r st', syncBanToServer env banInfo cfg st = (Ok r, st')
           ∧ syncStep env banInfo cfg st r st'.
Proof.
  unfold syncBanToServer, syncStep.
  destruct (guildCached env (server_id cfg)); simpl.
  - apply banInGuild_cases.
  - by eexists _, _.
Qed.

Lemma banAddToServer_step env ban sourceServer banReason cfg st :
  ∃ r st', banAddToServer env ban sourceServer banReason cfg st = (Ok r, st')
           ∧ eventStep env ban sourceServer banReason cfg st r st'.
Proof.
  unfold banAddToServer, eventStep.
  destruct (guildCached env (server_id cfg)); simpl; [|by eexists _, _].
  destruct (String.eqb (server_id cfg) (ev_guildId ban)); [by eexists _, _|].
  apply banInGuild_cases.
Qed.


(** ** The propagation loops *)

Lemma banAddToAllServers_runs env ban sourceServer banReason st :
  ∃ results st',
    banAddToAllServers env ban sourceServer banReason st = (Ok results, st')
    ∧ runs (eventStep env ban sourceServer banReason) (servers env) st results st'.
Proof. apply forEach_runs, banAddToServer_step. Qed.

Lemma syncBanToAllServers_runs env banInfo st :
  ∃ results st',
    syncBanToAllServers env banInfo st = (Ok results, st')
    ∧ runs (syncStep env banInfo) (servers env) st results st'.
Proof. apply forEach_runs, syncBanToServer_step. Qed.


Lemma syncStep_findBan_stable env banInfo cfg st r st' g u b :
  syncStep env banInfo cfg st r st' →
  findBan u (bansOf st g) = Some b → findBan u (bansOf st' g) = Some b.
Proof.
  unfold syncStep. case_match; try (by intros [_ ->]).
  apply banInGuildCase_findBan_stable.
Qed.



(** The iteration of [syncBanToAllServers] on a guild where the bot may
    ban and the lookup finds the subject's ban reports it as already
    banned and writes nothing. *)
Lemma syncStep_banned env banInfo cfg st r st' b :
  syncStep env banInfo cfg st r st' →
  guildCached env (server_id cfg) = true →
  botMember env (server_id cfg) = inr true →
  bansFetchFault env (server_id cfg) (userId banInfo) = None →
  findBan (userId banInfo) (bansOf st (server_id cfg)) = Some b →
  r = banAlready cfg
  ∧ ∃ added, emitted st st' added ∧ Forall (λ e, isWrite e = false) added.
Proof.
  unfold syncStep. intros Hstep Hc Hm Hf Hb. rewrite Hc in Hstep.
  assert (Hnn : ¬ lookupNull env st (server_id cfg) (userId banInfo)).
  { intros [[e He]|Hn]; congruence. }
  destruct Hstep; try congruence; try done.
  split; [done|]. eexists [_; _]. split; [done|]. by repeat constructor.
Qed.


(** ** The ingestion guard of the listener *)




Lemma eventSyncReason_tagged src reason :
  isSyncTagged (Some (eventSyncReason src reason)) = true.
Proof. reflexivity. Qed.

Lemma syncReasonOf_tagged banInfo :
  isSyncTagged (Some (syncReasonOf banInfo)) = true.
Proof. reflexivity. Qed.







(** ** The registry *)

Lemma serverMap_fold_None (l : list ServerConfig) g :
  ∀ m : gmap string ServerConfig,
    foldl (λ m s, <[server_id s := s]> m) m l !! g = None
    ↔ m !! g = None ∧ g ∉ server_id <$> l.
Proof.
  induction l as [|s l IH]; intros m; simpl.
  - split; [intros H; split; [done|apply not_elem_of_nil] | by intros [H _]].
  - rewrite IH, lookup_insert_None, not_elem_of_cons. intuition congruence.
Qed.

Lemma serverMap_None env g :
  serverMap env !! g = None ↔ g ∉ server_id <$> servers env.
Proof.
  unfold serverMap. rewrite serverMap_fold_None, lookup_empty. tauto.
Qed.

Lemma legacy_serverMap_fold_None (l : list ServerConfig) g :
  ∀ m : gmap string string,
    foldl (λ m s, <[server_id s := server_name s]> m) m l !! g = None
    ↔ m !! g = None ∧ g ∉ server_id <$> l.
Proof.
  induction l as [|s l IH]; intros m; simpl.
  - split; [intros H; split; [done|apply not_elem_of_nil] | by intros [H _]].
  - rewrite IH, lookup_insert_None, not_elem_of_cons. intuition congruence.
Qed.

Lemma legacy_serverMap_None env g :
  Legacy.serverMap env !! g = None ↔ g ∉ server_id <$> servers env.
Proof.
  unfold Legacy.serverMap.
  rewrite legacy_serverMap_fold_None, lookup_empty. tauto.
Qed.

(** ** The format of a user id *)

Lemma userIdFormat_snowflake s : userIdFormat s = true ↔ snowflake s.
Proof.
  unfold userIdFormat, snowflake, isDigit.
  rewrite !andb_true_iff, !Nat.leb_le, forallb_forall, Forall_forall.
  split.
  - intros [Hd Hl]. split; [lia|]. intros c Hc.
    apply list_elem_of_In, Hd in Hc.
    rewrite andb_true_iff, !Nat.leb_le in Hc. lia.
  - intros [Hl Hd]. split; [|lia]. intros c Hc.
    apply list_elem_of_In, Hd in Hc.
    rewrite andb_true_iff, !Nat.leb_le. lia.
Qed.

(** ** One iteration of the retraction loop *)

Lemma unbanFromServer_step env u reason requester cfg st :
  ∃ r st', unbanFromServer env u reason requester cfg st = (Ok r, st')
           ∧ unbanStep env u reason requester cfg st r st'.
Proof.
  unfold unbanFromServer.
  destruct (guildCached env (server_id cfg)) eqn:Hc; simpl;
    [|eexists _, _; split; [done|by constructor]].
  run_async.
  destruct (botMember env (server_id cfg)) as [e|[]] eqn:Hm; simpl;
    [by eexists _, _; split; [|constructor]| |
     by eexists _, _; split; [|constructor]].
  destruct (bansFetchFault env (server_id cfg) u) as [e|] eqn:Hf; simpl.
  { eexists _, _. split; [done|]. constructor; try done. left. by eexists. }
  unfold bansOf in *. simpl.
  destruct (findBan u (guildBans st !!! server_id cfg)) as [b|] eqn:Hb; simpl.
  2:{ eexists _, _. split; [done|]. constructor; try done. by right. }
  destruct (unbanFault env (server_id cfg) u) as [e|] eqn:Hu; simpl.
  { eexists _, _. split; [done|]. by econstructor. }
  rewrite Hb. eexists _, _. split; [done|].
  eapply UnbanDone; done.
Qed.

Lemma findBan_filter_None u (p : Ban → bool) l :
  findBan u l = None → findBan u (List.filter p l) = None.
Proof.
  unfold findBan. induction l as [|b l IH]; simpl; [done|].
  destruct (String.eqb (ban_userId b) u) eqn:E; [done|]. intros H.
  destruct (p b); simpl; [rewrite E|]; by apply IH.
Qed.

Lemma removeBan_findBan_None g u st g' u' :
  findBan u' (bansOf st g') = None →
  findBan u' (bansOf (removeBan g u st) g') = None.
Proof.
  intros H. unfold removeBan, bansOf in *. simpl.
  destruct (decide (g = g')) as [->|Hne].
  - rewrite lookup_total_insert_eq. by apply findBan_filter_None.
  - by rewrite lookup_total_insert_ne.
Qed.

(** A user who is not on a guild's list is not put there by an
    iteration. *)
Lemma unbanStep_findBan_None env u reason requester cfg st r st' g' u' :
  unbanStep env u reason requester cfg st r st' →
  findBan u' (bansOf st g') = None → findBan u' (bansOf st' g') = None.
Proof.
  destruct 1; try done. intros Hnone.
  by apply (removeBan_findBan_None (server_id cfg) u) in Hnone.
Qed.

Lemma unbanStep_emitted env u reason requester cfg st r st' :
  unbanStep env u reason requester cfg st r st' →
  ∃ added, emitted st st' added
    ∧ Forall (λ e, effectGuild e = Some (server_id cfg)) added.
Proof.
  destruct 1.
  - by exists [].
  - eexists [_]. split; [done|]. by repeat constructor.
  - eexists [_]. split; [done|]. by repeat constructor.
  - eexists [_; _]. split; [done|]. by repeat constructor.
  - eexists [_; _; _]. split; [done|]. by repeat constructor.
  - eexists [_; _; _]. split; [done|]. by repeat constructor.
Qed.

(** On a joined guild where the bot may ban and the user is not on the
    list, the iteration reports [wasNotBanned] and writes nothing. *)
Lemma unbanStep_not_banned env u reason requester cfg st r st' :
  unbanStep env u reason requester cfg st r st' →
  guildCached env (server_id cfg) = true →
  botMember env (server_id cfg) = inr true →
  findBan u (bansOf st (server_id cfg)) = None →
  r = unbanNotBanned cfg
  ∧ ∃ added, emitted st st' added ∧ Forall (λ e, isWrite e = false) added.
Proof.
  destruct 1; intros Hc Hm Hb; try congruence.
  split; [done|]. eexists [_; _]. split; [done|]. by repeat constructor.
Qed.

Lemma unbanFromAllServers_runs env u reason requester st :
  ∃ results st',
    unbanFromAllServers env u reason requester st = (Ok results, st')
    ∧ runs (unbanStep env u reason requester) (servers env) st results st'.
Proof. apply forEach_runs, unbanFromServer_step. Qed.

(** ** The union built by [handleSyncCommand] *)

Section MapFacts.
Context {V : Type}.
Implicit Types (l : list (string * V)) (k u : string) (v : V).

Lemma mapGet_mapSet u k v l :
  mapGet u (mapSet k v l) = if String.eqb k u then Some v else mapGet u l.
Proof.
  unfold mapGet. induction l as [|[k' v'] l IH]; simpl.
  - by destruct (String.eqb k u).
  - destruct (String.eqb_spec k' k) as [->|Hne]; simpl.
    + by destruct (String.eqb k u).
    + destruct (String.eqb_spec k' u) as [->|Hne']; simpl.
      * apply String.eqb_neq in Hne. rewrite String.eqb_sym in Hne.
        by rewrite Hne.
      * exact IH.
Qed.

Lemma mapGet_None k l : mapGet k l = None ↔ k ∉ l.*1.
Proof.
  unfold mapGet. induction l as [|[k' v'] l IH]; simpl.
  - split; [intros _; apply not_elem_of_nil | done].
  - rewrite not_elem_of_cons.
    destruct (String.eqb_spec k' k) as [->|Hne]; simpl.
    + split; [done | intros [? _]; done].
    + rewrite IH. split; [intros ?; split; [congruence | done] | by intros [_ ?]].
Qed.

Lemma mapGet_Some k v l : mapGet k l = Some v → (k, v) ∈ l.
Proof.
  unfold mapGet. induction l as [|[k' v'] l IH]; simpl; [done|].
  destruct (String.eqb_spec k' k) as [->|Hne]; simpl.
  - intros [= ->]. apply list_elem_of_here.
  - intros H. apply list_elem_of_further. by apply IH.
Qed.

Lemma mapGet_elem k v l : NoDup l.*1 → (k, v) ∈ l → mapGet k l = Some v.
Proof.
  unfold mapGet. induction l as [|[k' v'] l IH]; simpl.
  - intros _ H. by apply elem_of_nil in H.
  - intros Hnd Hin. apply NoDup_cons in Hnd as [Hk' Hnd].
    apply elem_of_cons in Hin as [[= <- <-]|Hin].
    + by rewrite String.eqb_refl.
    + destruct (String.eqb_spec k' k) as [->|Hne]; simpl; [|by apply IH].
      destruct Hk'. apply list_elem_of_fmap. by exists (k, v).
Qed.

Lemma mapSet_keys_fresh k v l : k ∉ l.*1 → (mapSet k v l).*1 = l.*1 ++ [k].
Proof.
  induction l as [|[k' v'] l IH]; csimpl; [done|].
  rewrite not_elem_of_cons. intros [Hne Hk].
  apply not_eq_sym, String.eqb_neq in Hne. rewrite Hne. csimpl.
  by rewrite IH.
Qed.

Lemma mapSet_elem k v l kv :
  kv ∈ mapSet k v l → kv = (k, v) ∨ kv ∈ l.
Proof.
  induction l as [|[k' v'] l IH]; simpl.
  - intros H. apply list_elem_of_singleton in H. by left.
  - destruct (String.eqb k' k).
    + rewrite !elem_of_cons. intros [?|?]; auto.
    + rewrite !elem_of_cons. intros [?|H]; auto.
      destruct (IH H); auto.
Qed.
End MapFacts.

Lemma orElse_truthy o d : d ≠ "" → truthy (Some (orElse o d)) = true.
Proof. destruct o as [[|c s]|]; simpl; by destruct d. Qed.

Lemma untagged_orElse o :
  isSyncTagged o = false →
  isSyncTagged (Some (orElse o "No reason provided")) = false.
Proof. destruct o as [[|c s]|]; simpl; done. Qed.

(** One record added to the union: a key already present is kept, a
    sync-tagged record is skipped. *)
Lemma addToUnion_spec cfg allBans b :
  unionWf allBans →
  unionWf (addToUnion cfg allBans b)
  ∧ ∀ u, mapGet u (addToUnion cfg allBans b)
         = match mapGet u allBans with
           | Some info => Some info
           | None =>
               if negb (isSyncTagged (ban_reason b))
                  && String.eqb (ban_userId b) u
               then Some (banInfoOf cfg b) else None
           end.
Proof.
  intros [Hnd Hreasons]. unfold addToUnion.
  destruct (isSyncTagged (ban_reason b)) eqn:Htag; simpl.
  { split; [done|]. intros u. by destruct (mapGet u allBans). }
  unfold mapHas.
  destruct (mapGet (ban_userId b) allBans) as [info|] eqn:Hget; simpl.
  - assert (Htruthy : truthy (Some (reason info)) = true).
    { apply mapGet_Some in Hget. rewrite Forall_forall in Hreasons.
      by apply (Hreasons _ Hget). }
    rewrite ?bool_decide_eq_true_2 by eauto. simpl in *. rewrite Htruthy. simpl.
    split; [done|]. intros u.
    destruct (mapGet u allBans) eqn:Hu; [done|].
    destruct (String.eqb_spec (ban_userId b) u) as [<-|]; [congruence|done].
  - rewrite ?bool_decide_eq_false_2 by (intros [? ?]; done). simpl.
    apply mapGet_None in Hget as Hfresh.
    split.
    + split.
      * rewrite mapSet_keys_fresh by done.
        apply NoDup_app. split; [done|]. split; [|apply NoDup_singleton].
        intros k Hk Hk'. apply list_elem_of_singleton in Hk'. by subst.
      * rewrite Forall_forall in *. intros kv Hin.
        apply mapSet_elem in Hin as [->|Hin]; [|by apply Hreasons].
        simpl. by apply orElse_truthy.
    + intros u. rewrite mapGet_mapSet.
      destruct (String.eqb_spec (ban_userId b) u) as [<-|Hne].
      * by rewrite Hget.
      * by destruct (mapGet u allBans).
Qed.

Lemma union_fold obs : ∀ allBans,
  unionWf allBans →
  unionWf (foldl (λ acc p, addToUnion p.1 acc p.2) allBans obs)
  ∧ ∀ u, mapGet u (foldl (λ acc p, addToUnion p.1 acc p.2) allBans obs)
         = match mapGet u allBans with
           | Some info => Some info
           | None => (λ p, banInfoOf p.1 p.2) <$> firstUntagged u obs
           end.
Proof.
  induction obs as [|[cfg b] obs IH]; intros allBans Hwf; simpl.
  { split; [done|]. intros u. by destruct (mapGet u allBans). }
  destruct (addToUnion_spec cfg allBans b Hwf) as [Hwf1 Hget1].
  destruct (IH _ Hwf1) as [Hwf2 Hget2].
  split; [done|]. intros u. rewrite Hget2, Hget1.
  destruct (mapGet u allBans); [done|].
  by destruct (negb (isSyncTagged (ban_reason b))
               && String.eqb (ban_userId b) u).
Qed.

Lemma foldl_addToUnion_pairs cfg bans : ∀ allBans,
  foldl (addToUnion cfg) allBans bans
  = foldl (λ acc p, addToUnion p.1 acc p.2) allBans (pair cfg <$> bans).
Proof. induction bans as [|b bans IH]; intros allBans; simpl; [done|apply IH]. Qed.

Lemma collectFromServer_run env allBans cfg st :
  ∃ st' added,
    collectFromServer env allBans cfg st
    = (Ok (foldl (addToUnion cfg) allBans (listedBy env st cfg)), st')
    ∧ guildBans st' = guildBans st
    ∧ emitted st st' added ∧ Forall silent added.
Proof.
  unfold collectFromServer, listedBy.
  destruct (guildCached env (server_id cfg)); simpl; [|by exists st, []].
  run_async.
  destruct (bansListFault env (server_id cfg)); simpl;
    eexists _, [_]; (split; [done|]); (split; [done|]);
    (split; [done|]); by repeat constructor.
Qed.

Lemma listedBy_guildBans env st st' cfg :
  guildBans st' = guildBans st → listedBy env st' cfg = listedBy env st cfg.
Proof. unfold listedBy, bansOf. by intros ->. Qed.

(** The collecting loops compute the fold of [addToUnion] over the
    records they visit, and only read. *)
Lemma collectAllBans_run env st :
  ∃ st' added,
    collectAllBans env st
    = (Ok (foldl (λ acc p, addToUnion p.1 acc p.2) [] (observed env st)), st')
    ∧ guildBans st' = guildBans st
    ∧ emitted st st' added ∧ Forall silent added.
Proof.
  unfold collectAllBans, observed. generalize (@nil (string * BanInfo)).
  generalize (servers env) as l. intros l. revert st.
  induction l as [|cfg l IH]; intros st allBans; simpl.
  { by exists st, []. }
  destruct (collectFromServer_run env allBans cfg st)
    as (st1 & a1 & Hrun1 & Hb1 & He1 & Hs1).
  destruct (IH st1 (foldl (addToUnion cfg) allBans (listedBy env st cfg)))
    as (st2 & a2 & Hrun2 & Hb2 & He2 & Hs2).
  exists st2, (a2 ++ a1). unfold mbind, Async_bind. rewrite Hrun1, Hrun2.
  split.
  { rewrite foldl_app, <- foldl_addToUnion_pairs.
    do 3 f_equal. apply flat_map_ext. intros x.
    by rewrite (listedBy_guildBans env st st1). }
  split; [congruence|]. split; [by eapply emitted_trans|].
  by apply Forall_app.
Qed.

Lemma unionWf_nil : unionWf [].
Proof. split; [apply NoDup_nil_2 | done]. Qed.

(** ** The propagation of the union *)

Lemma observed_guildBans env st st' :
  guildBans st' = guildBans st → observed env st' = observed env st.
Proof.
  intros H. unfold observed. apply flat_map_ext. intros cfg.
  by rewrite (listedBy_guildBans env st st').
Qed.

Lemma syncBanToAllServers_emitted env banInfo st :
  ∃ results st' added,
    syncBanToAllServers env banInfo st = (Ok results, st')
    ∧ emitted st st' added
    ∧ Forall (λ e, isWrite e = true →
                   ∃ g, e = MembersBan g (userId banInfo) (syncReasonOf banInfo))
        added.
Proof.
  destruct (syncBanToAllServers_runs env banInfo st)
    as (results & st' & Hrun & Hruns).
  assert (Hstep : ∀ x s r s', syncStep env banInfo x s r s' → True →
            True ∧ ∃ added, emitted s s' added
              ∧ Forall (λ e, isWrite e = true →
                   ∃ g, e = MembersBan g (userId banInfo) (syncReasonOf banInfo))
                  added).
  2:{ destruct (runs_emitted _ (λ _, True) _ _ _ _ _ Hstep Hruns I)
        as (added & Hem & Hall). by exists results, st', added. }
  intros x s r s' HP _. split; [done|]. unfold syncStep in HP.
  destruct (guildCached env (server_id x));
    [|destruct HP as [_ ->]; by exists []].
  apply banInGuildCase_emitted in HP as (added & Hem & Hall).
  exists added. split; [done|].
  eapply Forall_impl; [exact Hall|].
  intros e (_ & _ & Hw) Hwrite. destruct (Hw Hwrite) as [-> _]. eauto.
Qed.

Lemma syncOne_emitted env total acc entry st :
  ∃ acc' st' added,
    syncOne env total acc entry st = (Ok acc', st')
    ∧ emitted st st' added
    ∧ Forall (λ e, isWrite e = true →
                   ∃ g, e = MembersBan g (userId entry.2) (syncReasonOf entry.2))
        added.
Proof.
  unfold syncOne.
  destruct (syncBanToAllServers_emitted env entry.2 st)
    as (results & st1 & a1 & Hrun & Hem & Hall).
  unfold mbind at 1, Async_bind at 1. rewrite Hrun.
  unfold emitted in *.
  destruct (S acc.2 mod 5 =? 0)%nat; run_async.
  - eexists _, _, (_ :: a1). split; [done|]. split; [by rewrite Hem|].
    by constructor.
  - by eexists _, _, a1.
Qed.

(** ** The counters of the reports *)

Lemma countIf_partition {A} (p q r : A → bool) (l : list A) :
  Forall (λ x, (p x && negb (q x) && negb (r x))
               || (negb (p x) && q x && negb (r x))
               || (negb (p x) && negb (q x) && r x) = true) l →
  (countIf p l + countIf q l + countIf r l = length l)%nat.
Proof.
  unfold countIf. induction 1 as [|x l Hx _ IH]; simpl; [done|].
  destruct (p x), (q x), (r x); simpl in *; try done; lia.
Qed.

Lemma banInGuildCase_pushed env u reason cfg st r st' :
  banInGuildCase env u reason cfg st r st' → pushed cfg r.
Proof. destruct 1; constructor. Qed.

Lemma eventStep_pushed env ban src reason cfg st r st' :
  eventStep env ban src reason cfg st r st' → pushed cfg r.
Proof.
  unfold eventStep. repeat case_match; try (intros [-> _]; constructor).
  apply banInGuildCase_pushed.
Qed.

(** The three counters of the listener's report split its results. *)
Lemma listener_counters_partition env ban src reason st results st' :
  banAddToAllServers env ban src reason st = (Ok results, st') →
  (countIf isSynced results + countIf isFailure results
   + countIf isAlreadyBanned results = length results)%nat
  ∧ length results = length (servers env).
Proof.
  intros Hrun.
  destruct (banAddToAllServers_runs env ban src reason st)
    as (results' & st'' & Hrun' & Hruns).
  rewrite Hrun in Hrun'. injection Hrun' as <- <-.
  split; [|by eapply runs_length].
  apply countIf_partition.
  clear Hrun. induction Hruns as [|x l s r s1 rs s2 HP _ IH]; constructor;
    [|done].
  apply eventStep_pushed in HP. by destruct HP.
Qed.

(** So do the three counters of the unban command. *)
Lemma unban_counters_partition env u reason requester st results st' :
  unbanFromAllServers env u reason requester st = (Ok results, st') →
  (countIf isUnbanned results + countIf isNotBanned results
   + countIf isUnbanError results = length results)%nat
  ∧ length results = length (servers env).
Proof.
  intros Hrun.
  destruct (unbanFromAllServers_runs env u reason requester st)
    as (results' & st'' & Hrun' & Hruns).
  rewrite Hrun in Hrun'. injection Hrun' as <- <-.
  split; [|by eapply runs_length].
  apply countIf_partition.
  clear Hrun. induction Hruns as [|x l s r s1 rs s2 HP _ IH]; constructor;
    [|done].
  by destruct HP.
Qed.

(** The chain of [handleSyncCommand] counts a result once, unless it is a
    failure without an error text. *)
Lemma countResult_counted stats r :
  counted (countResult stats r)
  = (counted stats
     + if isSynced r || isAlreadyBanned r
          || (isFailure r && truthy (BanResult.error r))
       then 1 else 0)%nat.
Proof.
  unfold countResult, counted, isSynced, isAlreadyBanned, isFailure.
  destruct r as [? ? [] [] e]; simpl; try lia.
  destruct (truthy e); simpl; lia.
Qed.

Lemma syncStep_counted env banInfo cfg st r st' :
  messagesNonEmpty env →
  syncStep env banInfo cfg st r st' →
  isSynced r || isAlreadyBanned r
  || (isFailure r && truthy (BanResult.error r)) = true.
Proof.
  intros [Hmember Hban]. unfold syncStep.
  destruct (guildCached env (server_id cfg)); [|by intros [-> _]].
  destruct 1 as [e Hm|Hm|b Hm Hf Hb|Hm Hn Hp|e Hm Hn Hp Hb|Hm Hn Hp Hb];
    try done.
  - apply Hmember in Hm. simpl. by destruct (errorMessage e).
  - apply Hban in Hb. simpl. by destruct (errorMessage e).
Qed.

(** When no call rejects with an empty message, the chain counts every
    result of [syncBanToAllServers]. *)
Lemma sync_counters_partition env banInfo st results st' stats :
  messagesNonEmpty env →
  syncBanToAllServers env banInfo st = (Ok results, st') →
  counted (foldl countResult stats results)
  = (counted stats + length results)%nat.
Proof.
  intros Hmsg Hrun.
  destruct (syncBanToAllServers_runs env banInfo st)
    as (results' & st'' & Hrun' & Hruns).
  rewrite Hrun in Hrun'. injection Hrun' as <- <-. clear Hrun.
  revert stats.
  induction Hruns as [|x l s r s1 rs s2 HP _ IH]; intros stats; simpl;
    [unfold counted; lia|].
  rewrite IH, countResult_counted, (syncStep_counted _ _ _ _ _ _ Hmsg HP).
  lia.
Qed.

(** ** The token left by a write that went through *)

(** After a ban write that went through, the token of the pair is live:
    an event on the target guild is dropped by the first check of the
    listener for the next thirty seconds. *)
Lemma applied_write_leaves_live_token env u reason cfg st :
  0 < clock st →
  attemptReached env st u cfg →
  banFault env (server_id cfg) u = None →
  ∃ st', banInGuild env u reason cfg st = (Ok (banApplied cfg), st')
         ∧ liveToken st' u (server_id cfg).
Proof.
  intros Hclock (_ & Hm & Hn & Hp) Hb.
  destruct (banInGuild_cases env u reason cfg st) as (r & st' & Hrun & Hcase).
  destruct Hcase as [e Hm'|Hm'|b _ Hf Hb'|_ _ Hp'|e _ _ _ Hb'|_ _ _ _];
    try congruence.
  - destruct Hn as [[e He]|Hn]; congruence.
  - eexists. split; [exact Hrun|]. exists (clock st). simpl.
    split; [apply lookup_insert_eq|].
    unfold BAN_DELAY_MS, BAN_PROCESSING_TIMEOUT. lia.
Qed.

(** ** C1: the token after a write attempt *)





(** ** C2: the origin guild *)




(** ** C3: the ingestion guard and the echo *)




(** ** C4: acquiring a token *)

(** C4. [tryAcquire] on (subject, node) succeeds, and then stores a
    token stamped with the current time, exactly when the table holds no
    token for the key whose age is within the 30 s timeout; a failed
    attempt leaves the table as it was.  A token acquired at time [T]
    and neither released nor re-acquired since is treated as absent by
    any [tryAcquire] later than [T + 30000], whatever checks and sweeps
    ran in between; and while a token within the timeout is stored,
    [tryAcquire] on the key fails. *)
Theorem tryAcquire_spec (now : Z) (userId guildId : string) (m : gmap string Z) :
  locks_wf m →
  ((tryAcquire now userId guildId m).1 = true ↔
     ¬ ∃ ts, m !! getBanKey userId guildId = Some ts
             ∧ now - ts ≤ BAN_PROCESSING_TIMEOUT)
  ∧ ((tryAcquire now userId guildId m).1 = true →
     (tryAcquire now userId guildId m).2 !! getBanKey userId guildId = Some now)
  ∧ ((tryAcquire now userId guildId m).1 = false →
     (tryAcquire now userId guildId m).2 = m)
  ∧ (∀ ops later,
       (tryAcquire now userId guildId m).1 = true →
       Forall (keepsToken (getBanKey userId guildId)) ops →
       later > now + BAN_PROCESSING_TIMEOUT →
       (tryAcquire later userId guildId
          (runLockOps ops (tryAcquire now userId guildId m).2)).1 = true)
  ∧ (∀ ts, m !! getBanKey userId guildId = Some ts →
       now - ts ≤ BAN_PROCESSING_TIMEOUT →
       tryAcquire now userId guildId m = (false, m)).
Proof.
  intros Hwf. set (key := getBanKey userId guildId).
  assert (Hlive : ∀ ts, m !! key = Some ts →
            now - ts ≤ BAN_PROCESSING_TIMEOUT →
            (isBanProcessing now userId guildId m).1 = true).
  { intros ts Hts Hage. apply isBanProcessing_true. exists ts.
    repeat split; [done| |done]. apply Hwf in Hts. lia. }
  assert (Hstore : (tryAcquire now userId guildId m).1 = true →
            (tryAcquire now userId guildId m).2 !! key = Some now).
  { unfold tryAcquire.
    destruct (isBanProcessing now userId guildId m) as [[] m']; simpl; [done|].
    intros _. unfold markBanProcessing. apply lookup_insert_eq. }
  split; [|split; [done|split; [|split]]].
  - rewrite tryAcquire_success, negb_true_iff. split.
    + intros Hfree (ts & Hts & Hage).
      rewrite (Hlive ts Hts Hage) in Hfree. done.
    + intros Hnone.
      destruct (isBanProcessing now userId guildId m).1 eqn:E; [|done].
      apply isBanProcessing_true in E as (ts & Hts & _ & Hage).
      destruct Hnone. eauto.
  - unfold tryAcquire.
    pose proof (isBanProcessing_true_table now userId guildId m) as Htab.
    destruct (isBanProcessing now userId guildId m) as [[] m']; simpl in *;
      [intros _; by apply Htab | done].
  - intros ops later Hok Hkeep Hlater.
    specialize (Hstore Hok). subst key.
    rewrite tryAcquire_success, negb_true_iff.
    destruct (isBanProcessing later userId guildId _).1 eqn:E; [|done].
    apply isBanProcessing_true in E as (ts & Hts & _ & Hage).
    destruct (runLockOps_keeps _ ops (tryAcquire now userId guildId m).2
                Hkeep) as [Heq|Heq];
      rewrite Heq in Hts; [|done].
    rewrite Hstore in Hts. injection Hts as <-. lia.
  - intros ts Hts Hage. unfold tryAcquire.
    pose proof (Hlive ts Hts Hage) as Hbusy.
    pose proof (isBanProcessing_true_table now userId guildId m Hbusy) as Htab.
    destruct (isBanProcessing now userId guildId m) as [b m']; simpl in *.
    by subst.
Qed.

Lemma heldToken_wf k : locks_wf {[ k := 1700000000000 ]}.
Proof. intros k' ts [_ <-]%lookup_singleton_Some. reflexivity. Qed.

Lemma tryAcquire_spec_witness :
  tryAcquire 1700000030000 subjectU (server_id guildB)
    {[ getBanKey subjectU (server_id guildB) := 1700000000000 ]}
  = (false, {[ getBanKey subjectU (server_id guildB) := 1700000000000 ]})
  ∧ (tryAcquire 1700000030001 subjectU (server_id guildB)
       {[ getBanKey subjectU (server_id guildB) := 1700000000000 ]}).1 = true.
Proof.
  split.
  - destruct (tryAcquire_spec 1700000030000 subjectU (server_id guildB)
                {[ getBanKey subjectU (server_id guildB) := 1700000000000 ]}
                (heldToken_wf _)) as (_ & _ & _ & _ & Hbusy).
    apply (Hbusy 1700000000000); [apply lookup_singleton_eq | discriminate].
  - destruct (tryAcquire_spec 1700000030001 subjectU (server_id guildB)
                {[ getBanKey subjectU (server_id guildB) := 1700000000000 ]}
                (heldToken_wf _)) as (Hiff & _).
    apply Hiff. intros (ts & [_ <-]%lookup_singleton_Some & Hage).
    apply Hage. reflexivity.
Defined.

(** ** C5 and C6: the union of a reconciliation pass *)

(** C5.  The collecting loops of [handleSyncCommand] only read, and every
    entry of the union they build comes from a visited record whose
    reason does not begin with '[BanSync]': the entry's key is the
    record's user, its origin the server the record was read from, its
    reason the record's (or the default text), which is not sync-tagged
    either.  No sync-tagged record is the source of an entry, and every
    write of the pass propagates an entry of that union. *)
Theorem tagged_records_excluded (env : Env) (st : State) :
  ∃ allBans st1 added1,
    collectAllBans env st = (Ok allBans, st1)
    ∧ emitted st st1 added1 ∧ Forall silent added1
    ∧ guildBans st1 = guildBans st
    ∧ (∀ u info,
         (u, info) ∈ allBans →
         ∃ cfg b,
           (cfg, b) ∈ observed env st
           ∧ ban_userId b = u
           ∧ isSyncTagged (ban_reason b) = false
           ∧ info = banInfoOf cfg b
           ∧ isSyncTagged (Some (reason info)) = false)
    ∧ ∀ interaction,
        ∃ st' added,
          handleSyncCommand env interaction st = (Ok tt, st')
          ∧ emitted st st' added
          ∧ Forall (propagates allBans) added.
Proof.
  destruct (collectAllBans_run env st) as (st' & added & Hrun & Hb & Hem & Hs).
  destruct (union_fold (observed env st) [] unionWf_nil) as [[Hnd _] Hget].
  eexists _, st', added. split; [exact Hrun|].
  split; [done|]. split; [done|]. split; [done|]. split.
  - intros u info Hin.
    apply (mapGet_elem _ _ _ Hnd) in Hin. rewrite Hget in Hin. simpl in Hin.
    unfold firstUntagged in Hin.
    destruct (List.find _ (observed env st)) as [[cfg b]|] eqn:Hfind; [|done].
    injection Hin as <-.
    apply find_some in Hfind as [Hobs Hp]. simpl in Hp.
    apply andb_true_iff in Hp as [Htag Hu].
    apply negb_true_iff in Htag. apply String.eqb_eq in Hu.
    exists cfg, b. repeat split; try done.
    + by apply list_elem_of_In.
    + simpl. by apply untagged_orElse.
  - intros interaction. unfold handleSyncCommand.
    destruct (memberCanBan interaction); simpl.
    2:{ eexists _, [_]. split; [done|]. split; [done|]. by repeat constructor. }
    unfold mbind at 1, Async_bind at 1, emit at 1.
    set (st0 := mkState _ _ _ (InteractionReply Deferred :: trace st)).
    destruct (collectAllBans_run env st0)
      as (st1 & a1 & Hrun1 & Hb1 & Hem1 & Hs1).
    rewrite (observed_guildBans env st st0) in Hrun1 by done.
    unfold mbind at 1, Async_bind at 1. rewrite Hrun1.
    set (allBans := foldl _ [] (observed env st)) in *.
    assert (Hquiet : ∀ l : list Effect, Forall silent l →
              Forall (propagates allBans) l).
    { intros l Hl. eapply Forall_impl; [exact Hl|].
      intros e [Hw _] Hwrite. congruence. }
    assert (Hem01 : emitted st st1 (a1 ++ [InteractionReply Deferred])).
    { unfold emitted in *. rewrite Hem1. simpl. by rewrite <- app_assoc. }
    destruct (length allBans =? 0)%nat.
    { eexists _, (_ :: a1 ++ [InteractionReply Deferred]).
      split; [done|]. split; [unfold emitted in *; simpl; by rewrite Hem01|].
      constructor; [done|]. apply Forall_app. split; [by apply Hquiet|].
      by repeat constructor. }
    unfold mbind at 1, Async_bind at 1, emit at 1.
    set (st2 := mkState _ _ _ (InteractionReply _ :: trace st1)).
    destruct (foldEach_emitted (syncOne env (length allBans))
                (λ entry e, isWrite e = true →
                   ∃ g, e = MembersBan g (userId entry.2) (syncReasonOf entry.2))
                (λ acc x s, syncOne_emitted env (length allBans) acc x s)
                allBans (emptyStats, 0%nat) st2)
      as (acc & st3 & a3 & Hrun3 & Hem3 & Hall3).
    unfold mbind at 1, Async_bind at 1. rewrite Hrun3.
    run_async.
    eexists _, (_ :: _ :: a3 ++ _ :: a1 ++ [InteractionReply Deferred]).
    split; [done|]. split.
    { unfold emitted in *. simpl. rewrite Hem3. simpl. rewrite Hem01.
      rewrite <- ?app_assoc. simpl. rewrite <- ?app_assoc. reflexivity. }
    constructor; [done|]. constructor; [done|].
    apply Forall_app. split.
    + eapply Forall_impl; [exact Hall3|].
      intros e (entry & Hin & He) Hwrite.
      destruct (He Hwrite) as (g & ->). by exists entry, g.
    + constructor; [done|]. apply Forall_app. split; [by apply Hquiet|].
      by repeat constructor.
Qed.


(** ** C7: the counters of the reports *)

(** C7, at the failing input.  [guildA] lists [subjectU]; the sync
    command propagates the ban; the write to [guildB] rejects with an
    [Error] whose message is empty.  The pass reports two results for the
    subject, and its three counters add up to one. *)
Theorem sync_counters_miss_empty_message :
  ∃ st' rest stats results,
    handleSyncCommand emptyMessageEnv moderator (bannedInA (Some "spam"))
    = (Ok tt, st')
    ∧ trace st' = SendLogToAll (SyncComplete stats 2) :: rest
    ∧ SyncStats.details stats = [(subjectU, ("user#0001", results))]
    ∧ results = [banAlready guildA; banFailure guildB ""]
    ∧ (SyncStats.newBans stats + SyncStats.alreadyBanned stats
       + SyncStats.errors stats = 1)%nat.
Proof.
  eexists _, _, _, _. split; [vm_compute; reflexivity|].
  split; [reflexivity|]. split; [reflexivity|]. split; reflexivity.
Qed.

(** ** C8: retraction where the subject is not banned *)

(** C8.  In a run of the loop of the unban command, every registry entry
    of a guild that is in the cache, where the bot may ban and where the
    subject is not on the ban list, is reported with [success = true,
    wasNotBanned = true] and no error, and no removal write is addressed
    to that guild. *)
Theorem not_banned_is_no_failure (env : Env) (userId reason requester : string)
    (st : State) (i : nat) (cfg : ServerConfig) :
  servers env !! i = Some cfg →
  guildCached env (server_id cfg) = true →
  botMember env (server_id cfg) = inr true →
  findBan userId (bansOf st (server_id cfg)) = None →
  ∃ results st' added,
    unbanFromAllServers env userId reason requester st = (Ok results, st')
    ∧ emitted st st' added
    ∧ results !! i = Some (UnbanResult.mk (server_id cfg) (server_name cfg)
                             true true None)
    ∧ Forall (λ e, ¬ (isWrite e = true
                      ∧ effectGuild e = Some (server_id cfg))) added.
Proof.
  intros Hi Hc Hm Hb.
  set (u := userId) in *.
  destruct (unbanFromAllServers_runs env u reason requester st)
    as (results & st1 & Hrun & Hruns).
  set (Inv := λ s : State, findBan u (bansOf s (server_id cfg)) = None).
  assert (Hpres : ∀ x s r s',
            unbanStep env u reason requester x s r s' → Inv s → Inv s').
  { intros x s r s' HP HI. by eapply unbanStep_findBan_None. }
  assert (Hemit : ∀ x s r s',
            unbanStep env u reason requester x s r s' →
            Inv s →
            Inv s' ∧ ∃ added, emitted s s' added
              ∧ Forall (λ e, ¬ (isWrite e = true
                                ∧ effectGuild e = Some (server_id cfg))) added).
  { intros x s r s' HP HI. split; [by eapply Hpres|].
    destruct (decide (server_id x = server_id cfg)) as [Heq|Hne].
    - unfold Inv in HI. rewrite <- Heq in HI, Hc, Hm.
      destruct (unbanStep_not_banned _ _ _ _ _ _ _ _ HP Hc Hm HI)
        as (_ & added & Hem & Hall).
      exists added. split; [done|].
      eapply Forall_impl; [exact Hall|]. intros e He [Hw _]. congruence.
    - destruct (unbanStep_emitted _ _ _ _ _ _ _ _ HP) as (added & Hem & Hall).
      exists added. split; [done|].
      eapply Forall_impl; [exact Hall|]. intros e He [_ Hg]. congruence. }
  assert (HI : Inv st) by exact Hb.
  destruct (runs_emitted _ Inv _ _ _ _ _ Hemit Hruns HI) as (added & Hem & Hall).
  destruct (runs_invariant _ Inv _ _ _ _ Hpres Hruns HI) as [_ Hat].
  destruct (Hat i cfg Hi) as (s & r & s' & HIs & HP & Hr).
  destruct (unbanStep_not_banned _ _ _ _ _ _ _ _ HP Hc Hm HIs) as (-> & _).
  by exists results, st1, added.
Qed.

Lemma not_banned_is_no_failure_witness :
  ∃ results st' added,
    unbanFromAllServers quietEnv subjectU "appeal" "mod#0001"
      (bannedInA (Some "spam"))
    = (Ok results, st')
    ∧ emitted (bannedInA (Some "spam")) st' added
    ∧ results !! 1%nat
      = Some (UnbanResult.mk (server_id guildB) (server_name guildB)
                true true None)
    ∧ Forall (λ e, ¬ (isWrite e = true
                      ∧ effectGuild e = Some (server_id guildB))) added.
Proof.
  apply (not_banned_is_no_failure quietEnv subjectU "appeal" "mod#0001"
           (bannedInA (Some "spam")) 1%nat guildB);
    reflexivity.
Defined.

(** ** C9: events from a guild outside the registry *)

(** C9.  When the id of the event's guild is not the id of a configured
    server, the listener, in its present form as in its first version,
    returns at once: the state, calls made included, is what it was. *)
Theorem unconfigured_guild_ignored (env : Env) (ban : BanEvent) (st : State) :
  ev_guildId ban ∉ server_id <$> servers env →
  guildBanAdd env ban st = (Ok tt, st)
  ∧ Legacy.guildBanAdd env ban st = (Ok tt, st).
Proof.
  intros Hout. unfold guildBanAdd, Legacy.guildBanAdd.
  apply serverMap_None in Hout as Hnew.
  apply legacy_serverMap_None in Hout as Hold.
  by rewrite Hnew, Hold.
Qed.

Lemma unconfigured_guild_ignored_witness :
  guildBanAdd quietEnv
    (mkBanEvent subjectU "user#0001" "100000000000000009" "Elsewhere")
    freshState = (Ok tt, freshState)
  ∧ Legacy.guildBanAdd quietEnv
      (mkBanEvent subjectU "user#0001" "100000000000000009" "Elsewhere")
      freshState = (Ok tt, freshState).
Proof.
  apply (unconfigured_guild_ignored quietEnv
           (mkBanEvent subjectU "user#0001" "100000000000000009" "Elsewhere")
           freshState).
  simpl. rewrite !not_elem_of_cons. repeat split; try discriminate.
  apply not_elem_of_nil.
Defined.

(** ** C10: the format check of the unban command *)

(** C10 (amended).  When the [user_id] option is not made of 17 to 19
    decimal digits, the unban command sends one reply and does nothing
    else: no guild is queried, nothing is written, clock, tokens and ban
    lists are what they were.  The reply is the invalid-format message
    for a requester who may ban, and the permission message for one who
    may not. *)
Theorem malformed_user_id_rejected (env : Env) (interaction : Interaction)
    (st : State) :
  ¬ snowflake (opt_user_id interaction) →
  handleUnbanCommand env interaction st
  = (Ok tt, mkState (clock st) (processingBans st) (guildBans st)
              (InteractionReply
                 (if memberCanBan interaction then InvalidUserId
                  else NeedBanPermission) :: trace st)).
Proof.
  intros Hbad. unfold handleUnbanCommand.
  destruct (memberCanBan interaction); simpl; [|done].
  destruct (userIdFormat (opt_user_id interaction)) eqn:Hfmt; [|done].
  by apply userIdFormat_snowflake in Hfmt.
Qed.

Lemma malformed_user_id_rejected_witness :
  handleUnbanCommand quietEnv
    (mkInteraction true "mod#0001" "300000000000000001" "12345" None)
    freshState
  = (Ok tt, mkState (clock freshState) (processingBans freshState)
              (guildBans freshState)
              (InteractionReply InvalidUserId :: trace freshState)).
Proof.
  apply (malformed_user_id_rejected quietEnv
           (mkInteraction true "mod#0001" "300000000000000001" "12345" None)
           freshState).
  intros [[Hlen _] _]. simpl in Hlen. lia.
Defined.

(** C10, counterexample.  A requester without the BanMembers permission
    names the id '12345': the answer is the permission message, not the
    invalid-format one. *)
Lemma unentitled_requester_gets_permission_message :
  ¬ malformedGetsFormatError quietEnv guest freshState.
Proof.
  intros Hformat.
  assert (Hbad : ¬ snowflake (opt_user_id guest)).
  { intros [[Hlen _] _]. simpl in Hlen. lia. }
  specialize (Hformat Hbad). discriminate.
Qed.

(** * Further properties of the code *)

(** ** Relations kept by every step of a computation *)

Section Preserves.
Context (R : State → State → Prop) `{!PreOrder R}.

Lemma preserves_ret {A} (a : A) : preserves R (mret a).
Proof. intros st. reflexivity. Qed.

Lemma preserves_throw {A} e : preserves R (@throw A e).
Proof. intros st. reflexivity. Qed.

Lemma preserves_bind {A B} (c : Async A) (f : A → Async B) :
  preserves R c → (∀ a, preserves R (f a)) → preserves R (c ≫= f).
Proof.
  intros Hc Hf st. unfold mbind, Async_bind.
  specialize (Hc st). destruct (c st) as [[a|e] st1]; simpl in *; [|done].
  etrans; [exact Hc | apply Hf].
Qed.

Lemma preserves_tryCatch {A} (body : Async A) handler :
  preserves R body → (∀ e, preserves R (handler e)) →
  preserves R (tryCatch body handler).
Proof.
  intros Hc Hh st. unfold tryCatch.
  specialize (Hc st). destruct (body st) as [[a|e] st1]; simpl in *; [done|].
  etrans; [exact Hc | apply Hh].
Qed.

Lemma preserves_catchNull {A} (c : Async A) :
  preserves R c → preserves R (catchNull c).
Proof.
  intros Hc. unfold catchNull. apply preserves_tryCatch.
  - apply preserves_bind; [done|]. intros a. apply preserves_ret.
  - intros e. apply preserves_ret.
Qed.

Lemma preserves_forEach {A B} (f : A → Async B) l :
  (∀ x, preserves R (f x)) → preserves R (forEach f l).
Proof.
  intros Hf. induction l as [|x l IH]; simpl; [apply preserves_ret|].
  apply preserves_bind; [done|]. intros r.
  apply preserves_bind; [done|]. intros rs. apply preserves_ret.
Qed.

Lemma preserves_foldEach {A B} (f : B → A → Async B) l :
  (∀ acc x, x ∈ l → preserves R (f acc x)) →
  ∀ acc, preserves R (foldEach f acc l).
Proof.
  induction l as [|x l IH]; intros Hf acc; simpl; [apply preserves_ret|].
  apply preserves_bind; [apply Hf, list_elem_of_here|]. intros acc'.
  apply IH. intros acc'' y Hy. by apply Hf, list_elem_of_further.
Qed.
End Preserves.

(** Breaks a computation into its calls; [prim] closes the calls. *)
Ltac preserves_go prim :=
  cbv zeta;
  repeat first
    [ solve [prim]
    | apply preserves_ret; tc_solve
    | apply preserves_throw; tc_solve
    | apply preserves_catchNull; [tc_solve|]
    | apply preserves_bind; [tc_solve| |intros ?]
    | apply preserves_tryCatch; [tc_solve| |intros ?]
    | apply preserves_forEach; [tc_solve|intros ?]
    | apply preserves_foldEach; [tc_solve|intros ? ? ?]
    | match goal with
      | |- preserves _ (if ?b then _ else _) => destruct b
      | |- preserves _ (match ?o with _ => _ end) => destruct o
      end ].

(** Closes a call by a fact in the context, its side condition by
    evaluation. *)
Ltac by_call :=
  idtac;
  match goal with
  | H : _ |- preserves _ _ => apply H; first [done | reflexivity]
  end.

(** Every function of the bot is built from these. *)
Ltac unfold_bot :=
  repeat progress
    unfold handleAll, handle, interactionCreate, handleSyncCommand,
      handleUnbanCommand, guildBanAdd,
      Legacy.guildBanAdd, Legacy.sendBanReport, Legacy.banAddToServer,
      sendBanReportToAll, buildEmbed, banAddToAllServers, banAddToServer,
      syncBanToAllServers, syncBanToServer, banInGuild,
      unbanFromAllServers, unbanFromServer, collectAllBans, collectFromServer,
      syncOne.

(** ** The clock and the stamps *)

#[local] Instance advances_preorder : PreOrder advances.
Proof.
  split.
  - intros st. by split.
  - intros st1 st2 st3 [Hc1 Hw1] [Hc2 Hw2]. split; [lia | auto].
Qed.

Lemma advances_same st st' :
  clock st' = clock st → processingBans st' = processingBans st →
  advances st st'.
Proof.
  intros Hc Hl. split; [lia|]. unfold stateWf. by rewrite Hc, Hl.
Qed.

Lemma advances_calls env :
  (∀ e, preserves advances (emit e))
  ∧ preserves advances (delay BAN_DELAY_MS)
  ∧ (∀ g, preserves advances (membersFetchMe env g))
  ∧ (∀ g u, preserves advances (Legacy.membersFetch env g u))
  ∧ (∀ g u, preserves advances (bansFetch env g u))
  ∧ (∀ g, preserves advances (bansFetchAll env g))
  ∧ (∀ g u r, preserves advances (membersBan env g u r))
  ∧ (∀ g u r, preserves advances (membersUnban env g u r))
  ∧ (∀ u g, preserves advances (isBanProcessingNow u g))
  ∧ (∀ u g, preserves advances (markBanProcessingNow u g))
  ∧ (∀ u g, preserves advances (unmarkBanProcessingNow u g)).
Proof.
  repeat apply conj; unfold preserves; intros; run_async;
    repeat case_match; simpl;
    try (by apply advances_same).
  - split; simpl; [unfold BAN_DELAY_MS; lia|].
    intros [Hc Hw]. split; simpl; [unfold BAN_DELAY_MS; lia | done].
  - match goal with
    | |- advances _ (recordBan ?g ?u ?r ?t ?s) =>
        destruct (recordBan_fields g u r t s) as (Hc & Hl & _)
    end.
    by apply advances_same.
  - split; simpl; [lia|]. intros [Hc Hw]. split; simpl; [done|].
    by apply isBanProcessing_wf.
  - split; simpl; [lia|]. intros [Hc Hw]. split; simpl; [done|].
    by apply markBanProcessing_wf.
  - split; simpl; [lia|]. intros [Hc Hw]. split; simpl; [done|].
    by apply unmarkBanProcessing_wf.
Qed.


Lemma advances_timer :
  preserves advances sweepNow ∧ ∀ ms, preserves advances (delay (Z.of_N ms)).
Proof.
  split; [|intros ms]; intros st; split; simpl; try lia;
    intros [Hc Hw]; split; simpl; try lia; try done.
  by apply sweepProcessing_wf.
Qed.

Lemma advances_handleAll env events : preserves advances (handleAll env events).
Proof.
  destruct (advances_calls env)
    as (? & ? & ? & ? & ? & ? & ? & ? & ? & ? & ?).
  destruct advances_timer.
  unfold_bot. preserves_go ltac:(auto).
Qed.

(** ** Calls that leave the ban lists alone *)

Lemma quiet_calls env (R : State → State → Prop) :
  bansOnly R →
  (∀ e, preserves R (emit e))
  ∧ (∀ ms, preserves R (delay ms))
  ∧ (∀ g, preserves R (membersFetchMe env g))
  ∧ (∀ g u, preserves R (Legacy.membersFetch env g u))
  ∧ (∀ g u, preserves R (bansFetch env g u))
  ∧ (∀ g, preserves R (bansFetchAll env g))
  ∧ (∀ u g, preserves R (isBanProcessingNow u g))
  ∧ (∀ u g, preserves R (markBanProcessingNow u g))
  ∧ (∀ u g, preserves R (unmarkBanProcessingNow u g))
  ∧ preserves R sweepNow.
Proof.
  intros HR. repeat apply conj; unfold preserves; intros; apply HR;
    run_async; repeat case_match; done.
Qed.

(** ** No recorded ban is removed or rewritten *)

#[local] Instance keepsBans_preorder : PreOrder keepsBans.
Proof.
  split.
  - by intros st g u b.
  - intros st1 st2 st3 H1 H2 g u b Hb. by apply H2, H1.
Qed.

Lemma keepsBans_bansOnly : bansOnly keepsBans.
Proof. intros st st' Hb g u b. unfold bansOf. by rewrite Hb. Qed.

Lemma keepsBans_membersBan env g u r : preserves keepsBans (membersBan env g u r).
Proof.
  intros st g' u' b Hb. run_async. case_match; simpl; [done|].
  by apply recordBan_findBan_stable.
Qed.

Lemma keepsBans_handle env ev :
  notUnban ev → preserves keepsBans (handle env ev).
Proof.
  intros Hev.
  destruct (quiet_calls env keepsBans keepsBans_bansOnly)
    as (? & ? & ? & ? & ? & ? & ? & ? & ? & ?).
  pose proof (keepsBans_membersBan env).
  destruct ev as [ban|i| |ms]; simpl in *.
  - unfold_bot. preserves_go ltac:(auto).
  - apply String.eqb_neq in Hev.
    unfold interactionCreate. rewrite Hev.
    unfold_bot. preserves_go ltac:(auto).
  - done.
  - done.
Qed.

(** ** Only sync-tagged records are added *)

#[local] Instance appendsTagged_preorder : PreOrder appendsTagged.
Proof.
  split.
  - intros st g. exists []. by rewrite app_nil_r.
  - intros st1 st2 st3 H1 H2 g.
    destruct (H1 g) as (e1 & He1 & Ht1), (H2 g) as (e2 & He2 & Ht2).
    exists (e1 ++ e2). split; [by rewrite He2, He1, app_assoc|].
    by apply Forall_app.
Qed.

Lemma appendsTagged_bansOnly : bansOnly appendsTagged.
Proof.
  intros st st' Hb g. exists []. unfold bansOf. by rewrite Hb, app_nil_r.
Qed.

Lemma appendsTagged_membersBan env g u r :
  isSyncTagged (Some r) = true →
  preserves appendsTagged (membersBan env g u r).
Proof.
  intros Hr st g'. run_async. case_match; simpl.
  { exists []. by rewrite app_nil_r. }
  unfold recordBan, bansOf. simpl. case_match; simpl.
  { exists []. by rewrite app_nil_r. }
  destruct (decide (g = g')) as [->|Hne].
  - rewrite lookup_total_insert_eq. eexists [_]. split; [done|].
    by repeat constructor.
  - rewrite lookup_total_insert_ne by done. exists []. by rewrite app_nil_r.
Qed.

Lemma appendsTagged_handle env ev :
  notUnban ev → preserves appendsTagged (handle env ev).
Proof.
  intros Hev.
  destruct (quiet_calls env appendsTagged appendsTagged_bansOnly)
    as (? & ? & ? & ? & ? & ? & ? & ? & ? & ?).
  pose proof (appendsTagged_membersBan env) as Hban.
  destruct ev as [ban|i| |ms]; simpl in *.
  - unfold_bot. preserves_go ltac:(auto using eventSyncReason_tagged).
  - apply String.eqb_neq in Hev.
    unfold interactionCreate. rewrite Hev.
    unfold_bot. preserves_go ltac:(auto using syncReasonOf_tagged).
  - done.
  - done.
Qed.

(** ** What is called *)

#[local] Instance emits_preorder φ : PreOrder (emits φ).
Proof.
  split.
  - intros st. by exists [].
  - intros st1 st2 st3 (a1 & He1 & Hf1) (a2 & He2 & Hf2).
    exists (a2 ++ a1). split; [by eapply emitted_trans | by apply Forall_app].
Qed.

Lemma emits_calls env φ :
  (∀ e, φ e → preserves (emits φ) (emit e))
  ∧ (∀ ms, preserves (emits φ) (delay ms))
  ∧ (∀ g, φ (MembersFetchMe g) → preserves (emits φ) (membersFetchMe env g))
  ∧ (∀ g u, φ (BansFetch g u) → preserves (emits φ) (bansFetch env g u))
  ∧ (∀ g, φ (BansFetchAll g) → preserves (emits φ) (bansFetchAll env g))
  ∧ (∀ g u r, φ (MembersBan g u r) →
       preserves (emits φ) (membersBan env g u r))
  ∧ (∀ g u r, φ (MembersUnban g u r) →
       preserves (emits φ) (membersUnban env g u r))
  ∧ (∀ u g, preserves (emits φ) (isBanProcessingNow u g))
  ∧ (∀ u g, preserves (emits φ) (markBanProcessingNow u g))
  ∧ (∀ u g, preserves (emits φ) (unmarkBanProcessingNow u g))
  ∧ preserves (emits φ) sweepNow.
Proof.
  repeat apply conj; unfold preserves; intros; run_async;
    repeat case_match; simpl;
    try (by exists []);
    try (eexists [_]; split; [done|]; by repeat constructor).
  - eexists [_]. split; [|by repeat constructor]. unfold emitted.
    match goal with
    | |- context [recordBan ?g ?u ?r ?t ?s] =>
        by destruct (recordBan_fields g u r t s) as (_ & _ & ->)
    end.
Qed.

Lemma markedWrite_handle env ev : preserves (emits markedWrite) (handle env ev).
Proof.
  destruct (emits_calls env markedWrite)
    as (? & ? & ? & ? & ? & ? & ? & ? & ? & ? & ?).
  destruct ev as [ban|i| |ms]; simpl; [| |done|done];
    unfold_bot; preserves_go ltac:(by_call).
Qed.

(** ** Events that cannot make the bot act *)


(** ** The records of other users *)

#[local] Instance framesBans_preorder P : PreOrder (framesBans P).
Proof.
  split.
  - by intros st g u.
  - intros st1 st2 st3 H1 H2 g u Hu. by rewrite H2, H1.
Qed.

Lemma framesBans_bansOnly P : bansOnly (framesBans P).
Proof. intros st st' Hb g u _. unfold bansOf. by rewrite Hb. Qed.

Lemma findBan_filter_other u u' l :
  u' ≠ u →
  findBan u' (List.filter (λ b, negb (String.eqb (ban_userId b) u)) l)
  = findBan u' l.
Proof.
  intros Hne. unfold findBan. induction l as [|b l IH]; simpl; [done|].
  destruct (String.eqb_spec (ban_userId b) u) as [Hb|Hb]; simpl.
  - rewrite IH. destruct (String.eqb_spec (ban_userId b) u'); congruence.
  - by rewrite IH.
Qed.

Lemma findBan_filter_self u l :
  findBan u (List.filter (λ b, negb (String.eqb (ban_userId b) u)) l) = None.
Proof.
  unfold findBan. induction l as [|b l IH]; simpl; [done|].
  destruct (String.eqb (ban_userId b) u) eqn:E; simpl; [done|].
  by rewrite E.
Qed.

Lemma framesBans_membersBan env (P : string → Prop) g u r :
  P u → preserves (framesBans P) (membersBan env g u r).
Proof.
  intros HP st g' u' Hu'. run_async. case_match; simpl; [done|].
  unfold recordBan, bansOf. simpl. case_match; simpl; [done|].
  destruct (decide (g = g')) as [->|Hne];
    [|by rewrite lookup_total_insert_ne].
  rewrite lookup_total_insert_eq, findBan_app.
  destruct (findBan u' (guildBans st !!! g')); [done|].
  unfold findBan. simpl.
  destruct (String.eqb_spec u u') as [->|]; [done|done].
Qed.

Lemma framesBans_membersUnban env (P : string → Prop) g u r :
  P u → preserves (framesBans P) (membersUnban env g u r).
Proof.
  intros HP st g' u' Hu'. run_async. repeat case_match; simpl; try done.
  unfold removeBan, bansOf. simpl.
  destruct (decide (g = g')) as [->|Hne];
    [|by rewrite lookup_total_insert_ne].
  rewrite lookup_total_insert_eq. apply findBan_filter_other.
  intros ->. done.
Qed.

(** ** Clock and lock table *)

#[local] Instance sameTime_preorder : PreOrder sameTime.
Proof.
  split.
  - by intros st.
  - intros st1 st2 st3 [Hc1 Hl1] [Hc2 Hl2]. split; congruence.
Qed.

Lemma sameTime_calls env :
  (∀ e, preserves sameTime (emit e))
  ∧ (∀ g, preserves sameTime (membersFetchMe env g))
  ∧ (∀ g u, preserves sameTime (bansFetch env g u))
  ∧ (∀ g, preserves sameTime (bansFetchAll env g))
  ∧ (∀ g u r, preserves sameTime (membersBan env g u r))
  ∧ (∀ g u r, preserves sameTime (membersUnban env g u r)).
Proof.
  repeat apply conj; unfold preserves; intros; run_async;
    repeat case_match; simpl; try done.
  match goal with
  | |- sameTime _ (recordBan ?g ?u ?r ?t ?s) =>
      by destruct (recordBan_fields g u r t s) as (? & ? & _)
  end.
Qed.

(** ** The union after the bot wrote *)

Lemma union_skips_tagged obs : ∀ allBans,
  foldl (λ acc p, addToUnion p.1 acc p.2) allBans obs
  = foldl (λ acc p, addToUnion p.1 acc p.2) allBans
      (List.filter (λ p, negb (isSyncTagged (ban_reason p.2))) obs).
Proof.
  induction obs as [|[cfg b] obs IH]; intros allBans; simpl; [done|].
  destruct (isSyncTagged (ban_reason b)) eqn:Htag; simpl.
  - rewrite <- IH. unfold addToUnion at 2. by rewrite Htag.
  - apply IH.
Qed.

Lemma filter_untagged_extra cfg (bans extra : list Ban) :
  Forall (λ b, isSyncTagged (ban_reason b) = true) extra →
  List.filter (λ p : ServerConfig * Ban, negb (isSyncTagged (ban_reason p.2)))
    (pair cfg <$> (bans ++ extra))
  = List.filter (λ p : ServerConfig * Ban, negb (isSyncTagged (ban_reason p.2)))
      (pair cfg <$> bans).
Proof.
  intros Hextra. rewrite fmap_app, List.filter_app.
  induction Hextra as [|b extra Hb _ IH]; csimpl; [by rewrite app_nil_r|].
  rewrite Hb. simpl. exact IH.
Qed.

Lemma observed_appendsTagged env st st' :
  appendsTagged st st' →
  List.filter (λ p, negb (isSyncTagged (ban_reason p.2))) (observed env st')
  = List.filter (λ p, negb (isSyncTagged (ban_reason p.2))) (observed env st).
Proof.
  intros Happ. unfold observed.
  induction (servers env) as [|cfg l IH]; simpl; [done|].
  rewrite !List.filter_app, IH. f_equal.
  unfold listedBy. destruct (guildCached env (server_id cfg)); [|done].
  destruct (bansListFault env (server_id cfg)); [done|].
  destruct (Happ (server_id cfg)) as (extra & -> & Hextra).
  by apply filter_untagged_extra.
Qed.

(** ** Relations kept by the event loop *)

Lemma handleAll_preserves env events (R : State → State → Prop) `{!PreOrder R} st :
  (∀ ev, ev ∈ events → preserves R (handle env ev)) →
  R st (handleAll env events st).2.
Proof.
  intros Hev.
  apply (preserves_foldEach R (λ _ ev, handle env ev) events
           (λ _ ev Hin, Hev ev Hin) tt st).
Qed.

(** ** Results and servers, one to one *)

Lemma runs_fmap {A B C} (P : A → State → B → State → Prop)
    (f : B → C) (h : A → C) l st rs st' :
  (∀ x s r s', P x s r s' → f r = h x) →
  runs P l st rs st' → f <$> rs = h <$> l.
Proof.
  intros Hstep. induction 1 as [|x l s r s1 rs s2 HP _ IH]; csimpl; [done|].
  by rewrite IH, (Hstep _ _ _ _ HP).
Qed.

Lemma syncStep_pushed env banInfo cfg st r st' :
  syncStep env banInfo cfg st r st' → pushed cfg r.
Proof.
  unfold syncStep. case_match; [apply banInGuildCase_pushed|].
  intros [-> _]. constructor.
Qed.

Lemma unbanStep_names env u reason requester cfg st r st' :
  unbanStep env u reason requester cfg st r st' →
  UnbanResult.serverId r = server_id cfg
  ∧ UnbanResult.serverName r = server_name cfg.
Proof. by destruct 1. Qed.

(** ** Tokens and bans *)

Lemma getBanKey_guild u g g' : getBanKey u g = getBanKey u g' → g = g'.
Proof.
  unfold getBanKey. induction u as [|c u IH]; simpl.
  - intros [= H]. exact H.
  - intros [= H]. by apply IH.
Qed.

Lemma recordBan_findBan_is_Some g u r tag st :
  is_Some (findBan u (bansOf (recordBan g u r tag st) g)).
Proof.
  destruct (findBan u (bansOf st g)) as [b|] eqn:Hb.
  - exists b. by apply recordBan_findBan_stable.
  - eexists. by apply recordBan_findBan_new.
Qed.

(** The block keeps the link between live tokens and bans. *)
Lemma banInGuildCase_tokensOfBanned env u reason cfg st r st' :
  banInGuildCase env u reason cfg st r st' →
  tokensOfBanned u st → tokensOfBanned u st'.
Proof.
  intros Hcase Hinv g' Hlive.
  assert (Hold : ∀ ts, processingBans st !! getBanKey u g' = Some ts →
            ts ≠ 0 → clock st - ts ≤ BAN_PROCESSING_TIMEOUT →
            is_Some (findBan u (bansOf st' g'))).
  { intros ts Hts Hz Hage.
    destruct (Hinv g') as [b Hb]; [apply isBanProcessing_true; eauto|].
    exists b. by eapply banInGuildCase_findBan_stable. }
  apply isBanProcessing_true in Hlive as (ts & Hts & Hz & Hage).
  destruct Hcase as [e Hm|Hm|b Hm Hf Hb|Hm Hn Hp|e Hm Hn Hp Hb|Hm Hn Hp Hb];
    simpl in *.
  - unfold unmarkBanProcessing in Hts.
    apply lookup_delete_Some in Hts as [_ Hts]. eauto.
  - eauto.
  - eauto.
  - eauto.
  - unfold unmarkBanProcessing, markBanProcessing in Hts.
    apply lookup_delete_Some in Hts as [Hne Hts].
    rewrite lookup_insert_ne in Hts by done.
    destruct (isBanProcessing_lookup (clock st) u (server_id cfg)
                (processingBans st) (getBanKey u g')) as [Heq|(_ & Heq & _)];
      rewrite Heq in Hts; [eauto | done].
  - unfold markBanProcessing in Hts.
    destruct (decide (getBanKey u (server_id cfg) = getBanKey u g'))
      as [Hk|Hk].
    + apply getBanKey_guild in Hk as <-.
      pose proof (recordBan_findBan_is_Some (server_id cfg) u reason
                    (tagOf env u) st) as Hsome.
      unfold bansOf in *. done.
    + rewrite lookup_insert_ne in Hts by done.
      destruct (isBanProcessing_lookup (clock st) u (server_id cfg)
                  (processingBans st) (getBanKey u g')) as [Heq|(_ & Heq & _)];
        rewrite Heq in Hts; [|done].
      eapply Hold; [done|done|]. unfold BAN_DELAY_MS in *. lia.
Qed.

(** On a guild that answers, under that link, the block ends with the
    user on the list and reports no failure. *)
Lemma banInGuildCase_cooperative env u reason cfg st r st' :
  banInGuildCase env u reason cfg st r st' →
  cooperative env u cfg → tokensOfBanned u st →
  is_Some (findBan u (bansOf st' (server_id cfg)))
  ∧ BanResult.success r = true.
Proof.
  intros Hcase (Hc & Hm & Hf & Hb) Hinv.
  destruct Hcase as [e Hm'|Hm'|b _ _ Hfound|_ Hn Hp|e _ _ _ Hb'|_ _ _ _];
    try congruence.
  - split; [|done]. by exists b.
  - destruct Hn as [[e He]|Hn]; [congruence|].
    destruct (Hinv _ Hp) as [b Hfound]. congruence.
  - split; [|done].
    pose proof (recordBan_findBan_is_Some (server_id cfg) u reason
                  (tagOf env u) st) as Hsome.
    unfold bansOf in *. done.
Qed.

Lemma is_Some_findBan_stable_sync env banInfo l st rs st' g u :
  runs (syncStep env banInfo) l st rs st' →
  is_Some (findBan u (bansOf st g)) → is_Some (findBan u (bansOf st' g)).
Proof.
  intros Hruns.
  apply (runs_invariant _ (λ s, is_Some (findBan u (bansOf s g)))
           _ _ _ _) with (2 := Hruns).
  intros x s r s' HP [b Hb]. exists b. by eapply syncStep_findBan_stable.
Qed.


(** The loop of [syncBanToAllServers] over guilds that answer. *)
Lemma runs_sync_complete env banInfo l st rs st' :
  runs (syncStep env banInfo) l st rs st' →
  Forall (cooperative env (userId banInfo)) l →
  tokensOfBanned (userId banInfo) st →
  tokensOfBanned (userId banInfo) st'
  ∧ Forall (λ cfg, is_Some (findBan (userId banInfo)
                              (bansOf st' (server_id cfg)))) l
  ∧ Forall (λ r, BanResult.success r = true) rs.
Proof.
  induction 1 as [st|x l st r st1 rs st2 HP Hruns IH]; intros Hco Hinv.
  { by repeat split. }
  apply Forall_cons in Hco as [Hx Hl].
  pose proof Hx as (Hc & _). unfold syncStep in HP. rewrite Hc in HP.
  destruct (banInGuildCase_cooperative _ _ _ _ _ _ _ HP Hx Hinv) as [Hb Hr].
  apply banInGuildCase_tokensOfBanned in HP as Hinv1; [|done].
  destruct (IH Hl Hinv1) as (Hinv2 & Hall & Hrs).
  split; [done|]. split; constructor; try done.
  by eapply is_Some_findBan_stable_sync.
Qed.


Lemma tokensOfBanned_none u st :
  (∀ g, processingBans st !! getBanKey u g = None) → tokensOfBanned u st.
Proof.
  intros Hnone g Hlive.
  apply isBanProcessing_true in Hlive as (ts & Hts & _). by rewrite Hnone in Hts.
Qed.

(** ** The second run *)

(** An entry reported as applied: its guild answered and now lists the
    user. *)
Lemma runs_sync_applied env banInfo l st rs st' i cfg :
  runs (syncStep env banInfo) l st rs st' →
  l !! i = Some cfg → rs !! i = Some (banApplied cfg) →
  guildCached env (server_id cfg) = true
  ∧ botMember env (server_id cfg) = inr true
  ∧ is_Some (findBan (userId banInfo) (bansOf st' (server_id cfg))).
Proof.
  intros Hruns. revert i.
  induction Hruns as [st|x l st r st1 rs st2 HP Hruns IH]; intros i Hi Hr.
  { by rewrite lookup_nil in Hi. }
  destruct i as [|i]; simpl in *; [|by eapply IH].
  injection Hi as ->. injection Hr as ->.
  assert (guildCached env (server_id cfg) = true
          ∧ botMember env (server_id cfg) = inr true
          ∧ is_Some (findBan (userId banInfo) (bansOf st1 (server_id cfg))))
    as (Hc & Hm & Hb).
  { unfold syncStep in HP.
    destruct (guildCached env (server_id cfg)); [|by destruct HP].
    inversion HP; subst; try done.
    repeat split; try done.
    pose proof (recordBan_findBan_is_Some (server_id cfg) (userId banInfo)
                  (syncReasonOf banInfo) (tagOf env (userId banInfo)) st)
      as Hsome.
    unfold bansOf in *. done. }
  repeat split; try done. by eapply is_Some_findBan_stable_sync.
Qed.

(** An entry whose guild already lists the user is reported as already
    banned. *)
Lemma runs_sync_banned env banInfo l st rs st' i cfg :
  runs (syncStep env banInfo) l st rs st' →
  is_Some (findBan (userId banInfo) (bansOf st (server_id cfg))) →
  guildCached env (server_id cfg) = true →
  botMember env (server_id cfg) = inr true →
  bansFetchFault env (server_id cfg) (userId banInfo) = None →
  l !! i = Some cfg → rs !! i = Some (banAlready cfg).
Proof.
  intros Hruns Hb Hc Hm Hf Hi.
  set (Inv := λ s : State,
         is_Some (findBan (userId banInfo) (bansOf s (server_id cfg)))).
  assert (Hpres : ∀ x s r s', syncStep env banInfo x s r s' → Inv s → Inv s').
  { intros x s r s' HP [b' Hb']. exists b'.
    by eapply syncStep_findBan_stable. }
  destruct (runs_invariant _ Inv _ _ _ _ Hpres Hruns Hb) as [_ Hat].
  destruct (Hat i cfg Hi) as (s & r & s' & [b' Hb'] & HP & ->).
  by destruct (syncStep_banned _ _ _ _ _ _ _ HP Hc Hm Hf Hb') as (-> & _).
Qed.

(** ** The retraction loop over guilds that answer *)

Lemma runs_unban_complete env u reason requester l st rs st' :
  runs (unbanStep env u reason requester) l st rs st' →
  Forall (cooperativeUnban env u) l →
  Forall (λ cfg, findBan u (bansOf st' (server_id cfg)) = None) l
  ∧ Forall (λ r, UnbanResult.success r = true) rs.
Proof.
  induction 1 as [st|x l st r st1 rs st2 HP Hruns IH]; intros Hco.
  { by split. }
  apply Forall_cons in Hco as [(Hc & Hm & Hf & Hu) Hl].
  destruct (IH Hl) as [Hall Hrs].
  assert (findBan u (bansOf st1 (server_id x)) = None
          ∧ UnbanResult.success r = true) as [Hnone Hr].
  { destruct HP as [Hc'|e _ Hm'|_ Hm'|_ _ Hn|b e _ _ _ _ Hu'|b _ _ _ _ _];
      try congruence.
    - split; [|done]. destruct Hn as [[e He]|Hn]; [congruence|].
      unfold bansOf in *. done.
    - split; [|done]. unfold removeBan, bansOf. simpl.
      rewrite lookup_total_insert_eq. apply findBan_filter_self. }
  split; constructor; try done.
  clear -Hruns Hnone.
  induction Hruns as [|y l s r s1 rs s2 HP _ IH]; [done|].
  apply IH. by eapply unbanStep_findBan_None.
Qed.

(** ** A ban event that passes the guard *)



(** ** The first version of the listener *)

Lemma legacy_banAddToServer_step env ban name cfg st :
  ∃ r st' added,
    Legacy.banAddToServer env ban name cfg st = (Ok r, st')
    ∧ emitted st st' added
    ∧ Forall (legacyCall env ban name) added.
Proof.
  unfold Legacy.banAddToServer.
  destruct (guildCached env (server_id cfg)) eqn:Hc; simpl;
    [|by eexists _, _, []].
  destruct (String.eqb (server_id cfg) (ev_guildId ban)) eqn:Hsrc; simpl;
    [by eexists _, _, []|].
  apply String.eqb_neq in Hsrc.
  run_async. unfold emitted.
  destruct (isMember env (server_id cfg) (ev_userId ban)) eqn:Hm; simpl;
    [|eexists _, _, [_]; by repeat constructor].
  destruct (bansFetchFault env (server_id cfg) (ev_userId ban)); simpl.
  - destruct (banFault env (server_id cfg) (ev_userId ban)); simpl.
    + eexists _, _, [_; _; _]. by repeat constructor.
    + eexists _, _, [_; _; _].
      destruct (recordBan_fields (server_id cfg) (ev_userId ban)
                  ("Ban sync from " +:+ name) (tagOf env (ev_userId ban))
                  (mkState (clock st) (processingBans st) (guildBans st)
                     (MembersBan (server_id cfg) (ev_userId ban)
                        ("Ban sync from " +:+ name)
                      :: BansFetch (server_id cfg) (ev_userId ban)
                      :: MembersFetch (server_id cfg) (ev_userId ban)
                      :: trace st))) as (_ & _ & Ht).
      split; [reflexivity|]. split; [exact Ht|]. by repeat constructor.
  - unfold bansOf. simpl.
    destruct (findBan (ev_userId ban) (guildBans st !!! server_id cfg)); simpl.
    + eexists _, _, [_; _]. by repeat constructor.
    + destruct (banFault env (server_id cfg) (ev_userId ban)); simpl.
      * eexists _, _, [_; _; _]. by repeat constructor.
      * eexists _, _, [_; _; _].
        destruct (recordBan_fields (server_id cfg) (ev_userId ban)
                    ("Ban sync from " +:+ name) (tagOf env (ev_userId ban))
                    (mkState (clock st) (processingBans st) (guildBans st)
                       (MembersBan (server_id cfg) (ev_userId ban)
                          ("Ban sync from " +:+ name)
                        :: BansFetch (server_id cfg) (ev_userId ban)
                        :: MembersFetch (server_id cfg) (ev_userId ban)
                        :: trace st))) as (_ & _ & Ht).
        split; [reflexivity|]. split; [exact Ht|]. by repeat constructor.
Qed.

(** ** The pass of [handleSyncCommand] over the union *)

(** A run of the propagation loop takes [BAN_DELAY_MS] for every ban it
    applies, and no other time. *)
Lemma syncStep_clock env banInfo cfg st r st' :
  syncStep env banInfo cfg st r st' →
  clock st' = clock st + (if isSynced r then BAN_DELAY_MS else 0).
Proof.
  unfold syncStep. destruct (guildCached env (server_id cfg));
    [|intros [-> ->]; simpl; lia].
  destruct 1; simpl; lia.
Qed.

Lemma runs_sync_clock env banInfo l st rs st' :
  runs (syncStep env banInfo) l st rs st' →
  clock st' = clock st + BAN_DELAY_MS * Z.of_nat (countIf isSynced rs).
Proof.
  unfold countIf.
  induction 1 as [st|x l st r st1 rs st2 HP _ IH]; simpl; [lia|].
  rewrite IH, (syncStep_clock _ _ _ _ _ _ HP).
  destruct (isSynced r); simpl; lia.
Qed.

Lemma syncBanToAllServers_quiet env banInfo :
  preserves (emits (λ e, isPublish e = false))
    (syncBanToAllServers env banInfo).
Proof.
  destruct (emits_calls env (λ e, isPublish e = false))
    as (? & ? & ? & ? & ? & ? & ? & ? & ? & ? & ?).
  unfold_bot. preserves_go ltac:(by_call).
Qed.

Lemma countResult_fields stats r :
  SyncStats.totalBans (countResult stats r) = SyncStats.totalBans stats
  ∧ SyncStats.details (countResult stats r) = SyncStats.details stats.
Proof. unfold countResult. by repeat case_match. Qed.

Lemma foldl_countResult_fields rs : ∀ stats,
  SyncStats.totalBans (foldl countResult stats rs) = SyncStats.totalBans stats
  ∧ SyncStats.details (foldl countResult stats rs) = SyncStats.details stats.
Proof.
  induction rs as [|r rs IH]; intros stats; simpl; [done|].
  destruct (IH (countResult stats r)) as [-> ->]. apply countResult_fields.
Qed.

Lemma foldl_countResult_newBans rs : ∀ stats,
  SyncStats.newBans (foldl countResult stats rs)
  = (countIf isSynced rs + SyncStats.newBans stats)%nat.
Proof.
  unfold countIf.
  induction rs as [|r rs IH]; intros stats; simpl; [done|].
  rewrite IH. unfold countResult, isSynced.
  destruct (BanResult.success r && negb (BanResult.alreadyBanned r)); simpl;
    [lia|].
  repeat case_match; simpl; lia.
Qed.

Lemma foldl_countResult_le rs : ∀ stats,
  (counted (foldl countResult stats rs) ≤ counted stats + length rs)%nat.
Proof.
  induction rs as [|r rs IH]; intros stats; simpl; [lia|].
  specialize (IH (countResult stats r)). rewrite countResult_counted in IH.
  destruct (isSynced r || isAlreadyBanned r
            || isFailure r && truthy (BanResult.error r)); lia.
Qed.

(** One entry of the union: the results of its propagation enter the
    statistics, a progress reply goes out at every fifth entry, and the
    pass waits [BAN_DELAY_MS]. *)
Lemma syncOne_run env total acc entry st :
  ∃ results st1 st' quiet,
    syncBanToAllServers env entry.2 st = (Ok results, st1)
    ∧ syncOne env total acc entry st
      = (Ok (foldl countResult
               (recordSynced acc.1 entry.1 entry.2 results) results,
             S acc.2), st')
    ∧ clock st' = clock st
                  + BAN_DELAY_MS * Z.of_nat (S (countIf isSynced results))
    ∧ Forall (λ e, isPublish e = false) quiet
    ∧ emitted st st'
        ((if (S acc.2 mod 5 =? 0)%nat
          then [InteractionReply (SyncProgress (S acc.2) total)] else [])
         ++ quiet).
Proof.
  destruct (syncBanToAllServers_runs env entry.2 st)
    as (results & st1 & Hrun & Hruns).
  apply runs_sync_clock in Hruns as Hclock.
  destruct (syncBanToAllServers_quiet env entry.2 st) as (quiet & Hem & Hq).
  rewrite Hrun in Hem. simpl in Hem. unfold emitted in *.
  unfold syncOne. unfold mbind at 1, Async_bind at 1. rewrite Hrun.
  destruct (S acc.2 mod 5 =? 0)%nat; run_async;
    eexists results, st1, _, quiet; repeat split; try done; simpl;
      rewrite ?Hclock, ?Hem; try done; unfold BAN_DELAY_MS; lia.
Qed.

Lemma syncLoop_run env total l : ∀ acc st,
  NoDup ((SyncStats.details acc.1).*1 ++ l.*1) →
  ∃ acc' st' added,
    foldEach (syncOne env total) acc l st = (Ok acc', st')
    ∧ SyncStats.totalBans acc'.1
      = (SyncStats.totalBans acc.1 + length l)%nat
    ∧ (SyncStats.details acc'.1).*1 = (SyncStats.details acc.1).*1 ++ l.*1
    ∧ (counted acc'.1 ≤ counted acc.1 + length l * length (servers env))%nat
    ∧ (messagesNonEmpty env →
       counted acc'.1
       = (counted acc.1 + length l * length (servers env))%nat)
    ∧ clock st' + BAN_DELAY_MS * Z.of_nat (SyncStats.newBans acc.1)
      = clock st + BAN_DELAY_MS
                   * Z.of_nat (length l + SyncStats.newBans acc'.1)
    ∧ emitted st st' added
    ∧ (∀ e, e ∈ added → isPublish e = true →
            progressOf total acc.2 (acc.2 + length l) e)
    ∧ (∀ e, progressOf total acc.2 (acc.2 + length l) e → e ∈ added).
Proof.
  induction l as [|entry l IH]; intros acc st Hnd; simpl.
  { exists acc, st, []. repeat split; try done; try lia.
    - by rewrite app_nil_r.
    - intros e He. by apply elem_of_nil in He.
    - intros e (k & _ & Hk & _). lia. }
  destruct (syncOne_run env total acc entry st)
    as (results & st1 & st2 & quiet & Hsync & Hone & Hclock & Hquiet & Hem).
  set (stats := foldl countResult
                  (recordSynced acc.1 entry.1 entry.2 results) results) in *.
  destruct (foldl_countResult_fields results
              (recordSynced acc.1 entry.1 entry.2 results)) as [Htotal Hdetails].
  fold stats in Htotal, Hdetails. simpl in Htotal, Hdetails.
  assert (Hfresh : entry.1 ∉ (SyncStats.details acc.1).*1).
  { apply NoDup_app in Hnd as (_ & Hdisj & _). intros Hin.
    apply (Hdisj _ Hin). simpl. apply list_elem_of_here. }
  assert (Hkeys : (SyncStats.details stats).*1
                  = (SyncStats.details acc.1).*1 ++ [entry.1]).
  { rewrite Hdetails. by apply mapSet_keys_fresh. }
  destruct (IH (stats, S acc.2) st2) as
    (acc' & st' & added & Hloop & Ht' & Hd' & Hle & Heq & Hc' & Hem' & Hpub & Hall).
  { simpl. rewrite Hkeys, <- app_assoc. done. }
  simpl in *.
  assert (Hlen : length results = length (servers env)).
  { destruct (syncBanToAllServers_runs env entry.2 st)
      as (rs & s & Hrun & Hruns).
    rewrite Hsync in Hrun. injection Hrun as <- <-. by eapply runs_length. }
  pose proof (foldl_countResult_le results
                (recordSynced acc.1 entry.1 entry.2 results)) as Hcount.
  fold stats in Hcount.
  assert (Hrec : counted (recordSynced acc.1 entry.1 entry.2 results)
                 = counted acc.1) by done.
  exists acc', st', (added ++ (if (S acc.2 mod 5 =? 0)%nat
                               then [InteractionReply (SyncProgress (S acc.2) total)]
                               else []) ++ quiet).
  unfold mbind, Async_bind. rewrite Hone.
  split; [done|]. split; [lia|].
  split; [by rewrite Hd', Hkeys, <- app_assoc|].
  split; [lia|].
  split.
  { intros Hmsg. rewrite (Heq Hmsg). unfold stats.
    rewrite (sync_counters_partition env entry.2 st results st1 _ Hmsg Hsync).
    lia. }
  split.
  { pose proof (foldl_countResult_newBans results
                  (recordSynced acc.1 entry.1 entry.2 results)) as Hnew.
    fold stats in Hnew. simpl in Hnew. unfold BAN_DELAY_MS in *. lia. }
  split; [by eapply emitted_trans|].
  split.
  - intros e Hin Hp.
    apply elem_of_app in Hin as [Hin|Hin].
    { destruct (Hpub e Hin Hp) as (k & -> & Hk & Hmod).
      exists k. split; [done|]. split; [lia|done]. }
    apply elem_of_app in Hin as [Hin|Hin].
    + destruct (Nat.eqb_spec (S acc.2 mod 5) 0) as [Hmod|]; [|by apply elem_of_nil in Hin].
      apply list_elem_of_singleton in Hin as ->.
      exists (S acc.2). split; [done|]. split; [lia|done].
    + rewrite Forall_forall in Hquiet. specialize (Hquiet e Hin). congruence.
  - intros e (k & -> & Hk & Hmod).
    destruct (decide (k = S acc.2)) as [->|Hne].
    + apply elem_of_app. right. apply elem_of_app. left.
      apply Nat.eqb_eq in Hmod. rewrite Hmod. apply list_elem_of_here.
    + apply elem_of_app. left. apply Hall. exists k.
      split; [done|]. split; [lia|done].
Qed.

(** The collecting loops leave clock and lock table alone, and what they
    collect depends on the ban lists only. *)
Lemma collectAllBans_sameTime env : preserves sameTime (collectAllBans env).
Proof.
  destruct (sameTime_calls env) as (? & ? & ? & ? & ? & ?).
  unfold_bot. preserves_go ltac:(by_call).
Qed.

Lemma collectAllBans_after env st st0 allBans :
  guildBans st0 = guildBans st →
  (collectAllBans env st).1 = Ok allBans →
  ∃ st1 reads,
    collectAllBans env st0 = (Ok allBans, st1)
    ∧ guildBans st1 = guildBans st
    ∧ sameTime st0 st1
    ∧ emitted st0 st1 reads ∧ Forall silent reads
    ∧ NoDup allBans.*1.
Proof.
  intros Hbans Hunion.
  destruct (collectAllBans_run env st) as (s & a & Hrun & _).
  rewrite Hrun in Hunion. injection Hunion as <-.
  destruct (collectAllBans_run env st0) as (st1 & reads & Hrun0 & Hb & Hem & Hs).
  pose proof (collectAllBans_sameTime env st0) as Htime.
  rewrite Hrun0 in Htime. simpl in Htime.
  rewrite (observed_guildBans env st st0 Hbans) in Hrun0.
  exists st1, reads. repeat split; try done; try congruence; try apply Htime.
  by destruct (union_fold (observed env st) [] unionWf_nil) as [[? _] _].
Qed.

Lemma union_of_tagged obs : ∀ allBans,
  Forall (λ p : ServerConfig * Ban, isSyncTagged (ban_reason p.2) = true) obs →
  foldl (λ acc p, addToUnion p.1 acc p.2) allBans obs = allBans.
Proof.
  induction obs as [|[cfg b] obs IH]; intros allBans Hall; simpl; [done|].
  apply Forall_cons in Hall as [Htag Hall]. simpl in Htag.
  unfold addToUnion at 2. rewrite Htag. by apply IH.
Qed.

(** ** Computations that cannot tell related states apart *)

Section Respects.
Context (R : State → State → Prop).

Lemma respects_ret {A} (a : A) : respects R (mret a).
Proof. by intros st st' H. Qed.

Lemma respects_throw {A} e : respects R (@throw A e).
Proof. by intros st st' H. Qed.

Lemma respects_bind {A B} (c : Async A) (f : A → Async B) :
  respects R c → (∀ a, respects R (f a)) → respects R (c ≫= f).
Proof.
  intros Hc Hf st st' H. unfold mbind, Async_bind.
  destruct (Hc st st' H) as [Hr Hs].
  destruct (c st) as [[a|e] st1], (c st') as [[a'|e'] st1'];
    simpl in *; try discriminate.
  - injection Hr as <-. by apply Hf.
  - by injection Hr as <-.
Qed.

Lemma respects_tryCatch {A} (body : Async A) handler :
  respects R body → (∀ e, respects R (handler e)) →
  respects R (tryCatch body handler).
Proof.
  intros Hc Hh st st' H. unfold tryCatch.
  destruct (Hc st st' H) as [Hr Hs].
  destruct (body st) as [[a|e] st1], (body st') as [[a'|e'] st1'];
    simpl in *; try discriminate.
  - by injection Hr as <-.
  - injection Hr as <-. by apply Hh.
Qed.

Lemma respects_catchNull {A} (c : Async A) :
  respects R c → respects R (catchNull c).
Proof.
  intros Hc. unfold catchNull. apply respects_tryCatch.
  - apply respects_bind; [done|]. intros a. apply respects_ret.
  - intros e. apply respects_ret.
Qed.

Lemma respects_forEach {A B} (f : A → Async B) l :
  (∀ x, respects R (f x)) → respects R (forEach f l).
Proof.
  intros Hf. induction l as [|x l IH]; simpl; [apply respects_ret|].
  apply respects_bind; [done|]. intros r.
  apply respects_bind; [done|]. intros rs. apply respects_ret.
Qed.

Lemma respects_foldEach {A B} (f : B → A → Async B) l :
  (∀ acc x, respects R (f acc x)) → ∀ acc, respects R (foldEach f acc l).
Proof.
  intros Hf. induction l as [|x l IH]; intros acc; simpl; [apply respects_ret|].
  apply respects_bind; [done|]. intros acc'. apply IH.
Qed.
End Respects.

Ltac respects_go prim :=
  cbv zeta;
  repeat first
    [ solve [prim]
    | apply respects_ret
    | apply respects_throw
    | apply respects_catchNull
    | apply respects_bind; [|intros ?]
    | apply respects_tryCatch; [|intros ?]
    | apply respects_forEach; intros ?
    | apply respects_foldEach; intros ? ?
    | match goal with
      | |- respects _ (if ?b then _ else _) => destruct b
      | |- respects _ (match ?o with _ => _ end) => destruct o
      end ].

Ltac by_respect :=
  idtac;
  match goal with
  | H : _ |- respects _ _ => apply H
  end.

(** ** The cleanup timer *)

Lemma swept_refl st : swept st st.
Proof. repeat split. by left. Qed.

Lemma swept_sweepNow st st' : swept st st' → swept (sweepNow st).2 st'.
Proof.
  intros (Hc & Hb & Ht & Hl). unfold sweepNow. simpl.
  repeat split; try done. intros k.
  destruct (Hl k) as [Heq|(Hnone & ts & Hsome & Hexp)].
  - destruct (processingBans st !! k) as [ts|] eqn:Hk.
    + destruct (decide (clock st - ts > BAN_PROCESSING_TIMEOUT)) as [Hexp|Hlive].
      * right. split.
        { apply map_lookup_filter_None. right. intros ts' Hk'. simpl.
          rewrite Hk in Hk'. injection Hk' as <-. auto. }
        exists ts. split; [done|]. by rewrite <- Hc.
      * left. rewrite <- Heq. apply map_lookup_filter_Some. by split.
    + left. rewrite <- Heq. apply map_lookup_filter_None. by left.
  - right. split; [|by exists ts].
    apply map_lookup_filter_None. by left.
Qed.

Lemma swept_calls env :
  (∀ e, respects swept (emit e))
  ∧ (∀ ms, 0 ≤ ms → respects swept (delay ms))
  ∧ (∀ g, respects swept (membersFetchMe env g))
  ∧ (∀ g u, respects swept (bansFetch env g u))
  ∧ (∀ g, respects swept (bansFetchAll env g))
  ∧ (∀ g u r, respects swept (membersBan env g u r))
  ∧ (∀ g u r, respects swept (membersUnban env g u r))
  ∧ (∀ u g, respects swept (markBanProcessingNow u g))
  ∧ (∀ u g, respects swept (unmarkBanProcessingNow u g)).
Proof.
  repeat apply conj; unfold respects;
    intros until st'; intros (Hc & Hb & Ht & Hl);
    destruct st as [c m b t], st' as [c' m' b' t']; simpl in *; subst c' b' t';
    run_async; unfold recordBan, removeBan, bansOf, setGuildBans; simpl;
    repeat case_match; simplify_eq/=; try (repeat split; done).
  - repeat split; try done. simpl. intros k.
    destruct (Hl k) as [?|(? & ts & ? & ?)]; [by left|].
    right. split; [done|]. exists ts. split; [done|lia].
  - repeat split; try done. simpl. intros k. unfold markBanProcessing.
    destruct (decide (k = getBanKey u g)) as [->|Hne].
    + left. by rewrite !lookup_insert_eq.
    + rewrite !lookup_insert_ne by done. apply Hl.
  - repeat split; try done. simpl. intros k. unfold unmarkBanProcessing.
    destruct (decide (k = getBanKey u g)) as [->|Hne].
    + left. by rewrite !lookup_delete_eq.
    + rewrite !lookup_delete_ne by done. apply Hl.
Qed.

Lemma swept_isBanProcessingNow u g : respects swept (isBanProcessingNow u g).
Proof.
  intros st st' (Hc & Hb & Ht & Hl).
  unfold isBanProcessingNow, isBanProcessing. simpl.
  set (key := getBanKey u g).
  assert (Hdel : swept (setProcessingBans (delete key (processingBans st)) st)
                   (setProcessingBans (delete key (processingBans st')) st')).
  { repeat split; try done. simpl. intros k.
    destruct (decide (k = key)) as [->|Hne].
    - left. by rewrite !lookup_delete_eq.
    - rewrite !lookup_delete_ne by done. apply Hl. }
  assert (Hsame : swept (setProcessingBans (processingBans st) st)
                    (setProcessingBans (processingBans st') st')).
  { by repeat split. }
  destruct (Hl key) as [Heq|(Hnone & ts & Hsome & Hexp)].
  - rewrite Heq, Hc.
    destruct (processingBans st' !! key) as [ts|]; simpl; [|done].
    destruct (ts =? 0); simpl; [done|].
    destruct (clock st' - ts >? BAN_PROCESSING_TIMEOUT); simpl; [|done].
    split; [done|]. exact Hdel.
  - rewrite Hnone, Hsome. simpl.
    destruct (ts =? 0); simpl; [done|].
    assert ((clock st' - ts >? BAN_PROCESSING_TIMEOUT) = true) as ->
      by (apply Z.gtb_lt; lia).
    simpl. split; [done|].
    repeat split; try done. simpl. intros k.
    destruct (decide (k = key)) as [->|Hne].
    + left. by rewrite lookup_delete_eq.
    + rewrite lookup_delete_ne by done. apply Hl.
Qed.

Lemma swept_handle env ev :
  notSweep ev = true → respects swept (handle env ev).
Proof.
  intros Hev.
  destruct (swept_calls env) as (? & Hdelay & ? & ? & ? & ? & ? & ? & ?).
  pose proof swept_isBanProcessingNow.
  assert (respects swept (delay BAN_DELAY_MS)) by (by apply Hdelay).
  destruct ev as [ban|i| |ms]; simpl; [| |done|apply Hdelay; lia];
    unfold_bot; respects_go ltac:(by_respect).
Qed.

Lemma swept_handleAll env events : ∀ st st',
  swept st st' →
  swept (handleAll env events st).2
    (handleAll env (List.filter notSweep events) st').2.
Proof.
  unfold handleAll.
  induction events as [|ev events IH]; intros st st' H; simpl; [done|].
  destruct (notSweep ev) eqn:Hev; simpl.
  - destruct (swept_handle env ev Hev st st' H) as [Hr Hs].
    unfold mbind, Async_bind.
    destruct (handle env ev st) as [[[]|e] st1],
             (handle env ev st') as [[[]|e'] st1']; simpl in *;
      try discriminate; [by apply IH | done].
  - destruct ev; try discriminate. simpl.
    unfold mbind, Async_bind. simpl.
    apply IH. by apply (swept_sweepNow st st').
Qed.

(** ** Keys of the lock table *)

Lemma getBanKey_inj u g u' g' :
  dashFree u → dashFree u' →
  getBanKey u g = getBanKey u' g' → u = u' ∧ g = g'.
Proof.
  unfold getBanKey, dashFree. revert u'.
  induction u as [|c u IH]; intros [|c' u'] Hu Hu'; simpl in *.
  - intros [= H]. by split.
  - intros [= <- _]. by apply Forall_cons in Hu' as [? _].
  - intros [= -> _]. by apply Forall_cons in Hu as [? _].
  - intros [= <- H].
    apply Forall_cons in Hu as [_ Hu]. apply Forall_cons in Hu' as [_ Hu'].
    destruct (IH u' Hu Hu' H) as [-> ->]. by split.
Qed.

(** An id that passes the format test of [/unban] has no dash. *)
Lemma userIdFormat_dashFree u : userIdFormat u = true → dashFree u.
Proof.
  unfold userIdFormat, dashFree. intros [Hd _]%andb_prop.
  induction (list_ascii_of_string u) as [|c l IH]; simpl in *; [done|].
  apply andb_prop in Hd as [Hc Hl].
  apply Forall_cons. split; [|by apply IH].
  intros ->. discriminate.
Qed.

Lemma isBanProcessing_same_lookup now u g m m' :
  m' !! getBanKey u g = m !! getBanKey u g →
  (isBanProcessing now u g m').1 = (isBanProcessing now u g m).1.
Proof.
  intros H. unfold isBanProcessing. rewrite H.
  by repeat case_match.
Qed.

(** ** The registry as a map *)

Lemma foldl_insert_last {V} (val : ServerConfig → V) l g : ∀ m : gmap string V,
  foldl (λ m s, <[server_id s := val s]> m) m l !! g
  = match last (List.filter (λ s, String.eqb (server_id s) g) l) with
    | Some s => Some (val s)
    | None => m !! g
    end.
Proof.
  induction l as [|s l IH]; intros m; simpl; [done|].
  rewrite IH.
  destruct (String.eqb_spec (server_id s) g) as [<-|Hne].
  - destruct (List.filter _ l) as [|s' l'] eqn:Hl; simpl.
    + by rewrite lookup_insert_eq.
    + destruct (last (s' :: l')) eqn:E; [done|]. by apply last_None in E.
  - destruct (last _); [done|]. by rewrite lookup_insert_ne.
Qed.

Lemma serverMap_lastEntry env g : serverMap env !! g = lastEntry env g.
Proof.
  unfold serverMap, lastEntry.
  rewrite (foldl_insert_last (λ s, s)). by destruct (last _).
Qed.

(** ** Handlers that return *)

Lemma returns_ret {A} (a : A) : returns (mret a).
Proof. intros st. by eexists _, _. Qed.

Lemma returns_bind {A B} (c : Async A) (f : A → Async B) :
  returns c → (∀ a, returns (f a)) → returns (c ≫= f).
Proof.
  intros Hc Hf st. destruct (Hc st) as (a & st1 & Hrun).
  unfold mbind, Async_bind. rewrite Hrun. apply Hf.
Qed.

(** A [try] whose [catch] block returns, returns: whatever the body
    throws. *)
Lemma returns_tryCatch {A} (body : Async A) handler :
  (∀ e, returns (handler e)) → returns (tryCatch body handler).
Proof.
  intros Hh st. unfold tryCatch.
  destruct (body st) as [[a|e] st1]; [by eexists _, _ | apply Hh].
Qed.

Lemma returns_forEach {A B} (f : A → Async B) l :
  (∀ x, returns (f x)) → returns (forEach f l).
Proof.
  intros Hf. induction l as [|x l IH]; simpl; [apply returns_ret|].
  apply returns_bind; [done|]. intros r.
  apply returns_bind; [done|]. intros rs. apply returns_ret.
Qed.

Lemma returns_foldEach {A B} (f : B → A → Async B) l :
  (∀ acc x, returns (f acc x)) → ∀ acc, returns (foldEach f acc l).
Proof.
  intros Hf. induction l as [|x l IH]; intros acc; simpl; [apply returns_ret|].
  apply returns_bind; [done|]. intros acc'. apply IH.
Qed.

Lemma returns_calls :
  (∀ e, returns (emit e))
  ∧ (∀ ms, returns (delay ms))
  ∧ (∀ u g, returns (isBanProcessingNow u g))
  ∧ (∀ u g, returns (markBanProcessingNow u g))
  ∧ (∀ u g, returns (unmarkBanProcessingNow u g))
  ∧ (∀ env g u, returns (Legacy.membersFetch env g u)).
Proof. repeat apply conj; intros; intros st; by eexists _, _. Qed.

Ltac returns_go :=
  cbv zeta; unfold catchNull;
  repeat first
    [ apply returns_ret
    | apply returns_tryCatch; intros ?
    | apply returns_forEach; intros ?
    | apply returns_foldEach; intros ? ?
    | apply returns_calls
    | apply returns_bind; [|intros ?]
    | match goal with
      | |- returns (if ?b then _ else _) => destruct b
      | |- returns (match ?o with _ => _ end) => destruct o
      end ].

(** ** The log channels *)

Lemma sendLog_cases env lenv g embed outbox :
  (sendLog env lenv g embed outbox = outbox
   ∧ ¬ (∃ ch, logChannelOf env lenv g ch ∧ sendFault lenv g ch = None))
  ∨ ∃ ch, logChannelOf env lenv g ch ∧ sendFault lenv g ch = None
          ∧ sendLog env lenv g embed outbox = mkDelivery g ch embed :: outbox.
Proof.
  unfold sendLog, logChannelOf. rewrite serverMap_lastEntry.
  destruct (lastEntry env g) as [cfg|] eqn:Hcfg;
    [|left; split; [done|]; by intros (? & (? & ? & ? & _) & _)].
  destruct (logChannelId cfg) as [[|a ch]|] eqn:Hch; simpl;
    [left; split; [done|];
     intros (? & (? & ? & [= <-] & ? & ? & _) & _); congruence
    | |left; split; [done|];
       intros (? & (? & ? & [= <-] & ? & ? & _) & _); congruence].
  destruct (guildCached env g) eqn:Hc; simpl;
    [|left; split; [done|];
      intros (? & (? & ? & _ & _ & _ & ? & _) & _); congruence].
  destruct (channelsFetch lenv g (String a ch)) as [e|[c|]] eqn:Hf;
    [left; split; [done|];
     intros (? & (? & ? & [= <-] & ? & ? & ? & ? & _) & _); congruence
    | |left; split; [done|];
       intros (? & (? & ? & [= <-] & ? & ? & ? & ? & _) & _); congruence].
  destruct (isTextBased c) eqn:Ht; simpl;
    [|left; split; [done|];
      intros (? & (? & ? & [= <-] & ? & ? & ? & ? & ? & _) & _); congruence].
  destruct (canSendMessages c) eqn:Hp; simpl;
    [|left; split; [done|];
      intros (? & (? & ? & [= <-] & ? & ? & ? & ? & ? & ?) & _); congruence].
  destruct (sendFault lenv g (String a ch)) eqn:Hs;
    [left; split; [done|];
     intros (? & (? & ? & [= <-] & ? & ? & ? & ? & ? & ?) & ?); congruence|].
  right. exists (String a ch). split; [|done].
  exists cfg, c. by repeat split.
Qed.

Lemma logChannelOf_unique env lenv g ch ch' :
  logChannelOf env lenv g ch → logChannelOf env lenv g ch' → ch = ch'.
Proof.
  intros (cfg & c & Hcfg & Hch & _) (cfg' & c' & Hcfg' & Hch' & _).
  congruence.
Qed.

Lemma sendLog_fold env lenv embed l : ∀ outbox,
  ∃ added,
    foldl (λ out server, sendLog env lenv (server_id server) embed out)
      outbox l = added ++ outbox
    ∧ Forall (λ d, delivered d = embed
                   ∧ to_guild d ∈ server_id <$> l
                   ∧ logChannelOf env lenv (to_guild d) (to_channel d)
                   ∧ sendFault lenv (to_guild d) (to_channel d) = None) added
    ∧ (∀ cfg ch, cfg ∈ l → logChannelOf env lenv (server_id cfg) ch →
                 sendFault lenv (server_id cfg) ch = None →
                 mkDelivery (server_id cfg) ch embed ∈ added)
    ∧ (length added ≤ length l)%nat.
Proof.
  induction l as [|cfg l IH]; intros outbox; simpl.
  { exists []. repeat split; [done| |done].
    intros cfg ch Hin. by apply elem_of_nil in Hin. }
  destruct (sendLog_cases env lenv (server_id cfg) embed outbox)
    as [[Hrun Hnot]|(ch0 & Hlog & Hsend & Hrun)]; rewrite Hrun.
  - destruct (IH outbox) as (added & Hfold & Hall & Hcomplete & Hlen).
    exists added. split; [done|]. split; [|split; [|lia]].
    + eapply Forall_impl; [exact Hall|]. intros d (? & Hin & ? & ?).
      repeat split; try done. csimpl. by apply list_elem_of_further.
    + intros cfg' ch Hin Hch Hs.
      apply elem_of_cons in Hin as [->|Hin]; [|by eapply Hcomplete].
      destruct Hnot. by exists ch.
  - destruct (IH (mkDelivery (server_id cfg) ch0 embed :: outbox))
      as (added & Hfold & Hall & Hcomplete & Hlen).
    exists (added ++ [mkDelivery (server_id cfg) ch0 embed]).
    split; [by rewrite <- app_assoc|]. split; [|split].
    + apply Forall_app. split.
      * eapply Forall_impl; [exact Hall|]. intros d (? & Hin & ? & ?).
        repeat split; try done. csimpl. by apply list_elem_of_further.
      * apply Forall_singleton. simpl. repeat split; try done.
        csimpl. apply list_elem_of_here.
    + intros cfg' ch Hin Hch Hs. apply elem_of_app.
      apply elem_of_cons in Hin as [->|Hin]; [|left; by eapply Hcomplete].
      right. rewrite (logChannelOf_unique _ _ _ _ _ Hch Hlog).
      apply list_elem_of_here.
    + rewrite length_app. simpl. lia.
Qed.


(** ** Convergence of the reconciliation pass *)

#[local] Instance tokensFrom_preorder u : PreOrder (tokensFrom u).
Proof.
  split.
  - intros st. split; [lia|]. split; [reflexivity|done].
  - intros st1 st2 st3 (Hc1 & Hb1 & Hl1) (Hc2 & Hb2 & Hl2).
    split; [lia|]. split; [by etrans|]. eauto.
Qed.

Lemma tokensFrom_sound u st st' :
  tokensFrom u st st' → tokensOfBanned u st → tokensOfBanned u st'.
Proof.
  intros (Hc & Hb & Hl) Hinv g Hlive.
  apply isBanProcessing_true in Hlive as (ts & Hts & Hz & Hage).
  destruct (Hinv g) as [b Hfound].
  { apply isBanProcessing_true. exists ts. repeat split; [eauto|done|lia]. }
  exists b. by apply Hb.
Qed.

Lemma tokensFrom_same u st st' :
  clock st ≤ clock st' → guildBans st' = guildBans st →
  processingBans st' = processingBans st → tokensFrom u st st'.
Proof.
  intros Hc Hb Hl. split; [done|]. split; [by apply keepsBans_bansOnly|].
  intros g ts. by rewrite Hl.
Qed.

Lemma tokensFrom_calls env u' :
  (∀ e, preserves (tokensFrom u') (emit e))
  ∧ preserves (tokensFrom u') (delay BAN_DELAY_MS)
  ∧ (∀ g, preserves (tokensFrom u') (membersFetchMe env g))
  ∧ (∀ g u, preserves (tokensFrom u') (bansFetch env g u))
  ∧ (∀ g u r, preserves (tokensFrom u') (membersBan env g u r))
  ∧ (∀ u g, preserves (tokensFrom u') (isBanProcessingNow u g))
  ∧ (∀ u g, preserves (tokensFrom u') (unmarkBanProcessingNow u g))
  ∧ (∀ u g, dashFree u → dashFree u' → u ≠ u' →
       preserves (tokensFrom u') (markBanProcessingNow u g)).
Proof.
  repeat apply conj; unfold preserves; intros.
  - by apply tokensFrom_same.
  - apply tokensFrom_same; simpl; [unfold BAN_DELAY_MS; lia|done|done].
  - run_async. repeat case_match; by apply tokensFrom_same.
  - run_async. repeat case_match; by apply tokensFrom_same.
  - pose proof (keepsBans_membersBan env g u r st) as Hk.
    revert Hk. run_async. repeat case_match; simpl; intros Hk;
      try (by apply tokensFrom_same).
    match goal with
    | |- tokensFrom _ _ (recordBan ?g ?u ?r ?t ?s) =>
        destruct (recordBan_fields g u r t s) as (Hc & Hl & _)
    end.
    split; [rewrite Hc; simpl; lia|]. split; [done|].
    intros g' ts. by rewrite Hl.
  - split; [simpl; lia|]. split; [by apply keepsBans_bansOnly|].
    simpl. intros g' ts Hts.
    destruct (isBanProcessing_lookup (clock st) u g (processingBans st)
                (getBanKey u' g')) as [Heq|(_ & Heq & _)];
      rewrite Heq in Hts; done.
  - split; [simpl; lia|]. split; [by apply keepsBans_bansOnly|].
    simpl. intros g' ts Hts. unfold unmarkBanProcessing in Hts.
    by apply lookup_delete_Some in Hts as [_ Hts].
  - split; [simpl; lia|]. split; [by apply keepsBans_bansOnly|].
    simpl. intros g' ts Hts. unfold markBanProcessing in Hts.
    rewrite lookup_insert_ne in Hts; [done|].
    intros Hk. by destruct (getBanKey_inj _ _ _ _ H H0 Hk).
Qed.

(** The propagation of one user's ban stores no token of another. *)
Lemma syncBanToAllServers_tokensFrom env banInfo u' :
  dashFree (userId banInfo) → dashFree u' → userId banInfo ≠ u' →
  preserves (tokensFrom u') (syncBanToAllServers env banInfo).
Proof.
  intros Hu Hu' Hne.
  destruct (tokensFrom_calls env u') as (? & ? & ? & ? & ? & ? & ? & Hmark).
  assert (∀ g, preserves (tokensFrom u')
                 (markBanProcessingNow (userId banInfo) g)) by auto.
  unfold_bot. preserves_go ltac:(by_call).
Qed.

Lemma syncOne_converges env total acc entry st :
  dashFree (userId entry.2) →
  Forall (cooperative env (userId entry.2)) (servers env) →
  tokensSound st →
  ∃ acc' st',
    syncOne env total acc entry st = (Ok acc', st')
    ∧ tokensSound st'
    ∧ keepsBans st st'
    ∧ bannedEverywhere env st' (userId entry.2).
Proof.
  intros Hu Hco Hinv.
  destruct (syncBanToAllServers_runs env entry.2 st)
    as (results & st1 & Hrun & Hruns).
  destruct (runs_sync_complete _ _ _ _ _ _ Hruns Hco (Hinv _ Hu))
    as (Hsame & Hall & _).
  assert (Hinv1 : tokensSound st1).
  { intros u' Hu'. destruct (decide (userId entry.2 = u')) as [<-|Hne]; [done|].
    pose proof (syncBanToAllServers_tokensFrom env entry.2 u' Hu Hu' Hne st)
      as Hfrom.
    rewrite Hrun in Hfrom. by eapply tokensFrom_sound; [exact Hfrom|apply Hinv]. }
  assert (Hkeep1 : keepsBans st st1).
  { intros g u b Hb.
    destruct (runs_invariant _ (λ s, findBan u (bansOf s g) = Some b)
                _ _ _ _
                (λ x s r s' HP, syncStep_findBan_stable _ _ _ _ _ _ g u b HP)
                Hruns Hb) as [Hend _].
    exact Hend. }
  unfold syncOne. unfold mbind at 1, Async_bind at 1. rewrite Hrun.
  set (tail := (if (S acc.2 mod 5 =? 0)%nat
                then emit (InteractionReply (SyncProgress (S acc.2) total))
                else mret ()) ≫= _).
  assert (Htail : ∀ u, preserves (tokensFrom u) tail).
  { intros u. destruct (tokensFrom_calls env u) as (? & ? & _).
    unfold tail. preserves_go ltac:(by_call). }
  assert (Hret : returns tail).
  { unfold tail. returns_go. }
  destruct (Hret st1) as (acc' & st' & Hrun').
  exists acc', st'. split; [done|].
  pose proof (λ u, Htail u st1) as Hfrom. rewrite Hrun' in Hfrom.
  simpl in Hfrom.
  split.
  { intros u Hdash. exact (tokensFrom_sound u st1 st' (Hfrom u) (Hinv1 u Hdash)). }
  destruct (Hfrom "") as (_ & Hkeep2 & _).
  split; [by etrans|].
  eapply Forall_impl; [exact Hall|]. intros cfg [b Hb]. exists b.
  by apply Hkeep2.
Qed.

Lemma syncLoop_converges env total l : ∀ acc st,
  Forall (λ entry : string * BanInfo, dashFree (userId entry.2)) l →
  (∀ u, Forall (cooperative env u) (servers env)) →
  tokensSound st →
  ∃ acc' st',
    foldEach (syncOne env total) acc l st = (Ok acc', st')
    ∧ tokensSound st'
    ∧ keepsBans st st'
    ∧ Forall (λ entry, bannedEverywhere env st' (userId entry.2)) l.
Proof.
  induction l as [|entry l IH]; intros acc st Hdash Hco Hinv; simpl.
  { exists acc, st. by repeat split. }
  apply Forall_cons in Hdash as [Hu Hdash].
  destruct (syncOne_converges env total acc entry st Hu (Hco _) Hinv)
    as (acc1 & st1 & Hrun1 & Hinv1 & Hkeep1 & Hall1).
  destruct (IH acc1 st1 Hdash Hco Hinv1)
    as (acc2 & st2 & Hrun2 & Hinv2 & Hkeep2 & Hall2).
  exists acc2, st2. unfold mbind, Async_bind. rewrite Hrun1.
  split; [done|]. split; [done|]. split; [by etrans|].
  apply Forall_cons. split; [|done].
  eapply Forall_impl; [exact Hall1|]. intros cfg [b Hb]. exists b.
  by apply Hkeep2.
Qed.

(** What the collecting loops visit, and what the union holds of it. *)
Lemma observed_elem env st cfg b :
  (cfg, b) ∈ observed env st →
  cfg ∈ servers env ∧ b ∈ bansOf st (server_id cfg).
Proof.
  unfold observed. rewrite list_elem_of_In, in_flat_map.
  intros (cfg' & Hin & Hb). apply list_elem_of_In in Hin, Hb.
  apply list_elem_of_fmap in Hb as (b' & [= -> ->] & Hb).
  split; [done|]. unfold listedBy in Hb.
  repeat case_match; try done; by apply elem_of_nil in Hb.
Qed.

Lemma observed_intro env st cfg b :
  cfg ∈ servers env → guildCached env (server_id cfg) = true →
  bansListFault env (server_id cfg) = None →
  b ∈ bansOf st (server_id cfg) → (cfg, b) ∈ observed env st.
Proof.
  intros Hin Hc Hf Hb. unfold observed.
  rewrite list_elem_of_In, in_flat_map. exists cfg.
  split; [by apply list_elem_of_In|]. apply list_elem_of_In.
  apply list_elem_of_fmap. exists b. split; [done|].
  unfold listedBy. by rewrite Hc, Hf.
Qed.

Lemma union_entries obs allBans :
  allBans = foldl (λ acc p, addToUnion p.1 acc p.2) [] obs →
  (∀ entry, entry ∈ allBans →
            ∃ p, p ∈ obs ∧ userId entry.2 = ban_userId p.2)
  ∧ (∀ p, p ∈ obs → isSyncTagged (ban_reason p.2) = false →
          ∃ entry, entry ∈ allBans ∧ userId entry.2 = ban_userId p.2).
Proof.
  intros ->.
  destruct (union_fold obs [] unionWf_nil) as [[Hnd _] Hget].
  split.
  - intros [k info] Hin.
    pose proof (mapGet_elem _ _ _ Hnd Hin) as Hk.
    rewrite Hget in Hk. simpl in Hk.
    destruct (firstUntagged k obs) as [p|] eqn:Hp; [|done].
    injection Hk as <-. apply find_some in Hp as [Hin' _].
    exists p. split; [by apply list_elem_of_In | done].
  - intros p Hin Htag.
    specialize (Hget (ban_userId p.2)). simpl in Hget.
    destruct (firstUntagged (ban_userId p.2) obs) as [q|] eqn:Hq.
    + apply find_some in Hq as [_ Hq].
      apply andb_prop in Hq as [_ Hq%String.eqb_eq].
      exists (ban_userId p.2, banInfoOf q.1 q.2).
      split; [by eapply mapGet_Some|done].
    + eapply find_none in Hq; [|by apply list_elem_of_In].
      simpl in Hq. by rewrite Htag, String.eqb_refl in Hq.
Qed.

(** ** The event loop as a whole *)

Lemma stateWf_bannedInA r : stateWf (bannedInA r).
Proof.
  split; [reflexivity|]. intros k ts Hk. simpl in Hk.
  by rewrite lookup_empty in Hk.
Qed.

(** X1.  When the clock and every stored stamp are after the epoch, every
    stamp stored after any sequence of events -- bans, commands, the
    cleanup timer, time going by -- is after the epoch too: the stamp
    [0], which the test [!timestamp] of [isBanProcessing] would take for
    a missing entry, is never stored. *)
Theorem stored_stamps_stay_positive (env : Env) (events : list Event)
    (st : State) :
  stateWf st →
  locks_wf (processingBans (handleAll env events st).2).
Proof.
  intros Hwf. destruct (advances_handleAll env events st) as [_ Hw].
  by destruct (Hw Hwf).
Qed.

Lemma stored_stamps_stay_positive_witness :
  locks_wf
    (processingBans
       (handleAll quietEnv banThenSweep (bannedInA (Some "spam"))).2).
Proof.
  apply (stored_stamps_stay_positive quietEnv banThenSweep
           (bannedInA (Some "spam"))).
  apply stateWf_bannedInA.
Defined.

(** X2.  As long as no unban command arrives, no recorded ban is removed
    or rewritten: a user found on a guild's ban list is still found
    there, with the same record, after any sequence of ban events, sync
    commands and timer ticks. *)
Theorem bans_never_lost (env : Env) (events : list Event) (st : State)
    (g u : string) (b : Ban) :
  Forall notUnban events →
  findBan u (bansOf st g) = Some b →
  findBan u (bansOf (handleAll env events st).2 g) = Some b.
Proof.
  intros Hev. revert g u b.
  change (keepsBans st (handleAll env events st).2).
  apply handleAll_preserves; [tc_solve|].
  intros ev Hin. apply keepsBans_handle.
  rewrite Forall_forall in Hev. by apply Hev.
Qed.

Lemma bans_never_lost_witness :
  findBan subjectU
    (bansOf (handleAll quietEnv banThenSweep (bannedInA (Some "spam"))).2
       (server_id guildA))
  = Some (mkBan subjectU "user#0001" (Some "spam")).
Proof.
  apply (bans_never_lost quietEnv banThenSweep (bannedInA (Some "spam"))).
  - repeat constructor.
  - reflexivity.
Defined.

(** X3.  Every ban the bot writes, whatever the events, carries a reason
    that starts with '[BanSync]', and every unban it writes a reason that
    starts with '[BanSync Unban]'. *)
Theorem writes_are_marked (env : Env) (events : list Event) (st : State) :
  ∃ added,
    emitted st (handleAll env events st).2 added ∧ Forall markedWrite added.
Proof.
  change (emits markedWrite st (handleAll env events st).2).
  apply handleAll_preserves; [tc_solve|].
  intros ev _. apply markedWrite_handle.
Qed.



(** X5.  What the bot writes never becomes an origin: after any sequence
    of ban events, sync commands and timer ticks (no unban command), a
    reconciliation pass collects the very union it would have collected
    before, entry for entry and in the same order. *)
Theorem bot_writes_never_become_origins (env : Env) (events : list Event)
    (st : State) :
  Forall notUnban events →
  (collectAllBans env (handleAll env events st).2).1
  = (collectAllBans env st).1.
Proof.
  intros Hev.
  assert (Happ : appendsTagged st (handleAll env events st).2).
  { apply handleAll_preserves; [tc_solve|].
    intros ev Hin. apply appendsTagged_handle.
    rewrite Forall_forall in Hev. by apply Hev. }
  destruct (collectAllBans_run env (handleAll env events st).2)
    as (s1 & a1 & -> & _).
  destruct (collectAllBans_run env st) as (s2 & a2 & -> & _).
  simpl. f_equal.
  rewrite union_skips_tagged, (union_skips_tagged (observed env st)).
  by rewrite (observed_appendsTagged env st).
Qed.

Lemma bot_writes_never_become_origins_witness :
  (collectAllBans quietEnv
     (handleAll quietEnv banThenSweep (bannedInA (Some "spam"))).2).1
  = (collectAllBans quietEnv (bannedInA (Some "spam"))).1.
Proof.
  apply (bot_writes_never_become_origins quietEnv banThenSweep
           (bannedInA (Some "spam"))).
  repeat constructor.
Defined.

(** ** What a command or an event touches *)

(** X6.  The unban command, whoever issues it and however it ends, leaves
    the clock and the lock table as they were, changes the record of no
    user but the one named in [user_id], writes no ban, and addresses its
    unban writes to that user only. *)
Theorem unban_command_frame (env : Env) (interaction : Interaction)
    (st : State) :
  clock (handleUnbanCommand env interaction st).2 = clock st
  ∧ processingBans (handleUnbanCommand env interaction st).2
    = processingBans st
  ∧ (∀ g u, u ≠ opt_user_id interaction →
       findBan u (bansOf (handleUnbanCommand env interaction st).2 g)
       = findBan u (bansOf st g))
  ∧ ∃ added,
      emitted st (handleUnbanCommand env interaction st).2 added
      ∧ Forall (unbanOf (opt_user_id interaction)) added.
Proof.
  assert (Htime : preserves sameTime (handleUnbanCommand env interaction)).
  { destruct (sameTime_calls env) as (? & ? & ? & ? & ? & ?).
    unfold_bot. preserves_go ltac:(by_call). }
  assert (Hframe : preserves (framesBans (λ u, u = opt_user_id interaction))
                     (handleUnbanCommand env interaction)).
  { destruct (quiet_calls env _ (framesBans_bansOnly
                (λ u, u = opt_user_id interaction)))
      as (? & ? & ? & ? & ? & ? & ? & ? & ? & ?).
    pose proof (framesBans_membersUnban env (λ u, u = opt_user_id interaction)).
    unfold_bot. preserves_go ltac:(by_call). }
  assert (Hcalls : preserves (emits (unbanOf (opt_user_id interaction)))
                     (handleUnbanCommand env interaction)).
  { destruct (emits_calls env (unbanOf (opt_user_id interaction)))
      as (? & ? & ? & ? & ? & ? & ? & ? & ? & ? & ?).
    unfold_bot. preserves_go ltac:(by_call). }
  destruct (Htime st) as [Hc Hl]. repeat split; try done.
  - intros g u Hu. by apply Hframe.
  - apply Hcalls.
Qed.

(** X7.  A ban event, however the listener ends, changes the record of no
    user but the banned one, removes or rewrites no record at all, writes
    no unban, and addresses its ban writes to that user only. *)
Theorem ban_event_frame (env : Env) (ban : BanEvent) (st : State) :
  (∀ g u, u ≠ ev_userId ban →
     findBan u (bansOf (guildBanAdd env ban st).2 g) = findBan u (bansOf st g))
  ∧ (∀ g u b, findBan u (bansOf st g) = Some b →
       findBan u (bansOf (guildBanAdd env ban st).2 g) = Some b)
  ∧ ∃ added,
      emitted st (guildBanAdd env ban st).2 added
      ∧ Forall (banOf (ev_userId ban)) added.
Proof.
  assert (Hframe : preserves (framesBans (λ u, u = ev_userId ban))
                     (guildBanAdd env ban)).
  { destruct (quiet_calls env _ (framesBans_bansOnly (λ u, u = ev_userId ban)))
      as (? & ? & ? & ? & ? & ? & ? & ? & ? & ?).
    pose proof (framesBans_membersBan env (λ u, u = ev_userId ban)).
    unfold_bot. preserves_go ltac:(by_call). }
  assert (Hkeep : preserves keepsBans (guildBanAdd env ban)).
  { destruct (quiet_calls env keepsBans keepsBans_bansOnly)
      as (? & ? & ? & ? & ? & ? & ? & ? & ? & ?).
    pose proof (keepsBans_membersBan env).
    unfold_bot. preserves_go ltac:(by_call). }
  assert (Hcalls : preserves (emits (banOf (ev_userId ban)))
                     (guildBanAdd env ban)).
  { destruct (emits_calls env (banOf (ev_userId ban)))
      as (? & ? & ? & ? & ? & ? & ? & ? & ? & ? & ?).
    unfold_bot. preserves_go ltac:(by_call). }
  repeat split.
  - intros g u Hu. by apply Hframe.
  - apply Hkeep.
  - apply Hcalls.
Qed.

(** ** The loops over the registry *)

(** X8.  Each of the three loops over the registry -- propagation of a
    sync, propagation of a ban event, retraction -- runs to its end
    whatever fails on the way, and pushes exactly one result per
    configured server, in registry order, under that server's id. *)
Theorem every_server_gets_one_result (env : Env) (st : State) :
  (∀ banInfo,
     ∃ results st',
       syncBanToAllServers env banInfo st = (Ok results, st')
       ∧ BanResult.serverId <$> results = server_id <$> servers env)
  ∧ (∀ ban sourceServer banReason,
       ∃ results st',
         banAddToAllServers env ban sourceServer banReason st
         = (Ok results, st')
         ∧ BanResult.serverId <$> results = server_id <$> servers env)
  ∧ (∀ userId reason requester,
       ∃ results st',
         unbanFromAllServers env userId reason requester st = (Ok results, st')
         ∧ UnbanResult.serverId <$> results = server_id <$> servers env).
Proof.
  repeat split.
  - intros banInfo.
    destruct (syncBanToAllServers_runs env banInfo st)
      as (results & st' & Hrun & Hruns).
    exists results, st'. split; [done|].
    eapply runs_fmap; [|exact Hruns].
    intros x s r s' HP. apply syncStep_pushed in HP. by destruct HP.
  - intros ban src reason.
    destruct (banAddToAllServers_runs env ban src reason st)
      as (results & st' & Hrun & Hruns).
    exists results, st'. split; [done|].
    eapply runs_fmap; [|exact Hruns].
    intros x s r s' HP. apply eventStep_pushed in HP. by destruct HP.
  - intros u reason requester.
    destruct (unbanFromAllServers_runs env u reason requester st)
      as (results & st' & Hrun & Hruns).
    exists results, st'. split; [done|].
    eapply runs_fmap; [|exact Hruns].
    intros x s r s' HP. by apply unbanStep_names in HP as [? _].
Qed.

(** X9.  When every configured guild answers the bot's calls for the
    user and no token of that user is stored, [syncBanToAllServers]
    leaves the user on the ban list of every configured guild and
    reports no failure. *)
Theorem sync_reaches_every_guild (env : Env) (banInfo : BanInfo) (st : State) :
  Forall (cooperative env (userId banInfo)) (servers env) →
  (∀ g, processingBans st !! getBanKey (userId banInfo) g = None) →
  ∃ results st',
    syncBanToAllServers env banInfo st = (Ok results, st')
    ∧ Forall (λ cfg, is_Some (findBan (userId banInfo)
                                (bansOf st' (server_id cfg)))) (servers env)
    ∧ Forall (λ r, BanResult.success r = true) results.
Proof.
  intros Hco Hnone.
  destruct (syncBanToAllServers_runs env banInfo st)
    as (results & st' & Hrun & Hruns).
  exists results, st'. split; [done|].
  by destruct (runs_sync_complete _ _ _ _ _ _ Hruns Hco
                 (tokensOfBanned_none _ _ Hnone)) as (_ & ? & ?).
Qed.

Lemma quietEnv_cooperative u : Forall (cooperative quietEnv u) (servers quietEnv).
Proof. by repeat constructor. Qed.

Lemma sync_reaches_every_guild_witness :
  ∃ results st',
    syncBanToAllServers quietEnv banOfU (bannedInA (Some "spam"))
    = (Ok results, st')
    ∧ Forall (λ cfg, is_Some (findBan (userId banOfU)
                                (bansOf st' (server_id cfg))))
        (servers quietEnv)
    ∧ Forall (λ r, BanResult.success r = true) results.
Proof.
  apply (sync_reaches_every_guild quietEnv banOfU (bannedInA (Some "spam"))).
  - apply quietEnv_cooperative.
  - intros g. apply lookup_empty.
Defined.



(** X11.  Running [syncBanToAllServers] a second time for the same ban:
    every entry that the first run reported as applied, on a guild whose
    ban lookup answers, is reported as already banned by the second. *)
Theorem second_sync_finds_the_ban (env : Env) (banInfo : BanInfo)
    (st st1 st2 : State) (results1 results2 : list BanResult.t)
    (i : nat) (cfg : ServerConfig) :
  syncBanToAllServers env banInfo st = (Ok results1, st1) →
  syncBanToAllServers env banInfo st1 = (Ok results2, st2) →
  servers env !! i = Some cfg →
  results1 !! i = Some (banApplied cfg) →
  bansFetchFault env (server_id cfg) (userId banInfo) = None →
  results2 !! i = Some (banAlready cfg).
Proof.
  intros Hrun1 Hrun2 Hi Hr Hf.
  destruct (syncBanToAllServers_runs env banInfo st)
    as (r1 & s1 & Hrun1' & Hruns1).
  rewrite Hrun1 in Hrun1'. injection Hrun1' as <- <-.
  destruct (syncBanToAllServers_runs env banInfo st1)
    as (r2 & s2 & Hrun2' & Hruns2).
  rewrite Hrun2 in Hrun2'. injection Hrun2' as <- <-.
  destruct (runs_sync_applied _ _ _ _ _ _ _ _ Hruns1 Hi Hr) as (Hc & Hm & Hb).
  by eapply runs_sync_banned.
Qed.

Lemma second_sync_finds_the_ban_witness :
  ∃ st1 results2 st2,
    syncBanToAllServers quietEnv banOfU (bannedInA (Some "spam"))
    = (Ok [banAlready guildA; banApplied guildB], st1)
    ∧ syncBanToAllServers quietEnv banOfU st1 = (Ok results2, st2)
    ∧ results2 !! 1%nat = Some (banAlready guildB).
Proof.
  destruct (syncBanToAllServers quietEnv banOfU (bannedInA (Some "spam")))
    as [r1 st1] eqn:Hrun1.
  assert (Hfirst : r1 = Ok [banAlready guildA; banApplied guildB]).
  { apply (f_equal fst) in Hrun1. simpl in Hrun1. by rewrite <- Hrun1. }
  subst r1.
  destruct (syncBanToAllServers_runs quietEnv banOfU st1)
    as (results2 & st2 & Hrun2 & _).
  exists st1, results2, st2. split; [done|]. split; [done|].
  exact (second_sync_finds_the_ban quietEnv banOfU _ _ _ _ _ 1%nat guildB
           Hrun1 Hrun2 eq_refl eq_refl eq_refl).
Defined.

(** X12.  An [/unban] of a well-formed id by a requester holding Ban
    Members, when every configured guild answers the bot's calls for that
    user: the command returns, afterwards no configured guild lists the
    user, and every result is a success.  When the embed builder accepts
    the summary, which counts no error, it is replied and handed to the
    log channels; when it refuses it, the reply is the error message and
    nothing is logged. *)
Theorem unban_reaches_every_guild (env : Env) (interaction : Interaction)
    (st : State) :
  memberCanBan interaction = true →
  userIdFormat (opt_user_id interaction) = true →
  Forall (cooperativeUnban env (opt_user_id interaction)) (servers env) →
  ∃ st' results rest,
    handleUnbanCommand env interaction st = (Ok tt, st')
    ∧ Forall (λ cfg, findBan (opt_user_id interaction)
                       (bansOf st' (server_id cfg)) = None) (servers env)
    ∧ Forall (λ r, UnbanResult.success r = true) results
    ∧ trace st'
      = match embedFault env
                (UnbanComplete (opt_user_id interaction)
                   (orElse (opt_reason interaction) "No reason provided")
                   results (countIf isUnbanned results)
                   (countIf isNotBanned results) 0) with
        | None =>
            SendLogToAll
              (UnbanComplete (opt_user_id interaction)
                 (orElse (opt_reason interaction) "No reason provided")
                 results (countIf isUnbanned results)
                 (countIf isNotBanned results) 0)
            :: InteractionReply
                 (ReplyEmbed
                    (UnbanComplete (opt_user_id interaction)
                       (orElse (opt_reason interaction) "No reason provided")
                       results (countIf isUnbanned results)
                       (countIf isNotBanned results) 0))
            :: rest
        | Some _ => InteractionReply UnbanFailed :: rest
        end.
Proof.
  intros Hperm Hfmt Hco.
  unfold handleUnbanCommand. rewrite Hperm, Hfmt.
  change (negb true) with false. cbv zeta iota.
  set (reason := orElse (opt_reason interaction) "No reason provided").
  set (st0 := mkState (clock st) (processingBans st) (guildBans st)
                (InteractionReply Deferred :: trace st)).
  destruct (unbanFromAllServers_runs env (opt_user_id interaction) reason
              (requesterTag interaction) st0)
    as (results & st1 & Hrun & Hruns).
  destruct (runs_unban_complete _ _ _ _ _ _ _ _ Hruns Hco) as [Hall Hrs].
  assert (Hzero : countIf isUnbanError results = 0%nat).
  { clear -Hrs. unfold countIf, isUnbanError.
    induction Hrs as [|r rs Hr _ IH]; simpl; [done|]. by rewrite Hr. }
  unfold mbind at 1, Async_bind at 1, emit at 1. cbv beta. fold st0.
  unfold tryCatch, mbind at 1, Async_bind at 1. rewrite Hrun.
  rewrite Hzero. unfold mbind, Async_bind, buildEmbed.
  exists (match embedFault env
                  (UnbanComplete (opt_user_id interaction) reason results
                     (countIf isUnbanned results) (countIf isNotBanned results)
                     0) with
          | None =>
              mkState (clock st1) (processingBans st1) (guildBans st1)
                (SendLogToAll
                   (UnbanComplete (opt_user_id interaction) reason results
                      (countIf isUnbanned results)
                      (countIf isNotBanned results) 0)
                 :: InteractionReply
                      (ReplyEmbed
                         (UnbanComplete (opt_user_id interaction) reason
                            results (countIf isUnbanned results)
                            (countIf isNotBanned results) 0))
                 :: trace st1)
          | Some _ =>
              mkState (clock st1) (processingBans st1) (guildBans st1)
                (InteractionReply UnbanFailed :: trace st1)
          end), results, (trace st1).
  destruct (embedFault env _); simpl; by repeat split.
Qed.

Lemma unban_reaches_every_guild_witness :
  ∃ st' results rest,
    handleUnbanCommand quietEnv moderator (bannedInA (Some "spam")) = (Ok tt, st')
    ∧ Forall (λ cfg, findBan (opt_user_id moderator)
                       (bansOf st' (server_id cfg)) = None) (servers quietEnv)
    ∧ Forall (λ r, UnbanResult.success r = true) results
    ∧ trace st'
      = SendLogToAll
          (UnbanComplete (opt_user_id moderator) "No reason provided"
             results (countIf isUnbanned results)
             (countIf isNotBanned results) 0)
        :: InteractionReply
             (ReplyEmbed
                (UnbanComplete (opt_user_id moderator) "No reason provided"
                   results (countIf isUnbanned results)
                   (countIf isNotBanned results) 0))
        :: rest.
Proof.
  apply (unban_reaches_every_guild quietEnv moderator (bannedInA (Some "spam"))).
  - reflexivity.
  - reflexivity.
  - by repeat constructor.
Defined.

(** ** The first version of the listener *)

(** X13.  The first version of the listener returns without throwing,
    and everything it calls concerns the banned user: lookups in guilds
    other than the origin, a ban only in a cached guild other than the
    origin where the user is a member, with the reason 'Ban sync from'
    followed by the origin's registered name, and the report to the
    origin's system channel when the bot may write there. *)
Theorem legacy_bans_members_only (env : Env) (ban : BanEvent) (st : State) :
  ∃ st' added,
    Legacy.guildBanAdd env ban st = (Ok tt, st')
    ∧ emitted st st' added
    ∧ Forall (λ e, ∃ name,
                Legacy.serverMap env !! ev_guildId ban = Some name
                ∧ legacyCall env ban name e) added.
Proof.
  unfold Legacy.guildBanAdd.
  destruct (Legacy.serverMap env !! ev_guildId ban) as [name|] eqn:Hname;
    [|by exists st, []].
  set (P := λ (cfg : ServerConfig) (s : State) (r : BanResult.t) (s' : State),
              emits (legacyCall env ban name) s s').
  assert (Hstep : ∀ cfg s, ∃ r s',
            Legacy.banAddToServer env ban name cfg s = (Ok r, s') ∧ P cfg s r s').
  { intros cfg s.
    destruct (legacy_banAddToServer_step env ban name cfg s)
      as (r & s' & a & Hrun & Hem & Hall).
    exists r, s'. split; [done|]. by exists a. }
  destruct (forEach_runs _ P Hstep (servers env) st)
    as (results & st1 & Hrun & Hruns).
  assert (Hloop : ∃ added, emitted st st1 added
                           ∧ Forall (legacyCall env ban name) added).
  { clear Hrun. induction Hruns as [s|x l s r s1 rs s2 (a1 & He1 & Hf1) _ IH].
    - by exists [].
    - destruct IH as (a2 & He2 & Hf2). exists (a2 ++ a1).
      split; [by eapply emitted_trans | by apply Forall_app]. }
  destruct Hloop as (added & Hem & Hall).
  unfold mbind, Async_bind. rewrite Hrun.
  assert (Hnamed : Forall (λ e, ∃ name0,
                      Some name = Some name0 ∧ legacyCall env ban name0 e)
                     added).
  { eapply Forall_impl; [exact Hall|]. intros e He. by exists name. }
  unfold Legacy.sendBanReport, tryCatch, buildEmbed, mbind, Async_bind.
  destruct (systemChannelWritable env (ev_guildId ban)) eqn:Hw; simpl;
    [|by exists st1, added].
  destruct (embedFault env _); simpl; [by exists st1, added|].
  eexists _, (_ :: added). split; [reflexivity|]. unfold emitted in *. simpl.
  split; [by rewrite Hem|].
  apply Forall_cons. split; [by exists name|done].
Qed.

(** ** The reconciliation pass *)

(** X14.  A [/sync] by a requester holding Ban Members, when every ban
    record the bot can read carries the sync tag (or there is none): the
    command answers that there is nothing to sync; between the deferral
    and that answer it only reads, and ban lists, clock and lock table
    are left as they were. *)
Theorem nothing_to_sync (env : Env) (interaction : Interaction) (st : State) :
  memberCanBan interaction = true →
  Forall (λ p, isSyncTagged (ban_reason p.2) = true) (observed env st) →
  ∃ st' reads,
    handleSyncCommand env interaction st = (Ok tt, st')
    ∧ trace st' = InteractionReply NoBansToSync
                  :: reads ++ InteractionReply Deferred :: trace st
    ∧ Forall silent reads
    ∧ guildBans st' = guildBans st
    ∧ sameTime st st'.
Proof.
  intros Hperm Htagged.
  set (st0 := mkState (clock st) (processingBans st) (guildBans st)
                (InteractionReply Deferred :: trace st)).
  assert (Hunion : (collectAllBans env st).1 = Ok []).
  { destruct (collectAllBans_run env st) as (s & a & -> & _). simpl.
    by rewrite union_of_tagged. }
  destruct (collectAllBans_after env st st0 [] eq_refl Hunion)
    as (st1 & reads & Hrun & Hb & [Hc Hl] & Hem & Hs & _).
  unfold handleSyncCommand. rewrite Hperm.
  change (negb true) with false. cbv iota.
  unfold mbind, Async_bind, emit. cbv beta. fold st0. rewrite Hrun. simpl.
  eexists _, reads. split; [reflexivity|]. simpl.
  unfold emitted in Hem. rewrite Hem.
  repeat split; done.
Qed.

Lemma nothing_to_sync_witness :
  ∃ st' reads,
    handleSyncCommand quietEnv moderator syncedInA = (Ok tt, st')
    ∧ trace st' = InteractionReply NoBansToSync
                  :: reads ++ InteractionReply Deferred :: trace syncedInA
    ∧ Forall silent reads
    ∧ guildBans st' = guildBans syncedInA
    ∧ sameTime syncedInA st'.
Proof.
  apply (nothing_to_sync quietEnv moderator syncedInA).
  - reflexivity.
  - by repeat constructor.
Defined.

(** X15.  A [/sync] by a requester holding Ban Members over a non-empty
    union: the final embed goes to the reply and to the log channels; its
    total is the size of the union and its details list the union's
    users in order; the three counters never count more than one result
    per union entry and server, and count all of them when no call
    rejects with an empty message; the pass takes [BAN_DELAY_MS] for
    every union entry and for every ban applied; and a progress reply
    is sent exactly after every fifth entry. *)
Theorem sync_pass_totals (env : Env) (interaction : Interaction) (st : State)
    (allBans : list (string * BanInfo)) :
  memberCanBan interaction = true →
  (collectAllBans env st).1 = Ok allBans →
  allBans ≠ [] →
  ∃ st' stats added rest,
    handleSyncCommand env interaction st = (Ok tt, st')
    ∧ emitted st st' added
    ∧ added = SendLogToAll (SyncComplete stats (length (servers env)))
              :: InteractionReply
                   (ReplyEmbed (SyncComplete stats (length (servers env))))
              :: rest
    ∧ SyncStats.totalBans stats = length allBans
    ∧ (SyncStats.details stats).*1 = allBans.*1
    ∧ (counted stats ≤ length allBans * length (servers env))%nat
    ∧ (messagesNonEmpty env →
       counted stats = (length allBans * length (servers env))%nat)
    ∧ clock st' = clock st
                  + BAN_DELAY_MS
                    * Z.of_nat (length allBans + SyncStats.newBans stats)
    ∧ ∀ k, InteractionReply (SyncProgress k (length allBans)) ∈ added
           ↔ (0 < k ≤ length allBans)%nat ∧ (k mod 5 = 0)%nat.
Proof.
  intros Hperm Hunion Hne.
  set (st0 := mkState (clock st) (processingBans st) (guildBans st)
                (InteractionReply Deferred :: trace st)).
  destruct (collectAllBans_after env st st0 allBans eq_refl Hunion)
    as (st1 & reads & Hrun & Hb & [Hc Hl] & Hem & Hs & Hnd).
  set (st2 := mkState (clock st1) (processingBans st1) (guildBans st1)
                (InteractionReply
                   (SyncStarting (length allBans) (length (servers env)))
                 :: trace st1)).
  destruct (syncLoop_run env (length allBans) allBans (emptyStats, 0%nat) st2 Hnd)
    as (acc & st3 & loop & Hloop & Htotal & Hdetails & Hle & Heq & Hclock
        & Hlem & Hpub & Hall).
  simpl in *.
  unfold handleSyncCommand. rewrite Hperm.
  change (negb true) with false. cbv iota.
  unfold mbind at 1 2, Async_bind at 1 2, emit at 1. cbv beta. fold st0.
  rewrite Hrun.
  destruct allBans as [|entry allBans]; [done|].
  change (length (entry :: allBans) =? 0)%nat with false. cbv iota.
  unfold mbind at 1 2, Async_bind at 1 2, emit at 1. cbv beta. fold st2.
  rewrite Hloop. unfold mbind, Async_bind, emit. simpl.
  set (rest := loop ++ InteractionReply
                         (SyncStarting (S (length allBans))
                            (length (servers env)))
                      :: reads ++ [InteractionReply Deferred]).
  eexists _, acc.1,
    (SendLogToAll (SyncComplete acc.1 (length (servers env)))
     :: InteractionReply
          (ReplyEmbed (SyncComplete acc.1 (length (servers env))))
     :: rest), rest.
  split; [reflexivity|].
  unfold emitted in *. simpl in *. rewrite Hlem, Hem.
  split.
  { unfold rest. simpl. rewrite <- !app_assoc. simpl.
    rewrite <- !app_assoc. reflexivity. }
  split; [reflexivity|].
  split; [done|]. split; [done|]. split; [lia|].
  split; [intros Hm; rewrite Heq by done; lia|].
  split; [unfold BAN_DELAY_MS in *; lia|].
  intros k. split.
  - intros Hin.
    apply elem_of_cons in Hin as [?|Hin]; [done|].
    apply elem_of_cons in Hin as [?|Hin]; [done|].
    apply elem_of_app in Hin as [Hin|Hin].
    + destruct (Hpub _ Hin eq_refl) as (k' & [= ->] & Hk & Hmod).
      split; [lia|done].
    + apply elem_of_cons in Hin as [?|Hin]; [done|].
      apply elem_of_app in Hin as [Hin|Hin].
      * rewrite Forall_forall in Hs. by destruct (Hs _ Hin) as [_ ?].
      * by apply list_elem_of_singleton in Hin.
  - intros [Hk Hmod]. do 2 apply list_elem_of_further.
    apply elem_of_app. left. apply Hall. exists k. split; [done|].
    split; [lia|done].
Qed.

Lemma quietEnv_messagesNonEmpty : messagesNonEmpty quietEnv.
Proof. split; intros; discriminate. Qed.

Lemma sync_pass_totals_witness :
  ∃ st' stats rest,
    handleSyncCommand quietEnv moderator (bannedInA (Some "spam")) = (Ok tt, st')
    ∧ trace st' = SendLogToAll (SyncComplete stats 2) :: rest
    ∧ SyncStats.totalBans stats = 1%nat
    ∧ counted stats = 2%nat
    ∧ clock st' = clock (bannedInA (Some "spam"))
                  + BAN_DELAY_MS * Z.of_nat (1 + SyncStats.newBans stats).
Proof.
  destruct (sync_pass_totals quietEnv moderator (bannedInA (Some "spam"))
              [(subjectU, banOfU)])
    as (st' & stats & added & rest & Hrun & Hem & -> & Ht & _ & _ & Hc
        & Hclock & _).
  - reflexivity.
  - reflexivity.
  - discriminate.
  - eexists st', stats, _.
    split; [exact Hrun|]. split; [exact Hem|]. split; [exact Ht|].
    split; [exact (Hc quietEnv_messagesNonEmpty)|exact Hclock].
Defined.

(** ** The cleanup timer *)

(** X16.  The [setInterval] cleanup is not observable: for any sequence
    of events from any state, leaving out every firing of the timer
    gives the same calls in the same order, the same ban lists and the
    same clock; the lock tables differ only by tokens past the timeout
    that the timer removed. *)
Theorem sweep_timer_is_invisible (env : Env) (events : list Event) (st : State) :
  swept (handleAll env events st).2
    (handleAll env (List.filter notSweep events) st).2.
Proof. apply swept_handleAll, swept_refl. Qed.

(** ** Keys of the lock table *)

(** X17.  For user ids without a dash (every Discord id is a string of
    digits), the answer of [isBanProcessing] for one (user, guild) pair
    is not changed by marking, unmarking or checking any other pair: the
    keys built by [getBanKey] do not collide. *)
Theorem tokens_are_per_pair (u g u' g' : string) (now t : Z) (m : gmap string Z) :
  dashFree u → dashFree u' → (u, g) ≠ (u', g') →
  (isBanProcessing now u' g' (markBanProcessing t u g m)).1
  = (isBanProcessing now u' g' m).1
  ∧ (isBanProcessing now u' g' (unmarkBanProcessing u g m)).1
    = (isBanProcessing now u' g' m).1
  ∧ (isBanProcessing now u' g' (isBanProcessing t u g m).2).1
    = (isBanProcessing now u' g' m).1.
Proof.
  intros Hu Hu' Hne.
  assert (Hk : getBanKey u g ≠ getBanKey u' g').
  { intros Hk. apply Hne. by destruct (getBanKey_inj _ _ _ _ Hu Hu' Hk) as [-> ->]. }
  repeat split; apply isBanProcessing_same_lookup.
  - unfold markBanProcessing. by rewrite lookup_insert_ne.
  - unfold unmarkBanProcessing. by rewrite lookup_delete_ne.
  - destruct (isBanProcessing_lookup t u g m (getBanKey u' g'))
      as [Heq|(Heq & _)]; [done|]. by destruct Hk.
Qed.

Lemma tokens_are_per_pair_witness :
  (isBanProcessing 1700000000001 subjectU (server_id guildB)
     (markBanProcessing 1700000000000 subjectU (server_id guildA) ∅)).1
  = (isBanProcessing 1700000000001 subjectU (server_id guildB) ∅).1.
Proof.
  apply (tokens_are_per_pair subjectU (server_id guildA) subjectU
           (server_id guildB) 1700000000001 1700000000000 ∅).
  - by apply userIdFormat_dashFree.
  - by apply userIdFormat_dashFree.
  - discriminate.
Defined.

(** ** The registry, the handlers' errors, the log channels *)

(** X18.  [serverMap.get(id)] is the last registry entry with that id,
    in the present version (which maps to the entry) and in the first
    one (which maps to the entry's name): when the registry repeats an
    id, the earlier entries are never looked up. *)
Theorem registry_last_entry_wins (env : Env) (g : string) :
  serverMap env !! g = lastEntry env g
  ∧ Legacy.serverMap env !! g = server_name <$> lastEntry env g.
Proof.
  split; [apply serverMap_lastEntry|].
  unfold Legacy.serverMap, lastEntry.
  rewrite (foldl_insert_last server_name). by destruct (last _).
Qed.


(** X20.  [sendLogToAll] only adds deliveries of the given embed, at
    most one per registry entry, each to the log channel that the last
    registry entry with the guild's id names, in a cached guild, the
    channel being text-based and writable; and every registry entry
    whose guild has such a channel, the send not failing, gets its
    delivery. *)
Theorem log_reaches_the_configured_channels (env : Env) (lenv : LogEnv)
    (embed : Embed) (outbox : list Delivery) :
  ∃ added,
    sendLogToAll env lenv embed outbox = added ++ outbox
    ∧ Forall (λ d, delivered d = embed
                   ∧ to_guild d ∈ server_id <$> servers env
                   ∧ logChannelOf env lenv (to_guild d) (to_channel d)
                   ∧ sendFault lenv (to_guild d) (to_channel d) = None) added
    ∧ (∀ cfg ch, cfg ∈ servers env →
                 logChannelOf env lenv (server_id cfg) ch →
                 sendFault lenv (server_id cfg) ch = None →
                 mkDelivery (server_id cfg) ch embed ∈ added)
    ∧ (length added ≤ length (servers env))%nat.
Proof. apply sendLog_fold. Qed.

(** ** Convergence *)

(** X21.  A [/sync] by a requester holding Ban Members, when every
    configured guild answers every call, no token is stored and the
    listed user ids have no dash: the command returns, and every user
    that some configured guild listed with a reason not carrying the
    sync tag is afterwards on the ban list of every configured guild. *)
Theorem sync_command_converges (env : Env) (interaction : Interaction)
    (st : State) :
  memberCanBan interaction = true →
  (∀ u, Forall (cooperative env u) (servers env)) →
  (∀ cfg, cfg ∈ servers env → bansListFault env (server_id cfg) = None) →
  processingBans st = ∅ →
  (∀ cfg b, cfg ∈ servers env → b ∈ bansOf st (server_id cfg) →
            dashFree (ban_userId b)) →
  ∃ st',
    handleSyncCommand env interaction st = (Ok tt, st')
    ∧ ∀ cfg b, cfg ∈ servers env → b ∈ bansOf st (server_id cfg) →
               isSyncTagged (ban_reason b) = false →
               bannedEverywhere env st' (ban_userId b).
Proof.
  intros Hperm Hco Hlist Hlocks Hdash.
  set (st0 := mkState (clock st) (processingBans st) (guildBans st)
                (InteractionReply Deferred :: trace st)).
  destruct (collectAllBans_run env st) as (s & a & Hunion & _).
  apply (f_equal fst) in Hunion. simpl in Hunion.
  destruct (union_entries (observed env st) _ eq_refl) as [Hfrom Hinto].
  set (allBans := foldl (λ acc p, addToUnion p.1 acc p.2) [] (observed env st))
    in *.
  destruct (collectAllBans_after env st st0 allBans eq_refl Hunion)
    as (st1 & reads & Hrun & Hb & [Hc Hl] & Hem & Hs & Hnd).
  assert (Hlisted : ∀ cfg b, cfg ∈ servers env →
            b ∈ bansOf st (server_id cfg) →
            isSyncTagged (ban_reason b) = false →
            ∃ entry, entry ∈ allBans ∧ userId entry.2 = ban_userId b).
  { intros cfg b Hin Hban Htag.
    destruct (Hinto (cfg, b)) as (entry & ? & ?); [|done|by exists entry].
    apply observed_intro; [done| |by apply Hlist|done].
    pose proof (Hco "") as Hall. rewrite Forall_forall in Hall.
    by destruct (Hall cfg Hin). }
  unfold handleSyncCommand. rewrite Hperm.
  change (negb true) with false. cbv iota.
  unfold mbind at 1 2, Async_bind at 1 2, emit at 1. cbv beta. fold st0.
  rewrite Hrun.
  destruct (length allBans =? 0)%nat eqn:Hlen.
  { eexists. split; [reflexivity|]. intros cfg b Hin Hban Htag.
    destruct (Hlisted cfg b Hin Hban Htag) as (entry & Hentry & _).
    apply Nat.eqb_eq, length_zero_iff_nil in Hlen. rewrite Hlen in Hentry.
    by apply elem_of_nil in Hentry. }
  set (st2 := mkState (clock st1) (processingBans st1) (guildBans st1)
                (InteractionReply
                   (SyncStarting (length allBans) (length (servers env)))
                 :: trace st1)).
  destruct (syncLoop_converges env (length allBans) allBans (emptyStats, 0%nat)
              st2) as (acc & st3 & Hloop & _ & _ & Hall).
  { rewrite Forall_forall. intros entry Hentry.
    destruct (Hfrom entry Hentry) as ([cfg b] & Hobs & ->).
    apply observed_elem in Hobs as [Hin Hban]. by eapply Hdash. }
  { done. }
  { intros u _. apply tokensOfBanned_none. intros g. simpl.
    rewrite Hl. simpl. rewrite Hlocks. apply lookup_empty. }
  unfold mbind at 1 2, Async_bind at 1 2, emit at 1. cbv beta. fold st2.
  rewrite Hloop. unfold mbind, Async_bind, emit. simpl.
  eexists. split; [reflexivity|]. intros cfg b Hin Hban Htag.
  destruct (Hlisted cfg b Hin Hban Htag) as (entry & Hentry & <-).
  rewrite Forall_forall in Hall. exact (Hall entry Hentry).
Qed.

Lemma sync_command_converges_witness :
  ∃ st',
    handleSyncCommand quietEnv moderator (bannedInA (Some "spam")) = (Ok tt, st')
    ∧ bannedEverywhere quietEnv st' subjectU.
Proof.
  destruct (sync_command_converges quietEnv moderator (bannedInA (Some "spam")))
    as (st' & Hrun & Hall).
  - reflexivity.
  - intros u. apply quietEnv_cooperative.
  - done.
  - reflexivity.
  - intros cfg b Hin Hb.
    apply elem_of_cons in Hin as [->|Hin];
      [|apply list_elem_of_singleton in Hin as ->].
    + apply list_elem_of_singleton in Hb as ->.
      by apply userIdFormat_dashFree.
    + by apply elem_of_nil in Hb.
  - exists st'. split; [exact Hrun|].
    apply (Hall guildA (mkBan subjectU "user#0001" (Some "spam"))).
    + apply list_elem_of_here.
    + apply list_elem_of_here.
    + reflexivity.
Defined.
